(** * Automoderation core of the chat bot: model and verification

    The development embeds the moderation core of [main.py] (the settings
    registry, the role model, the warning ledger, activity pruning, the text
    helpers and the [moderate_all] pipeline) and proves the properties the
    specification states about them.

    Conventions of the embedding.
    - A Python [str] on which the code computes character by character
      (message text, captions, user names) is a [pystr], a list of
      characters; a character is a code point in the range 0..255 (type
      [ascii]), the range on which [str.lower], [str.isspace] and UTF-8
      encoding are given below exactly. Identifiers (field names, role
      names, reason tags, album ids) are Rocq strings.
    - A clock reading ([time.time()]) is an exact rational number of seconds;
      the rounding of floating-point subtraction is not modelled. The
      readings taken while one update is handled are one reading.
    - A JSON value kept in [data.json] is a [pyval]: [None], a bool, an int or
      a string.
    - [DATA] dictionaries keyed by [str(int(id))] are maps keyed by the
      integer itself; dictionaries whose iteration order the code depends on
      are association lists in insertion order.
    - [bot.get_chat_member] is a function of the chat and the user: the
      platform answers the same way while one update is handled.
    - The handlers of [moderate_all] are concurrent tasks, and a task gives
      up control only at an [await] of the platform. [moderate_all] is the
      handler run from its first line to its last with no other task in
      between, and [run] a dispatcher that handles its updates in this way,
      in the order of the list: each update is listed with the reading its
      handler took, and the readings of a list need not ascend. [serve] is
      the dispatcher with the handlers as tasks, which start at a clock
      reading and resume when the platform answers, in any order.
    - An exception ([exn]) is one the statements of the program raise on the
      values they compute with. A call of the platform that raises
      [TelegramBadRequest], which the program catches at each call, is a call
      the platform refuses; what else a call may raise (a flood-control,
      permission or network error of the library) is not caught by the
      program and not modelled: the model has the runs in which the calls
      of the platform raise nothing else. *)

From Stdlib Require Import ZArith QArith Qround Lqa Lia List Ascii String Bool.
From Stdlib Require Import DecimalString Permutation Sorting.Sorted.
From Stdlib Require DecimalPos OrderedTypeEx.
From stdpp Require Import gmap strings list fin_maps.

Open Scope Z_scope.

(** ** Python strings *)

Module Text.

Definition pystr := list ascii.

(** A string literal as a [pystr]. *)
Definition lit (s : string) : pystr := list_ascii_of_string s.

Definition code (c : ascii) : N := N_of_ascii c.

Definition in_range (lo hi : N) (c : ascii) : bool :=
  ((lo <=? code c) && (code c <=? hi))%N.

(** [str.isspace] on one character, which is also the class [\s] of [re]
    and the set [str.strip()] removes: TAB..CR, FS..US, SPACE, NEL, NBSP. *)
Definition isspace (c : ascii) : bool :=
  in_range 9 13 c || in_range 28 32 c || (code c =? 133)%N || (code c =? 160)%N.

(** [str.lower] on one character: A..Z and the Latin-1 capitals
    U+00C0..U+00DE other than the multiplication sign U+00D7. *)
Definition lower_char (c : ascii) : ascii :=
  if in_range 65 90 c || in_range 192 214 c || in_range 216 222 c
  then ascii_of_N (code c + 32)
  else c.

Definition lower (s : pystr) : pystr := List.map lower_char s.

Fixpoint lstrip (s : pystr) : pystr :=
  match s with
  | c :: r => if isspace c then lstrip r else s
  | [] => []
  end.

Definition rstrip (s : pystr) : pystr := rev (lstrip (rev s)).

Definition strip (s : pystr) : pystr := rstrip (lstrip s).

(** [t.startswith(m)]. *)
Fixpoint startswith (m t : pystr) : bool :=
  match m, t with
  | [], _ => true
  | a :: m', b :: t' => Ascii.eqb a b && startswith m' t'
  | _ :: _, [] => false
  end.

(** [m in t]: [m] occurs in [t] as a contiguous substring. *)
Fixpoint contains (m t : pystr) : bool :=
  startswith m t ||
  match t with
  | [] => false
  | _ :: t' => contains m t'
  end.

Definition space : ascii := " "%char.

(** [s.replace("  ", " ")]: one left-to-right pass over the non-overlapping
    occurrences of two spaces. *)
Fixpoint replace_2sp (s : pystr) : pystr :=
  match s with
  | [] => []
  | c :: r =>
      match r with
      | d :: r' =>
          if Ascii.eqb c space && Ascii.eqb d space
          then space :: replace_2sp r'
          else c :: replace_2sp r
      | [] => [c]
      end
  end.

(** [while "  " in s: s = s.replace("  ", " ")], at most [fuel] rounds. *)
Fixpoint collapse_loop (fuel : nat) (s : pystr) : pystr :=
  match fuel with
  | O => s
  | S fuel' =>
      if contains [space; space] s
      then collapse_loop fuel' (replace_2sp s)
      else s
  end.

(** [norm_text]. Every round of the loop shortens [s], so [length s]
    rounds are enough: no two adjacent spaces are left. *)
Definition norm_text (s : pystr) : pystr :=
  let s1 := lower (strip s) in
  collapse_loop (List.length s1) s1.

End Text.

(** ** Regular expressions ([re.search]) *)

Module Regex.
Import Text.

(** The fragment of [re] syntax the source uses: literals, character classes,
    concatenation, alternation and repetition. *)
Inductive re : Type :=
| Void
| Eps
| Chr (c : ascii)
| Cls (p : ascii -> bool)
| Seq (r1 r2 : re)
| Alt (r1 r2 : re)
| Star (r : re).

(** [r?] and [r+]. *)
Definition Opt (r : re) : re := Alt r Eps.
Definition Plus (r : re) : re := Seq r (Star r).

(** A literal string. *)
Fixpoint Lit (s : pystr) : re :=
  match s with
  | [] => Eps
  | c :: s' => Seq (Chr c) (Lit s')
  end.

Fixpoint nullable (r : re) : bool :=
  match r with
  | Void => false
  | Eps => true
  | Chr _ => false
  | Cls _ => false
  | Seq r1 r2 => nullable r1 && nullable r2
  | Alt r1 r2 => nullable r1 || nullable r2
  | Star _ => true
  end.

(** Brzozowski derivative of [r] by the character [c]. *)
Fixpoint deriv (c : ascii) (r : re) : re :=
  match r with
  | Void => Void
  | Eps => Void
  | Chr d => if Ascii.eqb c d then Eps else Void
  | Cls p => if p c then Eps else Void
  | Seq r1 r2 =>
      if nullable r1
      then Alt (Seq (deriv c r1) r2) (deriv c r2)
      else Seq (deriv c r1) r2
  | Alt r1 r2 => Alt (deriv c r1) (deriv c r2)
  | Star r1 => Seq (deriv c r1) (Star r1)
  end.

(** [re.match(r, s)] as a truth value: some prefix of [s] is in the
    language of [r]. *)
Fixpoint match_prefix (r : re) (s : pystr) : bool :=
  nullable r ||
  match s with
  | [] => false
  | c :: s' => match_prefix (deriv c r) s'
  end.

(** [re.search(r, s)] as a truth value: a match starts at some position. *)
Fixpoint search (r : re) (s : pystr) : bool :=
  match_prefix r s ||
  match s with
  | [] => false
  | _ :: s' => search r s'
  end.

(** The language of a regular expression. *)
Inductive Matches : re -> pystr -> Prop :=
| MEps : Matches Eps []
| MChr c : Matches (Chr c) [c]
| MCls p c : p c = true -> Matches (Cls p) [c]
| MSeq r1 r2 s1 s2 : Matches r1 s1 -> Matches r2 s2 -> Matches (Seq r1 r2) (s1 ++ s2)
| MAltL r1 r2 s : Matches r1 s -> Matches (Alt r1 r2) s
| MAltR r1 r2 s : Matches r2 s -> Matches (Alt r1 r2) s
| MStar0 r : Matches (Star r) []
| MStarS r s1 s2 : Matches r s1 -> Matches (Star r) s2 -> Matches (Star r) (s1 ++ s2).

End Regex.

(** ** SHA-256 ([hashlib.sha256]), FIPS 180-4 *)

Module SHA256.

Definition w32 (x : Z) : Z := x mod 2 ^ 32.
Definition add32 (a b : Z) : Z := w32 (a + b).
Definition rotr (n x : Z) : Z := w32 (Z.lor (Z.shiftr x n) (Z.shiftl x (32 - n))).
Definition not32 (x : Z) : Z := Z.lxor x (2 ^ 32 - 1).

Definition Ch (x y z : Z) : Z := Z.lxor (Z.land x y) (Z.land (not32 x) z).
Definition Maj (x y z : Z) : Z :=
  Z.lxor (Z.lxor (Z.land x y) (Z.land x z)) (Z.land y z).
Definition bsig0 (x : Z) : Z := Z.lxor (Z.lxor (rotr 2 x) (rotr 13 x)) (rotr 22 x).
Definition bsig1 (x : Z) : Z := Z.lxor (Z.lxor (rotr 6 x) (rotr 11 x)) (rotr 25 x).
Definition ssig0 (x : Z) : Z := Z.lxor (Z.lxor (rotr 7 x) (rotr 18 x)) (Z.shiftr x 3).
Definition ssig1 (x : Z) : Z := Z.lxor (Z.lxor (rotr 17 x) (rotr 19 x)) (Z.shiftr x 10).

(** The first 64 primes. *)
Definition primes : list Z :=
  [2; 3; 5; 7; 11; 13; 17; 19; 23; 29; 31; 37; 41; 43; 47; 53;
   59; 61; 67; 71; 73; 79; 83; 89; 97; 101; 103; 107; 109; 113; 127; 131;
   137; 139; 149; 151; 157; 163; 167; 173; 179; 181; 191; 193; 197; 199;
   211; 223; 227; 229; 233; 239; 241; 251; 257; 263; 269; 271; 277; 281;
   283; 293; 307; 311].

(** Integer cube root below [2 ^ bits], one bit at a time. *)
Fixpoint icbrt (bits : nat) (n acc : Z) : Z :=
  match bits with
  | O => acc
  | S b =>
      let cand := acc + 2 ^ Z.of_nat b in
      icbrt b n (if cand * cand * cand <=? n then cand else acc)
  end.

(** Round constants: the first 32 bits of the fractional parts of the cube
    roots of the primes; initial hash value: the same of the square roots of
    the first eight. *)
Definition K : list Z :=
  Eval vm_compute in List.map (fun p => w32 (icbrt 40 (p * 2 ^ 96) 0)) primes.
Definition H0 : list Z :=
  Eval vm_compute in List.map (fun p => w32 (Z.sqrt (p * 2 ^ 64))) (firstn 8 primes).

(** Padding: a 1 bit, zeros up to 56 mod 64, the bit length on 8 bytes. *)
Definition be_bytes (n : nat) (x : Z) : list Z :=
  List.map (fun i => (Z.shiftr x (8 * Z.of_nat i)) mod 256) (rev (seq 0 n)).

Definition pad (msg : list Z) : list Z :=
  let len := Z.of_nat (List.length msg) in
  let zeros := Z.to_nat ((55 - len) mod 64) in
  msg ++ [128] ++ repeat 0 zeros ++ be_bytes 8 (8 * len).

Fixpoint be_words (bs : list Z) : list Z :=
  match bs with
  | a :: b :: c :: d :: r =>
      (((a * 256 + b) * 256 + c) * 256 + d) :: be_words r
  | _ => []
  end.

(** Message schedule, most recent word first. *)
Fixpoint schedule (n : nat) (rw : list Z) : list Z :=
  match n with
  | O => rw
  | S n' =>
      let w := add32 (add32 (ssig1 (nth 1 rw 0)) (nth 6 rw 0))
                     (add32 (ssig0 (nth 14 rw 0)) (nth 15 rw 0)) in
      schedule n' (w :: rw)
  end.

Definition round (st : list Z) (kw : Z * Z) : list Z :=
  match st with
  | [a; b; c; d; e; f; g; h] =>
      let t1 := add32 (add32 (add32 h (bsig1 e)) (add32 (Ch e f g) (fst kw))) (snd kw) in
      let t2 := add32 (bsig0 a) (Maj a b c) in
      [add32 t1 t2; a; b; c; add32 d t1; e; f; g]
  | _ => st
  end.

Definition compress (h : list Z) (block : list Z) : list Z :=
  let w := rev (schedule 48 (rev block)) in
  let st := fold_left round (combine K w) h in
  List.map (fun p => add32 (fst p) (snd p)) (combine h st).

Fixpoint blocks (fuel : nat) (h : list Z) (ws : list Z) : list Z :=
  match fuel, ws with
  | S fuel', _ :: _ => blocks fuel' (compress h (firstn 16 ws)) (skipn 16 ws)
  | _, _ => h
  end.

Definition digest (msg : list Z) : list Z :=
  let ws := be_words (pad msg) in
  blocks (List.length ws) H0 ws.

Definition hex_digit (d : Z) : ascii :=
  ascii_of_N (Z.to_N (if d <? 10 then 48 + d else 87 + d)).

Definition hex_word (w : Z) : list ascii :=
  List.map (fun i => hex_digit ((Z.shiftr w (4 * Z.of_nat i)) mod 16)) (rev (seq 0 8)).

(** [hashlib.sha256(msg).hexdigest()]. *)
Definition hexdigest (msg : list Z) : list ascii :=
  List.concat (List.map hex_word (digest msg)).

End SHA256.

(** ** Text helpers of the pipeline *)

Import Text.

(** [s.encode("utf-8")] for code points below 256. *)
Definition utf8_encode (s : pystr) : list Z :=
  List.concat
    (List.map
       (fun c =>
          let n := Z.of_N (code c) in
          if n <? 128 then [n]
          else [Z.lor 192 (Z.shiftr n 6); Z.lor 128 (Z.land n 63)])
       s).

(** [text_hash]: the first 16 hex digits of the SHA-256 of the normalized
    text. *)
Definition text_hash (s : pystr) : pystr :=
  let s' := norm_text s in
  firstn 16 (SHA256.hexdigest (utf8_encode s')).

Definition LINK_MARKERS : list pystr :=
  [lit "http://"; lit "https://"; lit "t.me/"; lit "www."].

(** The pattern [(https?://|t\.me/|www\.)\S+]. *)
Definition link_re : Regex.re :=
  Regex.Seq
    (Regex.Alt
       (Regex.Seq (Regex.Lit (lit "http"))
          (Regex.Seq (Regex.Opt (Regex.Chr "s")) (Regex.Lit (lit "://"))))
       (Regex.Alt (Regex.Lit (lit "t.me/")) (Regex.Lit (lit "www."))))
    (Regex.Plus (Regex.Cls (fun c => negb (isspace c)))).

(** [contains_link]. *)
Definition contains_link (text : pystr) : bool :=
  let t := lower text in
  if existsb (fun m => contains m t) LINK_MARKERS then true
  else if Regex.search link_re t then true
  else false.


(** ** Python values *)

Module Py.

(** A value read from [data.json] or passed where the code says [Any]. *)
Inductive pyval : Type :=
| PNone
| PBool (b : bool)
| PInt (n : Z)
| PStr (s : string).

(** The exceptions the statements of the program raise on the values they
    compute with. The exceptions of the platform library are not among
    them: the one the program catches is an answer of the platform
    ([Platform] below), and a run in which a call raises another one is not
    a run of the model. *)
Inductive exn : Type := TypeError | ValueError.

Inductive res (A : Type) : Type :=
| Ok (a : A)
| Raise (e : exn).
Arguments Ok {A} a.
Arguments Raise {A} e.

(** Truth value of [v] in a condition. *)
Definition truthy (v : pyval) : bool :=
  match v with
  | PNone => false
  | PBool b => b
  | PInt n => negb (n =? 0)
  | PStr s => negb (String.eqb s "")
  end.

(** [isinstance(v, int)], with the integer; [bool] is a subclass of [int].
    These are also the stored values an [int] or [float] can be ordered
    against: for the others [<], [>], [>=] raise [TypeError]. *)
Definition as_int (v : pyval) : option Z :=
  match v with
  | PInt n => Some n
  | PBool b => Some (if b then 1 else 0)
  | _ => None
  end.

(** [v == s] for a string literal [s]. *)
Definition eq_str (v : pyval) (s : string) : bool :=
  match v with
  | PStr s' => String.eqb s' s
  | _ => false
  end.

(** [str(n)] for an int. *)
Definition str_of_Z (n : Z) : string := NilZero.string_of_int (Z.to_int n).

(** [str(v)]. *)
Definition str (v : pyval) : string :=
  match v with
  | PNone => "None"
  | PBool true => "True"
  | PBool false => "False"
  | PInt n => str_of_Z n
  | PStr s => s
  end.

Definition is_digit (c : ascii) : bool := Text.in_range 48 57 c.

(** The digits of a decimal literal, single underscores allowed between
    digits. *)
Fixpoint digits (acc : Z) (after_digit : bool) (s : list ascii) : option Z :=
  match s with
  | [] => if after_digit then Some acc else None
  | c :: r =>
      if is_digit c then digits (10 * acc + (Z.of_N (Text.code c) - 48)) true r
      else if Ascii.eqb c "_" && after_digit then digits acc false r
      else None
  end.

(** The whitespace [int] accepts around a literal: that of [str.isspace]
    without the separators FS..US. *)
Definition int_space (c : ascii) : bool :=
  Text.in_range 9 13 c || (Text.code c =? 32)%N || (Text.code c =? 133)%N
  || (Text.code c =? 160)%N.

Fixpoint skip_int_space (s : list ascii) : list ascii :=
  match s with
  | c :: r => if int_space c then skip_int_space r else s
  | [] => []
  end.

(** [int(s)] for a string: surrounding whitespace, an optional sign, a
    decimal literal. *)
Definition int_of_str (s : string) : option Z :=
  match rev (skip_int_space (rev (skip_int_space (Text.lit s)))) with
  | c :: r =>
      if Ascii.eqb c "-" then Z.opp <$> digits 0 false r
      else if Ascii.eqb c "+" then digits 0 false r
      else digits 0 false (c :: r)
  | [] => None
  end.

(** [int(v)]. *)
Definition int (v : pyval) : res Z :=
  match v with
  | PNone => Raise TypeError
  | PBool b => Ok (if b then 1 else 0)
  | PInt n => Ok n
  | PStr s => match int_of_str s with Some n => Ok n | None => Raise ValueError end
  end.

(** [int(x)] for a float: truncation toward zero. *)
Definition int_of_float (x : Q) : Z := Z.quot (Qnum x) (Z.pos (Qden x)).

(** [a > b] on clock readings. *)
Definition Qgtb (a b : Q) : bool := negb (Qle_bool a b).

(** [list.sort], which is stable: [before y x] says that [y] sorts strictly
    before [x]; elements that compare equal keep their order. *)
Fixpoint insert_stable {A : Type} (before : A -> A -> bool) (x : A) (l : list A) : list A :=
  match l with
  | [] => [x]
  | y :: r => if before y x then y :: insert_stable before x r else x :: l
  end.

Definition stable_sort {A : Type} (before : A -> A -> bool) (l : list A) : list A :=
  fold_right (insert_stable before) [] l.

(** A [dict] whose order matters: an association list in insertion order,
    each key once. *)
Definition odict (K V : Type) : Type := list (K * V).

Definition od_get {K V : Type} `{EqDecision K} (k : K) (d : odict K V) : option V :=
  snd <$> List.find (fun kv => bool_decide (fst kv = k)) d.

Definition od_mem {K V : Type} `{EqDecision K} (k : K) (d : odict K V) : bool :=
  existsb (fun kv => bool_decide (fst kv = k)) d.

(** [d[k] = v]: an existing key keeps its place, a new one goes last. *)
Fixpoint od_set {K V : Type} `{EqDecision K} (k : K) (v : V) (d : odict K V) : odict K V :=
  match d with
  | [] => [(k, v)]
  | (k', v') :: r => if bool_decide (k' = k) then (k, v) :: r else (k', v') :: od_set k v r
  end.

(** [d.pop(k, None)]. *)
Definition od_pop {K V : Type} `{EqDecision K} (k : K) (d : odict K V) : odict K V :=
  List.filter (fun kv => negb (bool_decide (fst kv = k))) d.

End Py.
Import Py.

(** ** Roles *)

Inductive Role : Type := ROLE_SEEKER | ROLE_MOD | ROLE_ADMIN | ROLE_HEAD | ROLE_CREATOR.

(** The string each role constant stands for. *)
Definition role_name (r : Role) : string :=
  match r with
  | ROLE_SEEKER => "seeker"
  | ROLE_MOD => "moderator"
  | ROLE_ADMIN => "admin"
  | ROLE_HEAD => "head_admin"
  | ROLE_CREATOR => "creator"
  end.

Definition ROLE_ORDER : list Role :=
  [ROLE_SEEKER; ROLE_MOD; ROLE_ADMIN; ROLE_HEAD; ROLE_CREATOR].

(** [ROLE_RANK = {r: i for i, r in enumerate(ROLE_ORDER)}]. *)
Definition ROLE_RANK : list (string * Z) :=
  List.map (fun ir => (role_name (snd ir), Z.of_nat (fst ir)))
    (combine (seq 0 (List.length ROLE_ORDER)) ROLE_ORDER).

(** [ROLE_RANK.get(role, -1)]. *)
Definition rank_get (role : string) : Z :=
  match List.find (fun kv => String.eqb (fst kv) role) ROLE_RANK with
  | Some kv => snd kv
  | None => -1
  end.

(** [role_at_least]; [required] is always one of the role constants. *)
Definition role_at_least (role : option string) (required : Role) : bool :=
  match role with
  | None => false
  | Some r => rank_get r >=? rank_get (role_name required)
  end.

(** [can_use]. *)
Definition can_use (role : option string) (cmd : string) : bool :=
  if String.eqb cmd "invite" then role_at_least role ROLE_SEEKER
  else if existsb (String.eqb cmd) ["warn"; "mute"; "unmute"] then role_at_least role ROLE_MOD
  else if existsb (String.eqb cmd) ["ban"; "unban"] then role_at_least role ROLE_ADMIN
  else if existsb (String.eqb cmd)
            ["kick"; "setrole"; "delrole"; "automute"; "setrules"; "setforum";
             "settings"; "inactive"]
       then role_at_least role ROLE_HEAD
  else if String.eqb cmd "to_main" then role_at_least role ROLE_MOD
  else false.

(** ** Settings model *)

Record ChatSettings : Type := mkChatSettings {
  enabled : pyval;
  flood_limit : pyval;
  flood_window_sec : pyval;
  repeat_limit : pyval;
  block_links : pyval;
  sticker_mode : pyval;
  gif_mode : pyval;
  sticker_limit : pyval;
  gif_limit : pyval;
  media_window_sec : pyval;
  action : pyval;
  mute_seconds : pyval;
  cleanup_enabled : pyval;
  cleanup_days : pyval;
  cleanup_mode : pyval
}.

Definition DEFAULT : ChatSettings := {|
  enabled := PBool true;
  flood_limit := PInt 6;
  flood_window_sec := PInt 10;
  repeat_limit := PInt 3;
  block_links := PBool true;
  sticker_mode := PStr "limit";
  gif_mode := PStr "limit";
  sticker_limit := PInt 4;
  gif_limit := PInt 3;
  media_window_sec := PInt 12;
  action := PStr "mute";
  mute_seconds := PInt 14400;
  cleanup_enabled := PBool false;
  cleanup_days := PInt 14;
  cleanup_mode := PStr "kick"
|}.

(** [dataclasses.asdict], fields in declaration order. *)
Definition asdict_items (s : ChatSettings) : list (string * pyval) :=
  [("enabled", enabled s); ("flood_limit", flood_limit s);
   ("flood_window_sec", flood_window_sec s); ("repeat_limit", repeat_limit s);
   ("block_links", block_links s); ("sticker_mode", sticker_mode s);
   ("gif_mode", gif_mode s); ("sticker_limit", sticker_limit s);
   ("gif_limit", gif_limit s); ("media_window_sec", media_window_sec s);
   ("action", action s); ("mute_seconds", mute_seconds s);
   ("cleanup_enabled", cleanup_enabled s); ("cleanup_days", cleanup_days s);
   ("cleanup_mode", cleanup_mode s)].

Definition asdict (s : ChatSettings) : gmap string pyval :=
  list_to_map (asdict_items s).

(** The dataclass built from the keyword dictionary [d], which has every
    field. *)
Definition ChatSettings_of (d : gmap string pyval) : ChatSettings :=
  let f k := default PNone (d !! k) in
  {| enabled := f "enabled"; flood_limit := f "flood_limit";
     flood_window_sec := f "flood_window_sec"; repeat_limit := f "repeat_limit";
     block_links := f "block_links"; sticker_mode := f "sticker_mode";
     gif_mode := f "gif_mode"; sticker_limit := f "sticker_limit";
     gif_limit := f "gif_limit"; media_window_sec := f "media_window_sec";
     action := f "action"; mute_seconds := f "mute_seconds";
     cleanup_enabled := f "cleanup_enabled"; cleanup_days := f "cleanup_days";
     cleanup_mode := f "cleanup_mode" |}.

(** ** File storage ([data.json]) *)

(** A value of [DATA["settings"]]: a dictionary, or anything else. *)
Inductive settings_entry : Type :=
| SDict (d : gmap string pyval)
| SOther.

(** A warning record as [add_warn_local] writes it. *)
Record WarnRecord : Type := mkWarn {
  w_count : Z;
  w_last_ts : Z;
  w_last_reason : string;
  w_last_by : Z
}.

(** A value of [DATA["activity"][ck]]: the dictionary [upsert_activity_local]
    writes, with whatever is stored under ["last_ts"], or anything else. *)
Inductive activity_entry : Type :=
| AInfo (last_ts : pyval) (username : option pystr)
| AOther.

Record Data : Type := mkData {
  d_settings : gmap Z settings_entry;
  d_roles : gmap (Z * Z) string;
  d_warns : gmap (Z * Z) WarnRecord;
  d_activity : gmap Z (odict Z activity_entry);
  d_whitelist : gmap Z (list pyval)
}.

Definition EMPTY_DATA : Data :=
  {| d_settings := ∅; d_roles := ∅; d_warns := ∅; d_activity := ∅; d_whitelist := ∅ |}.

(** The process state: [DATA], the contents of [data.json] (absent before
    the first write), the debounced save task, and the in-memory spam
    state. The two-level dictionaries [x[cid][uid]] are keyed by the pair. *)
Record State : Type := mkState {
  DATA : Data;
  disk : option Data;
  activity_save_pending : bool;
  msg_times : gmap (Z * Z) (list Q);
  last_hash : gmap (Z * Z) (pystr * Z);
  sticker_times : gmap (Z * Z) (list Q);
  gif_times : gmap (Z * Z) (list Q);
  album_seen : gmap (Z * Z) (odict string Q)
}.

Definition INIT : State :=
  {| DATA := EMPTY_DATA; disk := None; activity_save_pending := false;
     msg_times := ∅; last_hash := ∅; sticker_times := ∅; gif_times := ∅;
     album_seen := ∅ |}.

Definition with_DATA (d : Data) (st : State) : State :=
  {| DATA := d; disk := disk st; activity_save_pending := activity_save_pending st;
     msg_times := msg_times st; last_hash := last_hash st;
     sticker_times := sticker_times st; gif_times := gif_times st;
     album_seen := album_seen st |}.

(** [save_data]: the snapshot replaces the file when the write succeeds
    ([fs_ok]); a failed write is swallowed and leaves the file as it was. *)
Definition save_data (fs_ok : bool) (st : State) : State :=
  if fs_ok then
    {| DATA := DATA st; disk := Some (DATA st);
       activity_save_pending := activity_save_pending st;
       msg_times := msg_times st; last_hash := last_hash st;
       sticker_times := sticker_times st; gif_times := gif_times st;
       album_seen := album_seen st |}
  else st.

(** [get_settings_local]. The loop [for k, v in raw.items(): if k in d:
    d[k] = v] leaves the stored value under every field name [raw] has and
    the default under the others. *)
Definition get_settings_local (D : Data) (chat_id : Z) : ChatSettings :=
  match d_settings D !! chat_id with
  | Some (SDict raw) =>
      let d := asdict DEFAULT in
      ChatSettings_of (filter (fun kv => fst kv ∈ dom d) raw ∪ d)
  | _ => DEFAULT
  end.

(** [set_setting_local]: the new state, and the exception if one is
    raised. *)
Definition set_setting_local (fs_ok : bool) (chat_id : Z) (field : string) (value : pyval)
    (st : State) : State * option exn :=
  let allowed : gset string := dom (asdict DEFAULT) in
  if negb (bool_decide (field ∈ allowed)) then (st, Some ValueError)
  else
    let D := DATA st in
    let cur :=
      match d_settings D !! chat_id with
      | Some (SDict d) => d
      | _ => asdict DEFAULT
      end in
    let D' :=
      {| d_settings := <[chat_id := SDict (<[field := value]> cur)]> (d_settings D);
         d_roles := d_roles D; d_warns := d_warns D; d_activity := d_activity D;
         d_whitelist := d_whitelist D |} in
    (save_data fs_ok (with_DATA D' st), None).

(** [get_role_local]. *)
Definition get_role_local (D : Data) (chat_id user_id : Z) : option string :=
  d_roles D !! (chat_id, user_id).

(** [is_whitelisted]. *)
Definition is_whitelisted (D : Data) (chat_id user_id : Z) : bool :=
  match d_whitelist D !! chat_id with
  | None => false
  | Some wl => existsb (String.eqb (str_of_Z user_id)) (List.map str wl)
  end.

(** The name kept for a sender: stripped, without a leading [@], lowercased;
    [None] when nothing is left. *)
Definition norm_username (username : option pystr) : option pystr :=
  let uname := strip (default [] username) in
  let uname := if startswith (lit "@") uname then skipn 1 uname else uname in
  match uname with
  | [] => None
  | _ => Some (lower uname)
  end.

Definition with_activity (a : gmap Z (odict Z activity_entry)) (D : Data) : Data :=
  {| d_settings := d_settings D; d_roles := d_roles D; d_warns := d_warns D;
     d_activity := a; d_whitelist := d_whitelist D |}.

(** [schedule_activity_save]: one delayed [save_data] is pending. *)
Definition schedule_activity_save (st : State) : State :=
  {| DATA := DATA st; disk := disk st; activity_save_pending := true;
     msg_times := msg_times st; last_hash := last_hash st;
     sticker_times := sticker_times st; gif_times := gif_times st;
     album_seen := album_seen st |}.

(** [upsert_activity_local]. *)
Definition upsert_activity_local (chat_id user_id ts : Z) (username : option pystr)
    (st : State) : State :=
  let D := DATA st in
  let users := default [] (d_activity D !! chat_id) in
  let users' := od_set user_id (AInfo (PInt ts) (norm_username username)) users in
  schedule_activity_save (with_DATA (with_activity (<[chat_id := users']> (d_activity D)) D) st).


(** ** Periodic activity cleanup *)

Definition ACTIVITY_KEEP_DAYS : Z := 180.
Definition ACTIVITY_MAX_PER_CHAT : Z := 20000.

(** The [(uid, ts)] pairs of the entries whose [last_ts] is an int. *)
Definition activity_items (users : odict Z activity_entry) : list (Z * Z) :=
  omap (fun kv =>
          match snd kv with
          | AInfo ts _ => (fun t => (fst kv, t)) <$> as_int ts
          | AOther => None
          end) users.

(** [items.sort(key=lambda x: x[1], reverse=True)]. *)
Definition sort_recent_first (items : list (Z * Z)) : list (Z * Z) :=
  stable_sort (fun y x => snd y >? snd x) items.

Definition keep_keys (cutoff : Z) (users : odict Z activity_entry) : gset Z :=
  let items := sort_recent_first (activity_items users) in
  list_to_set (List.map fst (List.filter (fun it => snd it >=? cutoff) items))
  ∪ list_to_set (List.map fst (firstn (Z.to_nat ACTIVITY_MAX_PER_CHAT) items)).

(** The body of the loop of [prune_activity_once] for one chat. *)
Definition prune_users (cutoff : Z) (users : odict Z activity_entry) : odict Z activity_entry :=
  let keep := keep_keys cutoff users in
  if bool_decide (size keep ≠ List.length users)
  then List.filter (fun kv => bool_decide (fst kv ∈ keep)) users
  else users.

(** [prune_activity_once]. *)
Definition prune_activity_once (fs_ok : bool) (now : Q) (st : State) : State :=
  let cutoff := int_of_float now - ACTIVITY_KEEP_DAYS * 86400 in
  let D := DATA st in
  let a' := prune_users cutoff <$> d_activity D in
  let changed :=
    bool_decide (map_Exists (fun _ users => List.length (prune_users cutoff users) ≠ List.length users)
                   (d_activity D)) in
  let st' := with_DATA (with_activity a' D) st in
  if changed then save_data fs_ok st' else st'.

(** ** The platform and the effects on it *)

(** [bot.get_chat_member(chat, user).status]; [None] when the call raises
    [TelegramBadRequest], the one exception of the platform that the program
    catches. A call that raises anything else ends the handler that made
    it; such runs are outside the model. *)
Definition Platform : Type := Z -> Z -> option string.

(** Calls made to the transport, in order. A call the platform refuses is
    still made: its failure is swallowed by the caller. *)
Inductive effect : Type :=
| DeleteMessage (chat message_id : Z)
| RestrictMember (chat user until : Z)
| AutomodLog (chat user : Z) (reason : string) (action : string)
| Answer (chat : Z) (what : string)
| WarnLog (chat actor target count : Z) (reason : string)
| AutoMuteLog (chat actor target count : Z).

(** [get_effective_role]. *)
Definition get_effective_role (tg : Platform) (D : Data) (chat_id user_id : Z) : option string :=
  match tg chat_id user_id with
  | Some status =>
      if String.eqb status "creator" then Some (role_name ROLE_CREATOR)
      else get_role_local D chat_id user_id
  | None => get_role_local D chat_id user_id
  end.

(** Truth value of an optional string. *)
Definition truthy_str (s : option string) : bool :=
  match s with
  | Some s => negb (String.eqb s "")
  | None => false
  end.

(** [ensure_can_moderate_target]. *)
Definition ensure_can_moderate_target (tg : Platform) (D : Data)
    (chat_id actor_id target_id : Z) : bool :=
  let barred :=
    match tg chat_id target_id with
    | Some status => String.eqb status "creator" || String.eqb status "administrator"
    | None => false
    end in
  if barred then false
  else
    let actor_role := get_effective_role tg D chat_id actor_id in
    let target_role := get_effective_role tg D chat_id target_id in
    match actor_role, target_role with
    | Some a, Some t =>
        if truthy_str actor_role && truthy_str target_role
        then if rank_get t >=? rank_get a then false else true
        else true
    | _, _ => true
    end.

(** ** Messages *)

Inductive ChatType : Type := PRIVATE | GROUP | SUPERGROUP | CHANNEL.

Record User : Type := mkUser {
  user_id : Z;
  is_bot : bool;
  user_username : option pystr
}.

Record Message : Type := mkMessage {
  chat_id : Z;
  chat_type : ChatType;
  message_id : Z;
  from_user : option User;
  text : option pystr;
  caption : option pystr;
  media_group_id : option string;
  sticker : bool;
  animation : bool
}.

(** [a or b] on optional strings. *)
Definition or_str (a : option pystr) (b : pystr) : pystr :=
  match a with
  | Some (c :: r) => c :: r
  | _ => b
  end.

Definition is_group (t : ChatType) : bool :=
  match t with
  | GROUP | SUPERGROUP => true
  | _ => false
  end.

(** ** Actions of the automoderation *)

(** [apply_action]: the calls made and the exception that escapes, if any.
    The audit entry is built inside [try ... except Exception], so a
    [mute_seconds] that [int] rejects drops the entry; the same conversion
    in the mute step is not guarded. *)
Definition apply_action (now : Q) (chat user msg_id : Z) (settings : ChatSettings)
    (reason : string) : list effect * option exn :=
  let del := [DeleteMessage chat msg_id] in
  let is_mute := eq_str (action settings) "mute" in
  let log :=
    match is_mute, int (mute_seconds settings) with
    | true, Raise _ => []
    | _, _ => [AutomodLog chat user reason (str (action settings))]
    end in
  if is_mute then
    match int (mute_seconds settings) with
    | Ok secs => (del ++ log ++ [RestrictMember chat user (int_of_float now + secs)], None)
    | Raise e => (del ++ log, Some e)
    end
  else (del ++ log, None).

(** ** Sliding windows *)

(** [while dq and (now - dq[0]) > window: dq.popleft()]. *)
Fixpoint popleft_old (now : Q) (window : Z) (dq : list Q) : list Q :=
  match dq with
  | [] => []
  | t :: r => if Qgtb (now - t) (inject_Z window) then popleft_old now window r else dq
  end.

(** The three lines shared by the message, sticker and animation windows:
    append, trim, compare. The result is the deque as it is left and whether
    the limit is exceeded; an ordering against a stored value that is not a
    number raises [TypeError] where it is evaluated. *)
Definition rate_check (now : Q) (window limit : pyval) (dq : list Q) : list Q * res bool :=
  let dq1 := dq ++ [now] in
  match as_int window with
  | None => (dq1, Raise TypeError)
  | Some w =>
      let dq2 := popleft_old now w dq1 in
      match as_int limit with
      | None => (dq2, Raise TypeError)
      | Some l => (dq2, Ok (Z.of_nat (List.length dq2) >? l))
      end
  end.

(** ** Album bookkeeping *)

(** [seen[key] = now], then the eviction of the 100 oldest entries once more
    than 300 are kept. *)
Definition album_note (key : string) (now : Q) (seen : odict string Q) : odict string Q :=
  let seen1 := od_set key now seen in
  if (300 <? List.length seen1)%nat
  then
    let oldest := firstn 100 (stable_sort (fun y x => Qgtb (snd x) (snd y)) seen1) in
    fold_left (fun d kv => od_pop (fst kv) d) oldest seen1
  else seen1.

(** ** The moderation pipeline *)

(** The statement of [moderate_all] at which the handler returns, or at
    which an exception leaves it. *)
Inductive stage : Type :=
| AtChatType | AtSender | AtEnabled | AtWhitelist | AtRole | AtPlatform
| AtAlbumSeen | AtAlbumFirst | AtSticker | AtAnimation
| AtFlood | AtLink | AtRepeat | AtEnd.

(** What one run of the handler did: the state it leaves, the calls it made,
    the exception that left it (if any), where it stopped, and the reason
    tag it passed to [apply_action] (if it called it). *)
Record Outcome : Type := mkOutcome {
  o_state : State;
  o_effects : list effect;
  o_exn : option exn;
  o_stage : stage;
  o_verdict : option string
}.

Definition returns (st : State) (s : stage) : Outcome :=
  {| o_state := st; o_effects := []; o_exn := None; o_stage := s; o_verdict := None |}.

Definition raises (st : State) (e : exn) (s : stage) : Outcome :=
  {| o_state := st; o_effects := []; o_exn := Some e; o_stage := s; o_verdict := None |}.

(** [await apply_action(...); return]. *)
Definition acts (st : State) (now : Q) (chat user msg_id : Z) (settings : ChatSettings)
    (reason : string) (s : stage) : Outcome :=
  let r := apply_action now chat user msg_id settings reason in
  {| o_state := st; o_effects := fst r; o_exn := snd r; o_stage := s;
     o_verdict := Some reason |}.

Definition with_msg_times (m : gmap (Z * Z) (list Q)) (st : State) : State :=
  {| DATA := DATA st; disk := disk st; activity_save_pending := activity_save_pending st;
     msg_times := m; last_hash := last_hash st;
     sticker_times := sticker_times st; gif_times := gif_times st;
     album_seen := album_seen st |}.

Definition with_last_hash (m : gmap (Z * Z) (pystr * Z)) (st : State) : State :=
  {| DATA := DATA st; disk := disk st; activity_save_pending := activity_save_pending st;
     msg_times := msg_times st; last_hash := m;
     sticker_times := sticker_times st; gif_times := gif_times st;
     album_seen := album_seen st |}.

Definition with_sticker_times (m : gmap (Z * Z) (list Q)) (st : State) : State :=
  {| DATA := DATA st; disk := disk st; activity_save_pending := activity_save_pending st;
     msg_times := msg_times st; last_hash := last_hash st;
     sticker_times := m; gif_times := gif_times st;
     album_seen := album_seen st |}.

Definition with_gif_times (m : gmap (Z * Z) (list Q)) (st : State) : State :=
  {| DATA := DATA st; disk := disk st; activity_save_pending := activity_save_pending st;
     msg_times := msg_times st; last_hash := last_hash st;
     sticker_times := sticker_times st; gif_times := m;
     album_seen := album_seen st |}.

Definition with_album_seen (m : gmap (Z * Z) (odict string Q)) (st : State) : State :=
  {| DATA := DATA st; disk := disk st; activity_save_pending := activity_save_pending st;
     msg_times := msg_times st; last_hash := last_hash st;
     sticker_times := sticker_times st; gif_times := gif_times st;
     album_seen := m |}.

(** The album branch: every item but the first seen is ignored; the first is
    noted and its caption checked for a link. *)
Definition album_check (now : Q) (chat user msg_id : Z) (s : ChatSettings)
    (message : Message) (st : State) : Outcome :=
  let seen := default [] (album_seen st !! (chat, user)) in
  let key := default "" (media_group_id message) in
  if od_mem key seen then returns st AtAlbumSeen
  else
    let st' := with_album_seen (<[(chat, user) := album_note key now seen]> (album_seen st)) st in
    let cap := norm_text (or_str (caption message) []) in
    if negb (bool_decide (cap = [])) && truthy (block_links s) && contains_link cap
    then acts st' now chat user msg_id s "album_link" AtAlbumFirst
    else returns st' AtAlbumFirst.

(** The mode policy shared by stickers and animations: [ban], [limit]
    against the window [times], anything else lets the message through. *)
Definition media_check (now : Q) (chat user msg_id : Z) (s : ChatSettings)
    (mode limit : pyval) (ban_reason limit_reason : string)
    (times : gmap (Z * Z) (list Q)) (store : gmap (Z * Z) (list Q) -> State -> State)
    (at_ : stage) (st : State) : Outcome :=
  if eq_str mode "ban" then acts st now chat user msg_id s ban_reason at_
  else if eq_str mode "limit" then
    let r := rate_check now (media_window_sec s) limit (default [] (times !! (chat, user))) in
    let st' := store (<[(chat, user) := fst r]> times) st in
    match snd r with
    | Raise e => raises st' e at_
    | Ok true => acts st' now chat user msg_id s limit_reason at_
    | Ok false => returns st' at_
    end
  else returns st at_.

(** The last step of the text branch: the duplicate detector. *)
Definition repeat_check (now : Q) (chat user msg_id : Z) (s : ChatSettings)
    (tnorm : pystr) (st : State) : Outcome :=
  match tnorm with
  | [] => returns st AtEnd
  | _ :: _ =>
      let hsh_ := text_hash tnorm in
      let '(last_h, count) := default ([], 0) (last_hash st !! (chat, user)) in
      let count := if bool_decide (hsh_ = last_h) then count + 1 else 1 in
      let st' := with_last_hash (<[(chat, user) := (hsh_, count)]> (last_hash st)) st in
      match as_int (repeat_limit s) with
      | None => raises st' TypeError AtRepeat
      | Some l =>
          if count >=? l then acts st' now chat user msg_id s "repeat" AtRepeat
          else returns st' AtEnd
      end
  end.

(** [message.text or message.caption or ""]. *)
Definition message_text (message : Message) : pystr :=
  or_str (text message) (or_str (caption message) []).

(** The text branch: flood, links, repeats, in this order. *)
Definition text_check (now : Q) (chat user msg_id : Z) (s : ChatSettings)
    (message : Message) (st : State) : Outcome :=
  let text := message_text message in
  let tnorm := norm_text text in
  let r := rate_check now (flood_window_sec s) (flood_limit s)
             (default [] (msg_times st !! (chat, user))) in
  let st' := with_msg_times (<[(chat, user) := fst r]> (msg_times st)) st in
  match snd r with
  | Raise e => raises st' e AtFlood
  | Ok true => acts st' now chat user msg_id s "flood" AtFlood
  | Ok false =>
      if truthy (block_links s) && negb (bool_decide (tnorm = [])) && contains_link tnorm
      then acts st' now chat user msg_id s "link" AtLink
      else repeat_check now chat user msg_id s tnorm st'
  end.

(** The part of [moderate_all] below the bypass tests. *)
Definition moderate_checks (now : Q) (chat user : Z) (s : ChatSettings)
    (message : Message) (st : State) : Outcome :=
  let mid := message_id message in
  if truthy_str (media_group_id message) then album_check now chat user mid s message st
  else if sticker message then
    media_check now chat user mid s (sticker_mode s) (sticker_limit s)
      "sticker_ban" "sticker_limit" (sticker_times st) with_sticker_times AtSticker st
  else if animation message then
    media_check now chat user mid s (gif_mode s) (gif_limit s)
      "gif_ban" "gif_limit" (gif_times st) with_gif_times AtAnimation st
  else text_check now chat user mid s message st.

(** [moderate_all], for the platform [tg] and the clock reading [now]. *)
Definition moderate_all (tg : Platform) (now : Q) (message : Message) (st : State) : Outcome :=
  if negb (is_group (chat_type message)) then returns st AtChatType
  else
    match from_user message with
    | None => returns st AtSender
    | Some u =>
        if is_bot u then returns st AtSender
        else
          let cid := chat_id message in
          let uid := user_id u in
          let st := upsert_activity_local cid uid (int_of_float now) (user_username u) st in
          let s := get_settings_local (DATA st) cid in
          if negb (truthy (enabled s)) then returns st AtEnabled
          else if is_whitelisted (DATA st) cid uid then returns st AtWhitelist
          else
            let role := get_effective_role tg (DATA st) cid uid in
            if truthy_str role && role_at_least role ROLE_MOD then returns st AtRole
            else if match tg cid uid with
                    | Some status =>
                        String.eqb status "administrator" || String.eqb status "creator"
                    | None => false
                    end
            then returns st AtPlatform
            else moderate_checks now cid uid s message st
    end.

(** The dispatcher that lets every handler end before the next one starts:
    the handler run on each update in turn. An update is listed with the
    clock reading its handler took, in the order in which the handlers run;
    the readings need not ascend (the clock may be set back, and with the
    handlers as tasks, below, a task that read the clock earlier may run
    its checks later). *)
Fixpoint run (tg : Platform) (updates : list (Q * Message)) (st : State) : list Outcome :=
  match updates with
  | [] => []
  | (now, message) :: rest =>
      let o := moderate_all tg now message st in
      o :: run tg rest (o_state o)
  end.

(** ** Handlers as concurrent tasks *)

(** The dispatcher starts a task for every update, and a task gives up
    control only where it awaits the platform. What a task of
    [moderate_all] holds while it waits: the clock reading [now] and the
    settings [s] it read before, the sender and the message. *)
Record Task : Type := mkTask {
  t_now : Q;
  t_settings : ChatSettings;
  t_user : User;
  t_message : Message
}.

(** [moderate_all] from its first line to its first await of the platform:
    the activity of the sender is noted, the settings and the clock are
    read, and the whitelist is tested. The task either returns here or goes
    on to wait. *)
Definition moderate_start (now : Q) (message : Message) (st : State)
    : State * (stage + Task) :=
  if negb (is_group (chat_type message)) then (st, inl AtChatType)
  else
    match from_user message with
    | None => (st, inl AtSender)
    | Some u =>
        if is_bot u then (st, inl AtSender)
        else
          let cid := chat_id message in
          let uid := user_id u in
          let st := upsert_activity_local cid uid (int_of_float now) (user_username u) st in
          let s := get_settings_local (DATA st) cid in
          if negb (truthy (enabled s)) then (st, inl AtEnabled)
          else if is_whitelisted (DATA st) cid uid then (st, inl AtWhitelist)
          else (st, inr {| t_now := now; t_settings := s; t_user := u;
                           t_message := message |})
    end.

(** [moderate_all] from the answer of the platform on: the role and status
    tests, then the checks, with the settings and the clock reading the
    task took at its start and with the windows as they are by now. Between
    the two calls of [get_chat_member] only the stored role is read, which
    no task of [moderate_all] changes, so the two waits are taken as one;
    the checks run up to [apply_action] without another await. *)
Definition moderate_resume (tg : Platform) (t : Task) (st : State) : Outcome :=
  let cid := chat_id (t_message t) in
  let uid := user_id (t_user t) in
  let role := get_effective_role tg (DATA st) cid uid in
  if truthy_str role && role_at_least role ROLE_MOD then returns st AtRole
  else if match tg cid uid with
          | Some status =>
              String.eqb status "administrator" || String.eqb status "creator"
          | None => false
          end
  then returns st AtPlatform
  else moderate_checks (t_now t) cid uid (t_settings t) (t_message t) st.

(** What the event loop does next: it starts the task of an update that
    arrives, at the reading [now] of the clock, or it resumes the [i]-th of
    the tasks that wait for the platform. *)
Inductive event : Type :=
| Arrive (now : Q) (message : Message)
| Resume (i : nat).

(** The dispatcher with the handlers as tasks: the outcomes in the order in
    which the tasks end, and the state left. A [Resume] of a task that does
    not wait does nothing. *)
Fixpoint serve (tg : Platform) (events : list event) (waiting : list Task) (st : State)
    : list Outcome * State :=
  match events with
  | [] => ([], st)
  | Arrive now message :: rest =>
      match moderate_start now message st with
      | (st1, inl at_) =>
          let r := serve tg rest waiting st1 in
          (returns st1 at_ :: fst r, snd r)
      | (st1, inr t) => serve tg rest (waiting ++ [t]) st1
      end
  | Resume i :: rest =>
      match nth_error waiting i with
      | None => serve tg rest waiting st
      | Some t =>
          let o := moderate_resume tg t st in
          let r := serve tg rest (firstn i waiting ++ skipn (S i) waiting) (o_state o) in
          (o :: fst r, snd r)
      end
  end.

(** ** The warn command *)


(** ** Role storage *)

(** [role in ROLE_RANK]. *)
Definition in_ROLE_RANK (role : string) : bool :=
  existsb (fun kv => String.eqb (fst kv) role) ROLE_RANK.

Definition with_roles (r : gmap (Z * Z) string) (D : Data) : Data :=
  {| d_settings := d_settings D; d_roles := r; d_warns := d_warns D;
     d_activity := d_activity D; d_whitelist := d_whitelist D |}.

(** [set_role_local]: the new state, and the exception if one is raised. *)
Definition set_role_local (fs_ok : bool) (chat_id user_id : Z) (role : string)
    (st : State) : State * option exn :=
  if negb (in_ROLE_RANK role) then (st, Some ValueError)
  else
    let D := DATA st in
    (save_data fs_ok
       (with_DATA (with_roles (<[(chat_id, user_id) := role]> (d_roles D)) D) st), None).

(** [del_role_local]. *)
Definition del_role_local (fs_ok : bool) (chat_id user_id : Z) (st : State) : State :=
  let D := DATA st in
  save_data fs_ok (with_DATA (with_roles (delete (chat_id, user_id) (d_roles D)) D) st).

(** ** The whitelist *)

Definition with_whitelist (w : gmap Z (list pyval)) (D : Data) : Data :=
  {| d_settings := d_settings D; d_roles := d_roles D; d_warns := d_warns D;
     d_activity := d_activity D; d_whitelist := w |}.

(** [sorted(s)] for a set [s] of strings given by its elements: the distinct
    elements in the order of their code points. *)
Definition sorted_set (elements : list string) : list string :=
  stable_sort String.ltb (remove_dups elements).

(** [whitelist_add]. *)
Definition whitelist_add (fs_ok : bool) (chat_id user_id : Z) (st : State) : State :=
  let D := DATA st in
  let wl := default [] (d_whitelist D !! chat_id) in
  let s := List.map str wl ++ [str_of_Z user_id] in
  save_data fs_ok
    (with_DATA (with_whitelist (<[chat_id := PStr <$> sorted_set s]> (d_whitelist D)) D) st).

(** [whitelist_remove]. *)
Definition whitelist_remove (fs_ok : bool) (chat_id user_id : Z) (st : State) : State :=
  let D := DATA st in
  match d_whitelist D !! chat_id with
  | Some wl =>
      let wl' := List.filter (fun x => negb (String.eqb (str x) (str_of_Z user_id))) wl in
      save_data fs_ok (with_DATA (with_whitelist (<[chat_id := wl']> (d_whitelist D)) D) st)
  | None => save_data fs_ok st
  end.

(** [whitelist_list]: the entries [int] accepts, in stored order. *)
Definition whitelist_list (D : Data) (chat_id : Z) : list Z :=
  match d_whitelist D !! chat_id with
  | Some wl => omap (fun x => match int x with Ok n => Some n | Raise _ => None end) wl
  | None => []
  end.

(** ** Queries on the activity records *)

(** [resolve_username_to_id_local]: the loop keeps the first entry with the
    greatest [last_ts] above [-1] among those stored under the name. *)
Definition resolve_username_to_id_local (D : Data) (chat_id : Z) (username : pystr)
    : option Z :=
  match d_activity D !! chat_id with
  | None => None
  | Some activity =>
      let uname := strip username in
      let uname := if startswith (lit "@") uname then skipn 1 uname else uname in
      let uname := lower uname in
      match uname with
      | [] => None
      | _ :: _ =>
          fst (fold_left
                 (fun (best : option Z * Z) (kv : Z * activity_entry) =>
                    match snd kv with
                    | AInfo ts name =>
                        if negb (bool_decide (default [] name = uname)) then best
                        else match as_int ts with
                             | Some t => if t >? snd best then (Some (fst kv), t) else best
                             | None => best
                             end
                    | AOther => best
                    end)
                 activity (None, -1))
      end
  end.

(** [count_inactive_local]. *)
Definition count_inactive_local (D : Data) (chat_id cutoff_ts : Z) : Z :=
  match d_activity D !! chat_id with
  | None => 0
  | Some activity =>
      fold_left
        (fun (cnt : Z) (kv : Z * activity_entry) =>
           match snd kv with
           | AInfo ts _ =>
               match as_int ts with
               | Some t => if t <? cutoff_ts then cnt + 1 else cnt
               | None => cnt
               end
           | AOther => cnt
           end)
        activity 0
  end.

(** The slice [l[lo:hi]], negative bounds counting from the end. *)
Definition py_slice {A : Type} (l : list A) (lo hi : Z) : list A :=
  let n := Z.of_nat (List.length l) in
  let clip i := if i <? 0 then Z.max 0 (i + n) else Z.min i n in
  firstn (Z.to_nat (clip hi - clip lo)) (skipn (Z.to_nat (clip lo)) l).

(** [fetch_inactive_local]. *)
Definition fetch_inactive_local (D : Data) (chat_id cutoff_ts limit offset : Z)
    : list (Z * Z) :=
  match d_activity D !! chat_id with
  | None => []
  | Some activity =>
      let rows := List.filter (fun it => snd it <? cutoff_ts) (activity_items activity) in
      let rows := stable_sort (fun y x => snd y <? snd x) rows in
      py_slice rows offset (offset + limit)
  end.

(** ** Removal of inactive members *)

(** Calls the commands and the cleanup make to the transport, in order. A
    reply or log entry is named by its kind, not its wording. [Ban] carries
    the [until_date] when one is passed. *)
Inductive call : Type :=
| Reply (chat : Z) (what : string)
| ActionLog (chat : Z) (what : string)
| Restrict (chat user until : Z)
| Unrestrict (chat user : Z)
| Ban (chat user : Z) (until : option Z)
| Unban (chat user : Z).

(** The loop of [run_cleanup_once] over the rows: the calls made and the
    number of members removed. [accepts] tells whether the platform carries
    a call out; when it raises [TelegramBadRequest] the rest of the step is
    skipped, as it is when the member cannot be looked up. *)
Fixpoint cleanup_rows (tg : Platform) (accepts : call -> bool) (mode : pyval)
    (chat_id : Z) (rows : list (Z * Z)) : list call * Z :=
  match rows with
  | [] => ([], 0)
  | (user_id, _) :: rest =>
      let '(calls, removed) := cleanup_rows tg accepts mode chat_id rest in
      match tg chat_id user_id with
      | None => (calls, removed)
      | Some status =>
          if existsb (String.eqb status) ["administrator"; "creator"; "left"; "kicked"]
          then (calls, removed)
          else
            let ban := Ban chat_id user_id None in
            let unban := Unban chat_id user_id in
            if eq_str mode "ban" then
              if accepts ban then (ban :: calls, removed + 1) else (ban :: calls, removed)
            else if negb (accepts ban) then (ban :: calls, removed)
            else if accepts unban then (ban :: unban :: calls, removed + 1)
            else (ban :: unban :: calls, removed)
      end
  end.

(** [run_cleanup_once]: the calls made and the pair [(processed, removed)];
    [int(s.cleanup_days)] raises for a stored value that is no number. *)
Definition run_cleanup_once (tg : Platform) (accepts : call -> bool) (now : Q)
    (D : Data) (chat_id : Z) : res (list call * (Z * Z)) :=
  let s := get_settings_local D chat_id in
  match int (cleanup_days s) with
  | Raise e => Raise e
  | Ok days =>
      let cutoff := int_of_float now - days * 24 * 3600 in
      let rows := fetch_inactive_local D chat_id cutoff 10000 0 in
      let '(calls, removed) := cleanup_rows tg accepts (cleanup_mode s) chat_id rows in
      Ok (calls, (Z.of_nat (List.length rows), removed))
  end.

(** ** Durations *)

(** [str.isdigit] on one character: 0..9 and the superscripts U+00B2,
    U+00B3, U+00B9, which [int] rejects. *)
Definition isdigit_char (c : ascii) : bool :=
  is_digit c || (code c =? 178)%N || (code c =? 179)%N || (code c =? 185)%N.

(** [s.isdigit()]. *)
Definition isdigit (s : pystr) : bool :=
  match s with
  | [] => false
  | _ :: _ => forallb isdigit_char s
  end.

(** [int(s)] for a [pystr]. *)
Definition int_of_pystr (s : pystr) : res Z :=
  match int_of_str (string_of_list_ascii s) with
  | Some n => Ok n
  | None => Raise ValueError
  end.

(** The class [[smhd]]. *)
Definition is_unit (c : ascii) : bool :=
  existsb (Ascii.eqb c) ["s"; "m"; "h"; "d"]%char.

(** The longest run of [\d] at the head of [s], and what follows it. *)
Fixpoint span_digits (s : pystr) : pystr * pystr :=
  match s with
  | c :: r =>
      if is_digit c then let '(num, rest) := span_digits r in (c :: num, rest)
      else ([], s)
  | [] => ([], [])
  end.

(** A match of [(\d+)\s*([smhd])] at the head of [s]: the two groups and
    the text after the match. Both repetitions are greedy, and giving back
    a digit or a blank leaves a digit or a blank where the unit letter is
    expected, so the greedy attempt is the only one that can succeed. *)
Definition match_unit (s : pystr) : option (pystr * ascii * pystr) :=
  let '(num, r1) := span_digits s in
  match num with
  | [] => None
  | _ :: _ =>
      match lstrip r1 with
      | u :: r2 => if is_unit u then Some (num, u, r2) else None
      | [] => None
      end
  end.

(** [re.findall] of that pattern: the matches from left to right, each
    search starting where the last match ended; [skip] characters of [s]
    belong to the last match. *)
Fixpoint findall_units (skip : nat) (s : pystr) : list (pystr * ascii) :=
  match s with
  | [] => []
  | _ :: r =>
      match skip with
      | S k => findall_units k r
      | O =>
          match match_unit s with
          | Some (num, u, rest) =>
              (num, u) :: findall_units (List.length r - List.length rest) r
          | None => findall_units 0 r
          end
      end
  end.

Definition unit_seconds (u : ascii) : Z :=
  if Ascii.eqb u "s" then 1
  else if Ascii.eqb u "m" then 60
  else if Ascii.eqb u "h" then 3600
  else if Ascii.eqb u "d" then 86400
  else 0.

(** The loop that adds the matches up. *)
Fixpoint sum_units (total : Z) (found : list (pystr * ascii)) : res Z :=
  match found with
  | [] => Ok total
  | (num, u) :: rest =>
      match int_of_pystr num with
      | Ok n => sum_units (total + n * unit_seconds u) rest
      | Raise e => Raise e
      end
  end.

(** [parse_duration_to_seconds]. The replacements of the Cyrillic unit
    names leave a string of the code points 0..255 as it is. *)
Definition parse_duration_to_seconds (s : pystr) : res (option Z) :=
  let s := lower (strip s) in
  match s with
  | [] => Ok None
  | _ :: _ =>
      if isdigit s then
        match int_of_pystr s with
        | Ok n => Ok (Some n)
        | Raise e => Raise e
        end
      else
        match findall_units 0 s with
        | [] => Ok None
        | found =>
            match sum_units 0 found with
            | Ok total => Ok (Some total)
            | Raise e => Raise e
            end
        end
  end.

(** ** Command targets *)

(** [resolve_target_user_id]. [reply_to] is [message.reply_to_message] by
    the id of its sender, when it has one; [parts] is what
    [split_command_args] returned for the text of the command. *)
Definition resolve_target_user_id (D : Data) (chat_id : Z) (reply_to : option (option Z))
    (parts : list pystr) : res (option Z) :=
  match reply_to with
  | Some (Some uid) => Ok (Some uid)
  | _ =>
      match nth_error parts 1 with
      | None => Ok None
      | Some p =>
          let target := strip p in
          if isdigit target then
            match int_of_pystr target with
            | Ok n => Ok (Some n)
            | Raise e => Raise e
            end
          else if startswith (lit "@") target
          then Ok (resolve_username_to_id_local D chat_id target)
          else Ok None
      end
  end.

(** [not target_id]. *)
Definition no_target (target_id : option Z) : bool :=
  match target_id with
  | Some t => t =? 0
  | None => true
  end.

(** ** The settings buttons *)

(** [_wl_allowed]. *)
Definition wl_allowed (role : option string) : bool :=
  match role with
  | Some r => String.eqb r (role_name ROLE_CREATOR) || String.eqb r (role_name ROLE_HEAD)
  | None => false
  end.

(** [min(hi, v + k)] and [max(lo, v - k)] for a stored [v]: the sum raises
    [TypeError] unless [v] is a number. *)
Definition min_plus (hi : Z) (v : pyval) (k : Z) : res pyval :=
  match as_int v with
  | Some n => Ok (PInt (Z.min hi (n + k)))
  | None => Raise TypeError
  end.

Definition max_minus (lo : Z) (v : pyval) (k : Z) : res pyval :=
  match as_int v with
  | Some n => Ok (PInt (Z.max lo (n - k)))
  | None => Raise TypeError
  end.

(** [modes.index(v)]; [None] stands for the [ValueError]. *)
Fixpoint index_str (v : pyval) (modes : list string) : option nat :=
  match modes with
  | [] => None
  | m :: rest => if eq_str v m then Some O else S <$> index_str v rest
  end.

(** [modes[(modes.index(v) + 1) % len(modes)]]. *)
Definition next_mode (modes : list string) (v : pyval) : res pyval :=
  match index_str v modes with
  | Some i => Ok (PStr (nth ((i + 1) mod List.length modes) modes ""%string))
  | None => Raise ValueError
  end.

(** [options.index(n)]. *)
Fixpoint index_Z (n : Z) (options : list Z) : option nat :=
  match options with
  | [] => None
  | o :: rest => if n =? o then Some O else S <$> index_Z n rest
  end.

(** The step of the [cleanup_days] button. *)
Definition next_days (v : pyval) : res pyval :=
  let options := [7; 14; 30; 60; 90] in
  let curd :=
    match as_int v with
    | Some n => if existsb (Z.eqb n) options then n else 14
    | None => 14
    end in
  match index_Z curd options with
  | Some i => Ok (PInt (nth ((i + 1) mod List.length options) options 0))
  | None => Raise ValueError
  end.

(** The calls of [set_setting_local] the button [data] makes, with the
    values computed from the settings [s] read at the start; the buttons
    that only show something make none. *)
Definition button_updates (data : string) (s : ChatSettings) : res (list (string * pyval)) :=
  let one (field : string) (v : res pyval) : res (list (string * pyval)) :=
    match v with
    | Ok v => Ok [(field, v)]
    | Raise e => Raise e
    end in
  let on (d : string) := String.eqb data d in
  if String.prefix "tg:inactive_list:" data then Ok []
  else if String.prefix "tg:wl_list:" data then Ok []
  else if on "tg:wl_hint_add" then Ok []
  else if on "tg:wl_hint_del" then Ok []
  else if on "tg:toggle_enabled" then Ok [("enabled", PBool (negb (truthy (enabled s))))]
  else if on "tg:toggle_links" then Ok [("block_links", PBool (negb (truthy (block_links s))))]
  else if on "tg:action_toggle"
       then Ok [("action", PStr (if eq_str (action s) "delete" then "mute" else "delete"))]
  else if on "tg:mute_4h" then Ok [("action", PStr "mute"); ("mute_seconds", PInt 14400)]
  else if on "tg:mute_plus30" then one "mute_seconds" (min_plus 86400 (mute_seconds s) 30)
  else if on "tg:mute_minus30" then one "mute_seconds" (max_minus 30 (mute_seconds s) 30)
  else if on "tg:flood_inc" then one "flood_limit" (min_plus 50 (flood_limit s) 1)
  else if on "tg:flood_dec" then one "flood_limit" (max_minus 2 (flood_limit s) 1)
  else if on "tg:window_inc" then one "flood_window_sec" (min_plus 120 (flood_window_sec s) 1)
  else if on "tg:window_dec" then one "flood_window_sec" (max_minus 3 (flood_window_sec s) 1)
  else if on "tg:repeat_inc" then one "repeat_limit" (min_plus 10 (repeat_limit s) 1)
  else if on "tg:repeat_dec" then one "repeat_limit" (max_minus 2 (repeat_limit s) 1)
  else if on "tg:sticker_mode"
       then one "sticker_mode" (next_mode ["allow"; "limit"; "ban"] (sticker_mode s))
  else if on "tg:gif_mode" then one "gif_mode" (next_mode ["allow"; "limit"; "ban"] (gif_mode s))
  else if on "tg:sticker_lim_inc" then one "sticker_limit" (min_plus 30 (sticker_limit s) 1)
  else if on "tg:sticker_lim_dec" then one "sticker_limit" (max_minus 1 (sticker_limit s) 1)
  else if on "tg:gif_lim_inc" then one "gif_limit" (min_plus 30 (gif_limit s) 1)
  else if on "tg:gif_lim_dec" then one "gif_limit" (max_minus 1 (gif_limit s) 1)
  else if on "tg:media_window_inc"
       then one "media_window_sec" (min_plus 120 (media_window_sec s) 1)
  else if on "tg:media_window_dec"
       then one "media_window_sec" (max_minus 3 (media_window_sec s) 1)
  else if on "tg:cleanup_toggle"
       then Ok [("cleanup_enabled", PBool (negb (truthy (cleanup_enabled s))))]
  else if on "tg:cleanup_days_cycle" then one "cleanup_days" (next_days (cleanup_days s))
  else if on "tg:cleanup_mode" then one "cleanup_mode" (next_mode ["kick"; "ban"] (cleanup_mode s))
  else Ok [].

(** Calls of [set_setting_local] one after the other, up to the first that
    raises. *)
Fixpoint set_settings (fs_ok : bool) (chat_id : Z) (updates : list (string * pyval))
    (st : State) : State * option exn :=
  match updates with
  | [] => (st, None)
  | (field, value) :: rest =>
      match set_setting_local fs_ok chat_id field value st with
      | (st', None) => set_settings fs_ok chat_id rest st'
      | (st', Some e) => (st', Some e)
      end
  end.

(** The state [cb_settings] leaves, for the button [data] pressed by
    [from_user] in the chat [chat_id]. What the handler shows and answers
    goes to the transport only, after the write, and whatever is raised
    there or while the new value is computed is caught by the handler. *)
Definition cb_settings (tg : Platform) (fs_ok : bool) (chat_id : Z) (from_user : option Z)
    (data : string) (st : State) : State :=
  match from_user with
  | None => st
  | Some uid =>
      let role := get_effective_role tg (DATA st) chat_id uid in
      if String.prefix "tg:wl_" data && negb (wl_allowed role) then st
      else if negb (can_use role "settings") then st
      else
        let s := get_settings_local (DATA st) chat_id in
        match button_updates data s with
        | Ok updates => fst (set_settings fs_ok chat_id updates st)
        | Raise _ => st
        end
  end.

(** ** Commands on settings, roles and the whitelist *)

(** In the commands below [parts] is what [split_command_args] returned
    for the text of the command and [reply_to] is as in
    [resolve_target_user_id]; an exception leaves a handler before it has
    written anything. *)

(** [cmd_automute]. *)
Definition cmd_automute (tg : Platform) (fs_ok : bool) (message : Message)
    (parts : list pystr) (st : State) : res (State * list call) :=
  match is_group (chat_type message), from_user message with
  | true, Some actor =>
      let cid := chat_id message in
      let role := get_effective_role tg (DATA st) cid (user_id actor) in
      if negb (can_use role "automute") then Ok (st, [Reply cid "no_rights"])
      else
        match nth_error parts 1 with
        | None => Ok (st, [Reply cid "usage"])
        | Some p =>
            match parse_duration_to_seconds p with
            | Raise e => Raise e
            | Ok None => Ok (st, [Reply cid "bad_time"])
            | Ok (Some sec) =>
                if (sec =? 0) || (sec <? 30) || (sec >? 86400)
                then Ok (st, [Reply cid "bad_time"])
                else
                  let st1 := fst (set_setting_local fs_ok cid "action" (PStr "mute") st) in
                  let st2 := fst (set_setting_local fs_ok cid "mute_seconds" (PInt sec) st1) in
                  Ok (st2, [Reply cid "automute"; ActionLog cid "AUTOMUTE"])
            end
        end
  | _, _ => Ok (st, [])
  end.

(** [cmd_setrole]. *)
Definition cmd_setrole (tg : Platform) (fs_ok : bool) (message : Message)
    (reply_to : option (option Z)) (parts : list pystr) (st : State) : State * list call :=
  match is_group (chat_type message), from_user message with
  | true, Some actor =>
      let cid := chat_id message in
      let role_me := get_effective_role tg (DATA st) cid (user_id actor) in
      if negb (can_use role_me "setrole") then (st, [Reply cid "no_rights"])
      else
        match reply_to with
        | Some (Some target_id) =>
            match nth_error parts 1 with
            | None => (st, [Reply cid "roles"])
            | Some p =>
                let new_role := string_of_list_ascii (strip p) in
                if negb (in_ROLE_RANK new_role) then (st, [Reply cid "roles"])
                else if String.eqb new_role (role_name ROLE_CREATOR)
                        && negb (bool_decide (role_me = Some (role_name ROLE_CREATOR)))
                then (st, [Reply cid "creator_only"])
                else
                  (fst (set_role_local fs_ok cid target_id new_role st),
                   [Reply cid "role_set"; ActionLog cid "SETROLE"])
            end
        | _ => (st, [Reply cid "usage"])
        end
  | _, _ => (st, [])
  end.

(** [cmd_delrole]. *)
Definition cmd_delrole (tg : Platform) (fs_ok : bool) (message : Message)
    (reply_to : option (option Z)) (st : State) : State * list call :=
  match is_group (chat_type message), from_user message with
  | true, Some actor =>
      let cid := chat_id message in
      let role_me := get_effective_role tg (DATA st) cid (user_id actor) in
      if negb (can_use role_me "delrole") then (st, [Reply cid "no_rights"])
      else
        match reply_to with
        | Some (Some target_id) =>
            (del_role_local fs_ok cid target_id st,
             [Reply cid "role_deleted"; ActionLog cid "DELROLE"])
        | _ => (st, [Reply cid "usage"])
        end
  | _, _ => (st, [])
  end.

(** [cmd_wl_add]. *)
Definition cmd_wl_add (tg : Platform) (fs_ok : bool) (message : Message)
    (reply_to : option (option Z)) (parts : list pystr) (st : State) : res (State * list call) :=
  match is_group (chat_type message), from_user message with
  | true, Some actor =>
      let cid := chat_id message in
      let role := get_effective_role tg (DATA st) cid (user_id actor) in
      if negb (wl_allowed role) then Ok (st, [Reply cid "no_rights"])
      else
        match resolve_target_user_id (DATA st) cid reply_to parts with
        | Raise e => Raise e
        | Ok target_id =>
            if no_target target_id then Ok (st, [Reply cid "usage"])
            else Ok (whitelist_add fs_ok cid (default 0 target_id) st, [Reply cid "wl_added"])
        end
  | _, _ => Ok (st, [])
  end.

(** [cmd_wl_del]. *)
Definition cmd_wl_del (tg : Platform) (fs_ok : bool) (message : Message)
    (reply_to : option (option Z)) (parts : list pystr) (st : State) : res (State * list call) :=
  match is_group (chat_type message), from_user message with
  | true, Some actor =>
      let cid := chat_id message in
      let role := get_effective_role tg (DATA st) cid (user_id actor) in
      if negb (wl_allowed role) then Ok (st, [Reply cid "no_rights"])
      else
        match resolve_target_user_id (DATA st) cid reply_to parts with
        | Raise e => Raise e
        | Ok target_id =>
            if no_target target_id then Ok (st, [Reply cid "usage"])
            else Ok (whitelist_remove fs_ok cid (default 0 target_id) st, [Reply cid "wl_removed"])
        end
  | _, _ => Ok (st, [])
  end.

(** ** Moderation commands *)

(** In these [accepts] tells whether the platform carries a call out; it
    raises [TelegramBadRequest] otherwise, which the handlers answer with
    a failure notice. [now] is the clock reading of [time.time()]. *)

(** [cmd_mute]. *)
Definition cmd_mute (tg : Platform) (accepts : call -> bool) (now : Q) (message : Message)
    (reply_to : option (option Z)) (parts : list pystr) (st : State) : res (list call) :=
  match is_group (chat_type message), from_user message with
  | true, Some actor =>
      let cid := chat_id message in
      let role := get_effective_role tg (DATA st) cid (user_id actor) in
      if negb (can_use role "mute") then Ok [Reply cid "no_rights"]
      else
        match resolve_target_user_id (DATA st) cid reply_to parts with
        | Raise e => Raise e
        | Ok None => Ok [Reply cid "usage"]
        | Ok (Some target_id) =>
            if target_id =? 0 then Ok [Reply cid "usage"]
            else if negb (ensure_can_moderate_target tg (DATA st) cid (user_id actor) target_id)
            then Ok [Reply cid "cannot_moderate"]
            else
              match nth_error parts (match reply_to with Some _ => 1 | None => 2 end)%nat with
              | None => Ok [Reply cid "no_time"]
              | Some p =>
                  match parse_duration_to_seconds p with
                  | Raise e => Raise e
                  | Ok None => Ok [Reply cid "bad_time"]
                  | Ok (Some dur) =>
                      if (dur =? 0) || (dur <? 30) then Ok [Reply cid "bad_time"]
                      else
                        let mute := Restrict cid target_id (int_of_float now + dur) in
                        if accepts mute
                        then Ok [mute; Reply cid "muted"; ActionLog cid "MUTE"]
                        else Ok [mute; Reply cid "failed"]
                  end
              end
        end
  | _, _ => Ok []
  end.

(** [cmd_unmute]. *)
Definition cmd_unmute (tg : Platform) (accepts : call -> bool) (message : Message)
    (reply_to : option (option Z)) (parts : list pystr) (st : State) : res (list call) :=
  match is_group (chat_type message), from_user message with
  | true, Some actor =>
      let cid := chat_id message in
      let role := get_effective_role tg (DATA st) cid (user_id actor) in
      if negb (can_use role "unmute") then Ok [Reply cid "no_rights"]
      else
        match resolve_target_user_id (DATA st) cid reply_to parts with
        | Raise e => Raise e
        | Ok None => Ok [Reply cid "usage"]
        | Ok (Some target_id) =>
            if target_id =? 0 then Ok [Reply cid "usage"]
            else if negb (ensure_can_moderate_target tg (DATA st) cid (user_id actor) target_id)
            then Ok [Reply cid "cannot_moderate"]
            else
              let unmute := Unrestrict cid target_id in
              if accepts unmute
              then Ok [unmute; Reply cid "unmuted"; ActionLog cid "UNMUTE"]
              else Ok [unmute; Reply cid "failed"]
        end
  | _, _ => Ok []
  end.

(** [cmd_ban]: the duration is optional, and without one the ban has no
    end ([until_date=0]). *)
Definition cmd_ban (tg : Platform) (accepts : call -> bool) (now : Q) (message : Message)
    (reply_to : option (option Z)) (parts : list pystr) (st : State) : res (list call) :=
  match is_group (chat_type message), from_user message with
  | true, Some actor =>
      let cid := chat_id message in
      let role := get_effective_role tg (DATA st) cid (user_id actor) in
      if negb (can_use role "ban") then Ok [Reply cid "no_rights"]
      else
        match resolve_target_user_id (DATA st) cid reply_to parts with
        | Raise e => Raise e
        | Ok None => Ok [Reply cid "usage"]
        | Ok (Some target_id) =>
            if target_id =? 0 then Ok [Reply cid "usage"]
            else if negb (ensure_can_moderate_target tg (DATA st) cid (user_id actor) target_id)
            then Ok [Reply cid "cannot_moderate"]
            else
              let maybe :=
                match nth_error parts (match reply_to with Some _ => 1 | None => 2 end)%nat with
                | None => Ok None
                | Some p => parse_duration_to_seconds p
                end in
              match maybe with
              | Raise e => Raise e
              | Ok dur =>
                  let until :=
                    match dur with
                    | Some d => if d =? 0 then 0 else int_of_float now + d
                    | None => 0
                    end in
                  let ban := Ban cid target_id (Some until) in
                  if accepts ban
                  then Ok [ban; Reply cid "banned"; ActionLog cid "BAN"]
                  else Ok [ban; Reply cid "failed"]
              end
        end
  | _, _ => Ok []
  end.

(** [cmd_unban]. *)
Definition cmd_unban (tg : Platform) (accepts : call -> bool) (message : Message)
    (reply_to : option (option Z)) (parts : list pystr) (st : State) : res (list call) :=
  match is_group (chat_type message), from_user message with
  | true, Some actor =>
      let cid := chat_id message in
      let role := get_effective_role tg (DATA st) cid (user_id actor) in
      if negb (can_use role "unban") then Ok [Reply cid "no_rights"]
      else
        match resolve_target_user_id (DATA st) cid reply_to parts with
        | Raise e => Raise e
        | Ok None => Ok [Reply cid "usage"]
        | Ok (Some target_id) =>
            if target_id =? 0 then Ok [Reply cid "usage"]
            else if negb (ensure_can_moderate_target tg (DATA st) cid (user_id actor) target_id)
            then Ok [Reply cid "cannot_moderate"]
            else
              let unban := Unban cid target_id in
              if accepts unban
              then Ok [unban; Reply cid "unbanned"; ActionLog cid "UNBAN"]
              else Ok [unban; Reply cid "failed"]
        end
  | _, _ => Ok []
  end.

(** [cmd_kick]: a ban lifted at once. *)
Definition cmd_kick (tg : Platform) (accepts : call -> bool) (message : Message)
    (reply_to : option (option Z)) (parts : list pystr) (st : State) : res (list call) :=
  match is_group (chat_type message), from_user message with
  | true, Some actor =>
      let cid := chat_id message in
      let role := get_effective_role tg (DATA st) cid (user_id actor) in
      if negb (can_use role "kick") then Ok [Reply cid "no_rights"]
      else
        match resolve_target_user_id (DATA st) cid reply_to parts with
        | Raise e => Raise e
        | Ok None => Ok [Reply cid "usage"]
        | Ok (Some target_id) =>
            if target_id =? 0 then Ok [Reply cid "usage"]
            else if negb (ensure_can_moderate_target tg (DATA st) cid (user_id actor) target_id)
            then Ok [Reply cid "cannot_moderate"]
            else
              let ban := Ban cid target_id None in
              let unban := Unban cid target_id in
              if negb (accepts ban) then Ok [ban; Reply cid "failed"]
              else if negb (accepts unban) then Ok [ban; unban; Reply cid "failed"]
              else Ok [ban; unban; Reply cid "kicked"; ActionLog cid "KICK"]
        end
  | _, _ => Ok []
  end.

(** ** Pages of the inactive list *)

Definition INACTIVE_PAGE_SIZE : Z := 15.

(** The paging buttons of [build_inactive_kb], each with the page it leads
    to. *)
Inductive nav : Type :=
| NavPrev (page : Z)
| NavNext (page : Z).

(** [build_inactive_kb], without the button that leaves the list. *)
Definition build_inactive_kb (page total : Z) : list nav :=
  let prev_page := page - 1 in
  let next_page := page + 1 in
  let max_page := Z.max 0 ((total - 1) / INACTIVE_PAGE_SIZE) in
  (if page >? 0 then [NavPrev prev_page] else [])
  ++ (if page <? max_page then [NavNext next_page] else []).

(** What [render_inactive_list] shows for [page]: the total, the rows of
    the page and the paging buttons. *)
Definition render_inactive_list (now : Q) (D : Data) (chat_id page : Z)
    : res (Z * list (Z * Z) * list nav) :=
  let s := get_settings_local D chat_id in
  match int (cleanup_days s) with
  | Raise e => Raise e
  | Ok days =>
      let cutoff := int_of_float now - days * 24 * 3600 in
      let total := count_inactive_local D chat_id cutoff in
      let offset := page * INACTIVE_PAGE_SIZE in
      let rows := fetch_inactive_local D chat_id cutoff INACTIVE_PAGE_SIZE offset in
      if total =? 0 then Ok (total, [], build_inactive_kb 0 0)
      else Ok (total, rows, build_inactive_kb page total)
  end.

(** * Notions used to state the properties *)

(** Every maximal run of spaces reduced to one space, in one pass: a space
    that is followed by a space is dropped. *)
Fixpoint squeeze (s : pystr) : pystr :=
  match s with
  | [] => []
  | c :: r =>
      match r with
      | d :: _ => if Ascii.eqb c space && Ascii.eqb d space then squeeze r else c :: squeeze r
      | [] => [c]
      end
  end.

(** The text has a character that is not whitespace. *)
Definition has_text (s : pystr) : bool := existsb (fun c => negb (isspace c)) s.

(** Two texts that differ only in letter case, in surrounding whitespace, or
    in the length of runs of spaces inside the text. *)
Inductive same_text : pystr -> pystr -> Prop :=
| same_case s s' : lower s = lower s' -> same_text s s'
| same_padding l s r :
    forallb isspace l = true -> forallb isspace r = true -> same_text (l ++ s ++ r) s
| same_run a b n m :
    has_text a = true -> has_text b = true -> (1 <= n)%nat -> (1 <= m)%nat ->
    same_text (a ++ repeat space n ++ b) (a ++ repeat space m ++ b)
| same_sym s s' : same_text s s' -> same_text s' s
| same_trans s1 s2 s3 : same_text s1 s2 -> same_text s2 s3 -> same_text s1 s3.

(** The three bypass tests of [moderate_all]. *)
Definition exempt (tg : Platform) (D : Data) (chat user : Z) : bool :=
  is_whitelisted D chat user
  || (let role := get_effective_role tg D chat user in
      truthy_str role && role_at_least role ROLE_MOD)
  || match tg chat user with
     | Some status => String.eqb status "administrator" || String.eqb status "creator"
     | None => false
     end.

(** A group message of a human sender who is not exempt, in a chat where
    automoderation is on: the messages that reach the checks. *)
Definition checked (tg : Platform) (D : Data) (message : Message) : bool :=
  is_group (chat_type message) &&
  match from_user message with
  | Some u =>
      negb (is_bot u)
      && truthy (enabled (get_settings_local D (chat_id message)))
      && negb (exempt tg D (chat_id message) (user_id u))
  | None => false
  end.

(** The three rate windows. *)
Inductive category : Type := CatMessage | CatSticker | CatAnimation.

Definition times_of (cat : category) (st : State) : gmap (Z * Z) (list Q) :=
  match cat with
  | CatMessage => msg_times st
  | CatSticker => sticker_times st
  | CatAnimation => gif_times st
  end.




(** The window a message that is not part of an album is counted in:
    stickers and animations under the mode [limit], the message window for
    everything that is neither. *)
Definition counted_in (cat : category) (s : ChatSettings) (message : Message) : bool :=
  negb (truthy_str (media_group_id message)) &&
  match cat with
  | CatSticker => sticker message && eq_str (sticker_mode s) "limit"
  | CatAnimation => negb (sticker message) && animation message && eq_str (gif_mode s) "limit"
  | CatMessage => negb (sticker message) && negb (animation message)
  end.

(** The entries of a window that are not older than [now - window]: the
    ones the trimming loop is meant to keep. *)
Definition in_window (now : Q) (window : Z) (t : Q) : bool :=
  negb (Qgtb (now - t) (inject_Z window)).


(** A message of the user [user] in the chat [chat]. *)
Definition sent_by (chat user : Z) (message : Message) : bool :=
  (chat_id message =? chat) &&
  match from_user message with
  | Some u => user_id u =? user
  | None => false
  end.

(** The state the dispatcher leaves after a run. *)
Definition exec (tg : Platform) (updates : list (Q * Message)) (st : State) : State :=
  fold_left (fun st nm => o_state (moderate_all tg (fst nm) (snd nm) st)) updates st.

(** The schedule on which every task ends before the next update arrives:
    the one [run] follows. *)
Definition one_by_one (updates : list (Q * Message)) : list event :=
  flat_map (fun nm => [Arrive (fst nm) (snd nm); Resume 0]) updates.

(** The clock readings of a schedule, in the order taken. *)
Definition readings (events : list event) : list Q :=
  flat_map (fun e => match e with Arrive now _ => [now] | Resume _ => [] end) events.

(** The tasks are resumed in the order in which they started. *)
Definition in_turn (events : list event) : bool :=
  forallb (fun e => match e with Arrive _ _ => true | Resume i => Nat.eqb i 0 end) events.

(** The handler got past the flood and link checks of the text branch. *)
Definition past_link (o : Outcome) : bool :=
  match o_stage o with
  | AtRepeat | AtEnd => true
  | _ => false
  end.

(** The length of the run of fingerprint [h] that the duplicate state of
    [key] records. *)
Definition run_length (st : State) (key : Z * Z) (h : pystr) : Z :=
  let '(last_h, count) := default ([], 0) (last_hash st !! key) in
  if bool_decide (h = last_h) then count else 0.

(** The rank of a user's effective role, [ROLE_RANK.get(role, -1)]: -1 for
    a user without a role, as for a role name that is not in the table. *)
Definition effective_rank (tg : Platform) (D : Data) (chat user : Z) : Z :=
  match get_effective_role tg D chat user with
  | Some r => rank_get r
  | None => -1
  end.



(** The field names of [ChatSettings]. *)
Definition FIELD_NAMES : list string :=
  ["enabled"; "flood_limit"; "flood_window_sec"; "repeat_limit"; "block_links";
   "sticker_mode"; "gif_mode"; "sticker_limit"; "gif_limit"; "media_window_sec";
   "action"; "mute_seconds"; "cleanup_enabled"; "cleanup_days"; "cleanup_mode"]%string.

(** The value of the field called [name], read through [asdict]. *)
Definition field_value (s : ChatSettings) (name : string) : option pyval :=
  asdict s !! name.


(** The last-seen time of an activity entry, when it has one. *)
Definition entry_ts (e : activity_entry) : option Z :=
  match e with
  | AInfo ts _ => as_int ts
  | AOther => None
  end.

(** The number of entries seen more recently than the entry of [uid], whose
    time is [ts]: those with a later time, and those with the same time that
    come before it in the dictionary. *)
Fixpoint ahead (items : list (Z * Z)) (uid ts : Z) : nat :=
  match items with
  | [] => 0
  | it :: rest =>
      if fst it =? uid then List.length (List.filter (fun x => snd x >? ts) rest)
      else ((if snd it >=? ts then 1 else 0) + ahead rest uid ts)%nat
  end.

(** The entry of [uid] is among the [ACTIVITY_MAX_PER_CHAT] most recently
    seen of its chat. *)
Definition among_most_recent (users : odict Z activity_entry) (uid ts : Z) : Prop :=
  (ahead (activity_items users) uid ts < Z.to_nat ACTIVITY_MAX_PER_CHAT)%nat.

(** Every rate window of [st] holds its readings in ascending order, none
    later than the clock reading [now]. *)
Definition windows_in_order (st : State) (now : Q) : Prop :=
  forall cat key, Sorted Qle (default [] (times_of cat st !! key) ++ [now]).

(** The name [resolve_username_to_id_local] looks up for [username], which
    is also the name [upsert_activity_local] keeps for it. *)
Definition handle (username : pystr) : pystr :=
  let uname := strip username in
  lower (if startswith (lit "@") uname then skipn 1 uname else uname).

(** The entry [e] is stored under the name [key] with the integer time
    [t]. *)
Definition named (key : pystr) (t : Z) (e : activity_entry) : Prop :=
  match e with
  | AInfo ts name => default [] name = key /\ as_int ts = Some t
  | AOther => False
  end.

(** The platform statuses of those [run_cleanup_once] leaves alone. *)
Definition spared (status : string) : bool :=
  existsb (String.eqb status) ["administrator"; "creator"; "left"; "kicked"].

Definition is_bool (v : pyval) : bool :=
  match v with
  | PBool _ => true
  | _ => false
  end.

Definition int_in (lo hi : Z) (v : pyval) : bool :=
  match v with
  | PInt n => (lo <=? n) && (n <=? hi)
  | _ => false
  end.

Definition str_in (options : list string) (v : pyval) : bool :=
  match v with
  | PStr s => existsb (String.eqb s) options
  | _ => false
  end.

Definition int_among (options : list Z) (v : pyval) : bool :=
  match v with
  | PInt n => existsb (Z.eqb n) options
  | _ => false
  end.

(** The values the settings buttons and [cmd_automute] keep each field to:
    a switch is a [bool], a limit or a window an [int] between the ends at
    which its buttons stop, a mode one of the names its button cycles
    through. *)
Definition valid_value (field : string) (v : pyval) : bool :=
  if existsb (String.eqb field) ["enabled"; "block_links"; "cleanup_enabled"] then is_bool v
  else if String.eqb field "flood_limit" then int_in 2 50 v
  else if String.eqb field "flood_window_sec" then int_in 3 120 v
  else if String.eqb field "repeat_limit" then int_in 2 10 v
  else if existsb (String.eqb field) ["sticker_mode"; "gif_mode"]
       then str_in ["allow"; "limit"; "ban"] v
  else if existsb (String.eqb field) ["sticker_limit"; "gif_limit"] then int_in 1 30 v
  else if String.eqb field "media_window_sec" then int_in 3 120 v
  else if String.eqb field "action" then str_in ["mute"; "delete"] v
  else if String.eqb field "mute_seconds" then int_in 30 86400 v
  else if String.eqb field "cleanup_days" then int_among [7; 14; 30; 60; 90] v
  else if String.eqb field "cleanup_mode" then str_in ["kick"; "ban"] v
  else false.

(** Every field of [s] holds such a value. *)
Definition in_bounds (s : ChatSettings) : bool :=
  forallb (fun fv => valid_value (fst fv) (snd fv)) (asdict_items s).

(** The chat and the user a call acts on, for the calls that restrict,
    ban or release someone. *)
Definition acts_on (k : call) : option (Z * Z) :=
  match k with
  | Restrict chat user _ | Unrestrict chat user | Ban chat user _ | Unban chat user =>
      Some (chat, user)
  | Reply _ _ | ActionLog _ _ => None
  end.

(** The moderation commands by the name [can_use] knows them under. *)
Definition moderation_commands
  : list (string *
          (Platform -> (call -> bool) -> Q -> Message -> option (option Z) -> list pystr ->
           State -> res (list call))) :=
  [("mute"%string, cmd_mute);
   ("unmute"%string, fun tg accepts _ => cmd_unmute tg accepts);
   ("ban"%string, cmd_ban);
   ("unban"%string, fun tg accepts _ => cmd_unban tg accepts);
   ("kick"%string, fun tg accepts _ => cmd_kick tg accepts)].

(** The state [st'] differs from [st] at most in what the message windows,
    the last fingerprint and the albums hold for [key]. *)
Definition touches_only (key : Z * Z) (st st' : State) : Prop :=
  DATA st' = DATA st /\ disk st' = disk st /\
  activity_save_pending st' = activity_save_pending st /\
  forall k : Z * Z,
    k <> key ->
    msg_times st' !! k = msg_times st !! k /\ last_hash st' !! k = last_hash st !! k /\
    sticker_times st' !! k = sticker_times st !! k /\
    gif_times st' !! k = gif_times st !! k /\ album_seen st' !! k = album_seen st !! k.

(** The reason tags of the automoderation. *)
Definition REASONS : list string :=
  ["album_link"; "sticker_ban"; "sticker_limit"; "gif_ban"; "gif_limit"; "flood"; "link";
   "repeat"]%string.

(** The limits and windows the checks compare against are numbers. *)
Definition numeric_limits (s : ChatSettings) : bool :=
  forallb (fun v => bool_decide (as_int v <> None))
    [flood_limit s; flood_window_sec s; repeat_limit s; sticker_limit s; gif_limit s;
     media_window_sec s].

(** A duration written as numbers, each followed by its unit letter, and
    the seconds it stands for. *)
Definition written (items : list (Z * ascii)) : pystr :=
  List.concat (List.map (fun it => lit (str_of_Z (fst it)) ++ [snd it]) items).

Definition seconds_of (items : list (Z * ascii)) : Z :=
  fold_right (fun it total => fst it * unit_seconds (snd it) + total) 0 items.

(** * Sample chats and messages *)

(** A platform on which everybody is an ordinary member. *)
Definition members_only : Platform := fun _ _ => Some "member"%string.

(** A user who is not a bot. *)
Definition sample_user (uid : Z) : User :=
  {| user_id := uid; is_bot := false; user_username := None |}.

(** A plain text message, a sticker, and a photo of an album. *)
Definition text_message (chat uid mid : Z) (t : string) : Message :=
  {| chat_id := chat; chat_type := SUPERGROUP; message_id := mid;
     from_user := Some (sample_user uid); text := Some (lit t); caption := None;
     media_group_id := None; sticker := false; animation := false |}.

Definition sticker_message (chat uid mid : Z) : Message :=
  {| chat_id := chat; chat_type := SUPERGROUP; message_id := mid;
     from_user := Some (sample_user uid); text := None; caption := None;
     media_group_id := None; sticker := true; animation := false |}.


(** The settings of chat 7 set to [flood_limit = 3], [flood_window_sec = 10],
    [sticker_limit = 2]. *)
Definition sample_state : State :=
  fst (set_setting_local true 7 "sticker_limit" (PInt 2)
    (fst (set_setting_local true 7 "flood_window_sec" (PInt 10)
      (fst (set_setting_local true 7 "flood_limit" (PInt 3) INIT))))).

(** Four messages of user 9 within five seconds. *)
Definition sample_burst : list (Q * Message) :=
  [(100 # 1, text_message 7 9 1 "one"); (203 # 2, text_message 7 9 2 "two");
   (103 # 1, text_message 7 9 3 "three"); (209 # 2, text_message 7 9 4 "four")].

(** The same text three times, up to case and spacing. *)
Definition sample_repeats : list (Q * Message) :=
  [(100 # 1, text_message 7 9 1 "Buy  now"); (101 # 1, text_message 7 9 2 "buy now");
   (102 # 1, text_message 7 9 3 " BUY NOW ")].

(** Chat 7 with user 2 a moderator, user 3 an admin, and user 9 on the
    whitelist. *)
Definition sample_data : Data :=
  {| d_settings := ∅;
     d_roles := {[ (7, 2) := "moderator"%string; (7, 3) := "admin"%string ]};
     d_warns := ∅; d_activity := ∅;
     d_whitelist := {[ 7 := [PStr "9"] ]} |}.

(** The state after the sample burst, with the sample roles and whitelist
    loaded: the message window of user 9 holds four readings. *)
Definition sample_loaded : State :=
  with_DATA sample_data (exec members_only sample_burst sample_state).

(** A warn command of user 2 in chat 7 against the user it replies to. *)
Definition warn_command : Message :=
  {| chat_id := 7; chat_type := SUPERGROUP; message_id := 50;
     from_user := Some (sample_user 2); text := Some (lit "/warn flood"); caption := None;
     media_group_id := None; sticker := false; animation := false |}.


(** An activity dictionary with an old entry, a malformed one and a recent
    one. *)
Definition sample_activity : odict Z activity_entry :=
  [(1, AInfo (PInt 1000) None); (2, AOther); (3, AInfo (PInt 1700000000) (Some (lit "bob")));
   (4, AInfo (PStr "yesterday") None)].

(** The sample roles and whitelist with the records of six users in chat 7:
    three of them last seen long ago, one recently, two without a usable
    time. *)
Definition sample_members : Data :=
  with_activity
    {[ 7 := [(1, AInfo (PInt 1000) None); (2, AOther);
             (3, AInfo (PInt 1700000000) (Some (lit "bob")));
             (4, AInfo (PStr "yesterday") None); (5, AInfo (PInt 500) (Some (lit "eve")));
             (6, AInfo (PInt 2000) None)] ]}
    sample_data.

(** Chat 7 with twenty users, user [i] last seen at time [i]. *)
Definition sample_crowd : Data :=
  with_activity
    {[ 7 := List.map (fun i => (Z.of_nat i, AInfo (PInt (Z.of_nat i)) None)) (seq 1 20) ]}
    EMPTY_DATA.

(** A platform on which user 5 is an administrator and everybody else an
    ordinary member. *)
Definition one_admin : Platform :=
  fun _ u => if u =? 5 then Some "administrator"%string else Some "member"%string.

(** A ban command of user 3 in chat 7 against the user it replies to. *)
Definition ban_command : Message :=
  {| chat_id := 7; chat_type := SUPERGROUP; message_id := 51;
     from_user := Some (sample_user 3); text := Some (lit "/ban 7d spam"); caption := None;
     media_group_id := None; sticker := false; animation := false |}.

(** A picture without a caption that is not part of an album. *)
Definition picture_message (chat uid mid : Z) : Message :=
  {| chat_id := chat; chat_type := SUPERGROUP; message_id := mid;
     from_user := Some (sample_user uid); text := None; caption := None;
     media_group_id := None; sticker := false; animation := false |}.

(** The settings of chat 7 set to [flood_limit = 2], [flood_window_sec = 10]. *)
Definition strict_state : State :=
  fst (set_setting_local true 7 "flood_window_sec" (PInt 10)
    (fst (set_setting_local true 7 "flood_limit" (PInt 2) INIT))).


(** The same three messages as tasks, on a clock that does not go back:
    the task of the message that arrived first resumes second. *)
Definition late_schedule : list event :=
  [Arrive (94 # 1) (text_message 7 9 2 "two"); Arrive (100 # 1) (text_message 7 9 1 "one");
   Resume 1; Resume 0; Arrive (105 # 1) (text_message 7 9 3 "three"); Resume 0].

(** The settings of chat 7 set to [repeat_limit = 2], and to
    [flood_limit = 2] with the default [repeat_limit = 3]. *)
Definition terse_state : State :=
  fst (set_setting_local true 7 "repeat_limit" (PInt 2) INIT).

Definition tight_state : State :=
  fst (set_setting_local true 7 "flood_limit" (PInt 2) INIT).

(** A text, a sticker, a picture without caption, and the text again. *)
Definition mixed_run : list (Q * Message) :=
  [(100 # 1, text_message 7 9 1 "spam"); (101 # 1, sticker_message 7 9 2);
   (102 # 1, picture_message 7 9 3); (103 # 1, text_message 7 9 4 "spam")].

(** The same text three times within three seconds, and a text with a link
    twice. *)
Definition spam_run : list (Q * Message) :=
  [(100 # 1, text_message 7 9 1 "spam"); (101 # 1, text_message 7 9 2 "spam");
   (102 # 1, text_message 7 9 3 "spam")].

Definition link_run : list (Q * Message) :=
  [(100 # 1, text_message 7 9 1 "www.a.b"); (101 # 1, text_message 7 9 2 "www.a.b")].

(** Two messages a tenth of a second apart whose tasks resume in the
    opposite order, and three whose tasks resume in turn. *)
Definition swapped_schedule : list event :=
  [Arrive (100 # 1) (text_message 7 9 1 "one");
   Arrive (1001 # 10) (text_message 7 9 2 "two"); Resume 1; Resume 0].

Definition turn_schedule : list event :=
  [Arrive (100 # 1) (text_message 7 9 1 "one");
   Arrive (203 # 2) (text_message 7 9 2 "two"); Resume 0;
   Arrive (103 # 1) (text_message 7 9 3 "three"); Resume 0; Resume 0].

(** * Properties *)

(** ** Substring tests *)

Section TextFacts.

Lemma startswith_spec (m t : pystr) :
  startswith m t = true <-> exists r, t = m ++ r.
Proof.
  revert t; induction m as [|a m IH]; intros t; simpl.
  - split; eauto.
  - destruct t as [|b t]; simpl.
    + split; [discriminate | intros [r Hr]; discriminate].
    + rewrite andb_true_iff, IH, Ascii.eqb_eq. split.
      * intros [-> [r ->]]. eauto.
      * intros [r Hr]. injection Hr as -> ->. eauto.
Qed.

Lemma contains_spec (m t : pystr) :
  contains m t = true <-> exists a b, t = a ++ m ++ b.
Proof.
  induction t as [|c t IH].
  - simpl. rewrite orb_false_r, startswith_spec. split.
    + intros [r Hr]. exists [], r. exact Hr.
    + intros (a & b & H). destruct a; [eauto|discriminate].
  - change (contains m (c :: t)) with (startswith m (c :: t) || contains m t).
    rewrite orb_true_iff, startswith_spec, IH. split.
    + intros [[r Hr] | (a & b & ->)].
      * exists [], r. exact Hr.
      * exists (c :: a), b. reflexivity.
    + intros (a & b & H). destruct a as [|x a].
      * left. eauto.
      * right. injection H as -> ->. eauto.
Qed.

End TextFacts.

(** ** The derivative matcher computes the language *)

Module RegexFacts.
Import Regex.

Lemma nullable_spec (r : re) : nullable r = true <-> Matches r [].
Proof.
  induction r; simpl.
  - split; [discriminate | inversion 1].
  - split; [constructor | reflexivity].
  - split; [discriminate | inversion 1].
  - split; [discriminate | inversion 1].
  - rewrite andb_true_iff, IHr1, IHr2. split.
    + intros [H1 H2]. exact (MSeq _ _ [] [] H1 H2).
    + inversion 1 as [| | |? ? s1 s2 H1 H2 E1 E2| | | |]; subst.
      apply app_eq_nil in E2 as [-> ->]. auto.
  - rewrite orb_true_iff, IHr1, IHr2. split.
    + intros [H|H]; [apply MAltL | apply MAltR]; exact H.
    + inversion 1; subst; auto.
  - split; [constructor | reflexivity].
Qed.

Lemma star_cons_inv (r : re) (s : pystr) :
  Matches (Star r) s ->
  forall c s', s = c :: s' ->
  exists s1 s2, s' = s1 ++ s2 /\ Matches r (c :: s1) /\ Matches (Star r) s2.
Proof.
  intros H. remember (Star r) as q eqn:Eq. induction H; try discriminate.
  injection Eq as ->. intros c s' E. destruct s1 as [|x s1].
  - simpl in E. exact (IHMatches2 eq_refl c s' E).
  - simpl in E. injection E as -> <-. exists s1, s2. auto.
Qed.

Lemma deriv_sound (c : ascii) (r : re) (s : pystr) :
  Matches (deriv c r) s -> Matches r (c :: s).
Proof.
  revert s; induction r; intros s; simpl.
  - inversion 1.
  - inversion 1.
  - destruct (Ascii.eqb_spec c c0) as [->|]; inversion 1; constructor.
  - destruct (p c) eqn:Hp; inversion 1; constructor; exact Hp.
  - destruct (nullable r1) eqn:Hn.
    + inversion 1 as [| | | |? ? ? H1| ? ? ? H1| |]; subst.
      * inversion H1 as [| | |? ? s1 s2 Ha Hb| | | |]; subst.
        exact (MSeq _ _ (c :: s1) s2 (IHr1 _ Ha) Hb).
      * apply nullable_spec in Hn.
        exact (MSeq _ _ [] (c :: s) Hn (IHr2 _ H1)).
    + inversion 1 as [| | |? ? s1 s2 Ha Hb| | | |]; subst.
      exact (MSeq _ _ (c :: s1) s2 (IHr1 _ Ha) Hb).
  - inversion 1; subst; [apply MAltL | apply MAltR]; auto.
  - inversion 1 as [| | |? ? s1 s2 Ha Hb| | | |]; subst.
    exact (MStarS _ (c :: s1) s2 (IHr _ Ha) Hb).
Qed.

Lemma deriv_complete (c : ascii) (r : re) (s : pystr) :
  Matches r (c :: s) -> Matches (deriv c r) s.
Proof.
  revert s; induction r; intros s; simpl.
  - inversion 1.
  - inversion 1.
  - inversion 1; subst. rewrite Ascii.eqb_refl. constructor.
  - inversion 1 as [| |? ? Hp| | | | |]; subst. rewrite Hp. constructor.
  - inversion 1 as [| | |? ? s1 s2 Ha Hb E1 E2| | | |]; subst.
    destruct s1 as [|x s1]; simpl in E2.
    + subst s2. apply nullable_spec in Ha as Hn. rewrite Hn.
      apply MAltR. auto.
    + injection E2 as -> <-.
      destruct (nullable r1); [apply MAltL|]; constructor; auto.
  - inversion 1; subst; [apply MAltL | apply MAltR]; auto.
  - intros H. destruct (star_cons_inv _ _ H c s eq_refl) as (s1 & s2 & -> & Ha & Hb).
    constructor; auto.
Qed.

Lemma match_prefix_spec (r : re) (s : pystr) :
  match_prefix r s = true <-> exists p q, s = p ++ q /\ Matches r p.
Proof.
  revert r; induction s as [|c s IH]; intros r; simpl.
  - rewrite orb_false_r, nullable_spec. split.
    + intros H. exists [], []. auto.
    + intros (p & q & E & H). symmetry in E. apply app_eq_nil in E as [-> _]. exact H.
  - rewrite orb_true_iff, nullable_spec, IH. split.
    + intros [H | (p & q & -> & H)].
      * exists [], (c :: s). auto.
      * exists (c :: p), q. split; [reflexivity | apply deriv_sound; exact H].
    + intros (p & q & E & H). destruct p as [|x p].
      * left. exact H.
      * right. injection E as -> ->. exists p, q. split; [reflexivity|].
        apply deriv_complete. exact H.
Qed.

Lemma search_spec (r : re) (s : pystr) :
  search r s = true <-> exists a p b, s = a ++ p ++ b /\ Matches r p.
Proof.
  induction s as [|c s IH].
  - simpl. rewrite !orb_false_r, nullable_spec. split.
    + intros H. exists [], [], []. auto.
    + intros (a & p & b & E & H). symmetry in E.
      apply app_eq_nil in E as [_ E]. apply app_eq_nil in E as [-> _]. exact H.
  - change (search r (c :: s)) with (match_prefix r (c :: s) || search r s).
    rewrite orb_true_iff, match_prefix_spec, IH. split.
    + intros [(p & q & E & H) | (a & p & b & -> & H)].
      * exists [], p, q. auto.
      * exists (c :: a), p, b. auto.
    + intros (a & p & b & E & H). destruct a as [|x a].
      * left. exists p, b. auto.
      * right. injection E as -> ->. exists a, p, b. auto.
Qed.

Lemma Lit_inv (m s : pystr) : Matches (Lit m) s -> s = m.
Proof.
  revert s; induction m as [|c m IH]; intros s; simpl.
  - inversion 1. reflexivity.
  - inversion 1 as [| | |? ? s1 s2 Ha Hb| | | |]; subst.
    inversion Ha; subst. simpl. f_equal. auto.
Qed.

Lemma Lit_intro (m : pystr) : Matches (Lit m) m.
Proof.
  induction m as [|c m IH]; simpl; [constructor|].
  exact (MSeq _ _ [c] m (MChr c) IH).
Qed.

End RegexFacts.

(** ** Link detection *)

(** Whatever the pattern of [contains_link] matches begins with one of the
    link markers. *)
Lemma link_re_marker (p : pystr) :
  Regex.Matches link_re p -> exists m q, In m LINK_MARKERS /\ p = m ++ q.
Proof.
  unfold link_re. inversion 1 as [| | |? ? s1 s2 Ha Hb| | | |]; subst.
  inversion Ha as [| | | |? ? ? H1|? ? ? H1| |]; subst.
  - inversion H1 as [| | |? ? u1 u2 Hu1 Hu2| | | |]; subst.
    apply (RegexFacts.Lit_inv (lit "http")) in Hu1 as ->.
    inversion Hu2 as [| | |? ? v1 v2 Hv1 Hv2| | | |]; subst.
    apply (RegexFacts.Lit_inv (lit "://")) in Hv2 as ->.
    inversion Hv1 as [| | | |? ? ? Hs|? ? ? Hs| |]; subst.
    + inversion Hs; subst. exists (lit "https://"), s2.
      split; [simpl; auto | reflexivity].
    + inversion Hs; subst. exists (lit "http://"), s2.
      split; [simpl; auto | reflexivity].
  - inversion H1 as [| | | |? ? ? H2|? ? ? H2| |]; subst.
    + apply (RegexFacts.Lit_inv (lit "t.me/")) in H2 as ->.
      exists (lit "t.me/"), s2. split; [simpl; auto | reflexivity].
    + apply (RegexFacts.Lit_inv (lit "www.")) in H2 as ->.
      exists (lit "www."), s2. split; [simpl; auto | reflexivity].
Qed.

Lemma marker_test_spec (t : pystr) :
  existsb (fun m => contains m t) LINK_MARKERS = true <->
  exists m a b, In m LINK_MARKERS /\ t = a ++ m ++ b.
Proof.
  rewrite existsb_exists. split.
  - intros (m & Hin & Hc). apply contains_spec in Hc as (a & b & E). eauto 6.
  - intros (m & a & b & Hin & E). exists m. split; [exact Hin|].
    apply contains_spec. eauto.
Qed.

(** C10: [contains_link] is true exactly when the lowercased text contains
    one of the four markers ["http://"], ["https://"], ["t.me/"], ["www."]
    as a substring; the regular-expression branch accepts no text that the
    marker test rejects. *)
Theorem contains_link_markers (text : pystr) :
  (contains_link text = true <->
   exists m a b, In m LINK_MARKERS /\ lower text = a ++ m ++ b) /\
  (Regex.search link_re (lower text) = true ->
   existsb (fun m => contains m (lower text)) LINK_MARKERS = true) /\
  contains_link text = existsb (fun m => contains m (lower text)) LINK_MARKERS.
Proof.
  assert (Hre : Regex.search link_re (lower text) = true ->
                existsb (fun m => contains m (lower text)) LINK_MARKERS = true).
  { intros H. apply RegexFacts.search_spec in H as (a & p & b & E & Hm).
    apply link_re_marker in Hm as (m & q & Hin & ->).
    apply marker_test_spec. exists m, a, (q ++ b).
    split; [exact Hin|]. rewrite E, <- app_assoc. reflexivity. }
  assert (Heq : contains_link text =
                existsb (fun m => contains m (lower text)) LINK_MARKERS).
  { unfold contains_link.
    destruct (existsb _ LINK_MARKERS) eqn:Hm; [reflexivity|].
    destruct (Regex.search link_re (lower text)) eqn:Hs; [|reflexivity].
    discriminate (Hre eq_refl). }
  split; [|split]; [|exact Hre|exact Heq].
  rewrite Heq. apply marker_test_spec.
Qed.

(** ** Text normalization *)

Section NormText.

Lemma isspace_lower_char (c : ascii) : isspace (lower_char c) = isspace c.
Proof. destruct c as [[] [] [] [] [] [] [] []]; reflexivity. Qed.

Lemma lower_app (a b : pystr) : lower (a ++ b) = lower a ++ lower b.
Proof. apply List.map_app. Qed.

Lemma lower_rev (s : pystr) : lower (rev s) = rev (lower s).
Proof. apply List.map_rev. Qed.

Lemma lower_spaces (n : nat) : lower (repeat space n) = repeat space n.
Proof. induction n as [|n IH]; simpl; [reflexivity|]. f_equal. exact IH. Qed.

Lemma lower_lstrip (s : pystr) : lower (lstrip s) = lstrip (lower s).
Proof.
  induction s as [|c s IH]; simpl; [reflexivity|].
  rewrite isspace_lower_char. destruct (isspace c); [exact IH | reflexivity].
Qed.

Lemma lower_strip (s : pystr) : lower (strip s) = strip (lower s).
Proof.
  unfold strip, rstrip.
  rewrite lower_rev, lower_lstrip, lower_rev, lower_lstrip. reflexivity.
Qed.

Lemma lstrip_spaces (l s : pystr) :
  forallb isspace l = true -> lstrip (l ++ s) = lstrip s.
Proof.
  induction l as [|c l IH]; simpl; [reflexivity|].
  intros H. apply andb_true_iff in H as [-> H]. auto.
Qed.

Lemma lstrip_text (a s : pystr) :
  has_text a = true -> lstrip (a ++ s) = lstrip a ++ s.
Proof.
  induction a as [|c a IH]; simpl; [discriminate|].
  destruct (isspace c); simpl; auto.
Qed.

Lemma lstrip_all_space (s : pystr) : has_text s = false -> lstrip s = [].
Proof.
  induction s as [|c s IH]; simpl; [reflexivity|].
  destruct (isspace c); simpl; [auto | discriminate].
Qed.

Lemma has_text_rev (s : pystr) : has_text (rev s) = has_text s.
Proof.
  unfold has_text. induction s as [|c s IH]; simpl; [reflexivity|].
  rewrite existsb_app, IH. simpl. rewrite orb_false_r. apply orb_comm.
Qed.

Lemma forallb_rev {A} (f : A -> bool) (l : list A) : forallb f (rev l) = forallb f l.
Proof.
  induction l as [|c l IH]; simpl; [reflexivity|].
  rewrite forallb_app, IH. simpl. rewrite andb_true_r. apply andb_comm.
Qed.

Lemma has_text_spaces (l : pystr) : forallb isspace l = true -> has_text l = false.
Proof.
  induction l as [|c l IH]; simpl; [reflexivity|].
  intros H. apply andb_true_iff in H as [-> H]. simpl. auto.
Qed.

Lemma rstrip_spaces (s r : pystr) :
  forallb isspace r = true -> rstrip (s ++ r) = rstrip s.
Proof.
  intros H. unfold rstrip. rewrite rev_app_distr, lstrip_spaces; [reflexivity|].
  rewrite forallb_rev. exact H.
Qed.

Lemma rstrip_text (s b : pystr) :
  has_text b = true -> rstrip (s ++ b) = s ++ rstrip b.
Proof.
  intros H. unfold rstrip. rewrite rev_app_distr, lstrip_text.
  - rewrite rev_app_distr, rev_involutive. reflexivity.
  - rewrite has_text_rev. exact H.
Qed.
Lemma no_text_spaces (s : pystr) : has_text s = false -> forallb isspace s = true.
Proof.
  induction s as [|c s IH]; simpl; [reflexivity|].
  destruct (isspace c); simpl; [auto | discriminate].
Qed.

Lemma strip_padding (l s r : pystr) :
  forallb isspace l = true -> forallb isspace r = true ->
  strip (l ++ s ++ r) = strip s.
Proof.
  intros Hl Hr. unfold strip. rewrite lstrip_spaces by exact Hl.
  destruct (has_text s) eqn:Hs.
  - rewrite lstrip_text by exact Hs. apply rstrip_spaces. exact Hr.
  - rewrite (lstrip_all_space s Hs).
    rewrite lstrip_spaces by (apply no_text_spaces; exact Hs).
    rewrite lstrip_all_space by (apply has_text_spaces; exact Hr).
    reflexivity.
Qed.

Lemma strip_inner (a x b : pystr) :
  has_text a = true -> has_text b = true ->
  strip (a ++ x ++ b) = lstrip a ++ x ++ rstrip b.
Proof.
  intros Ha Hb. unfold strip. rewrite lstrip_text by exact Ha.
  rewrite !app_assoc, rstrip_text by exact Hb. reflexivity.
Qed.

(** *** One pass of [replace] against [squeeze] *)

Lemma squeeze_cons2 (c d : ascii) (r : pystr) :
  squeeze (c :: d :: r) =
  if Ascii.eqb c space && Ascii.eqb d space then squeeze (d :: r) else c :: squeeze (d :: r).
Proof. reflexivity. Qed.

Lemma replace_2sp_cons2 (c d : ascii) (r : pystr) :
  replace_2sp (c :: d :: r) =
  if Ascii.eqb c space && Ascii.eqb d space then space :: replace_2sp r
  else c :: replace_2sp (d :: r).
Proof. reflexivity. Qed.

Lemma hd_squeeze (s : pystr) : hd_error (squeeze s) = hd_error s.
Proof.
  induction s as [|c [|d r] IH]; [reflexivity | reflexivity |].
  rewrite squeeze_cons2.
  destruct (Ascii.eqb_spec c space) as [->|]; [|reflexivity].
  destruct (Ascii.eqb_spec d space) as [->|]; [|reflexivity].
  simpl andb. cbv iota. exact IH.
Qed.

(** [squeeze] looks at what follows a prefix only through its first
    character and its own squeezed form. *)
Lemma squeeze_cong (a x y : pystr) :
  hd_error x = hd_error y -> squeeze x = squeeze y ->
  squeeze (a ++ x) = squeeze (a ++ y).
Proof.
  intros Hh Hs. induction a as [|c a IH]; [exact Hs|].
  assert (Hh' : hd_error (a ++ x) = hd_error (a ++ y)).
  { destruct a; [exact Hh | reflexivity]. }
  simpl app.
  destruct (a ++ x) as [|d1 r1] eqn:E1, (a ++ y) as [|d2 r2] eqn:E2;
    simpl in Hh'; try discriminate; [reflexivity|].
  injection Hh' as <-. rewrite !squeeze_cons2, IH. reflexivity.
Qed.

Lemma squeeze_spaces (n : nat) (b : pystr) :
  squeeze (repeat space (S n) ++ b) = squeeze (space :: b).
Proof.
  induction n as [|n IH]; [reflexivity|].
  change (repeat space (S (S n)) ++ b) with (space :: space :: (repeat space n ++ b)).
  rewrite squeeze_cons2. simpl andb. cbv iota. exact IH.
Qed.

Lemma squeeze_run (a b : pystr) (n m : nat) :
  (1 <= n)%nat -> (1 <= m)%nat ->
  squeeze (a ++ repeat space n ++ b) = squeeze (a ++ repeat space m ++ b).
Proof.
  intros Hn Hm. destruct n as [|n]; [lia|]. destruct m as [|m]; [lia|].
  apply squeeze_cong; [reflexivity|].
  rewrite !squeeze_spaces. reflexivity.
Qed.

Lemma replace_2sp_facts (n : nat) (s : pystr) :
  (List.length s <= n)%nat ->
  squeeze (replace_2sp s) = squeeze s /\
  hd_error (replace_2sp s) = hd_error s /\
  (List.length (replace_2sp s) <= List.length s)%nat.
Proof.
  revert s; induction n as [|n IH]; intros s Hlen.
  - destruct s; [auto | simpl in Hlen; lia].
  - destruct s as [|c [|d r]]; [auto | auto |].
    simpl in Hlen. rewrite replace_2sp_cons2, squeeze_cons2.
    destruct (Ascii.eqb c space && Ascii.eqb d space) eqn:Hcd.
    + apply andb_true_iff in Hcd as [Hc Hd].
      apply Ascii.eqb_eq in Hc as ->. apply Ascii.eqb_eq in Hd as ->.
      destruct (IH r ltac:(lia)) as (Hs & Hh & Hl).
      split; [|split]; [|reflexivity|simpl; lia].
      change (space :: replace_2sp r) with ([space] ++ replace_2sp r).
      change (space :: r) with ([space] ++ r).
      apply squeeze_cong; assumption.
    + destruct (IH (d :: r) ltac:(simpl; lia)) as (Hs & Hh & Hl).
      split; [|split]; [|reflexivity|simpl in *; lia].
      destruct (replace_2sp (d :: r)) as [|d' r'] eqn:E; [discriminate|].
      simpl in Hh. injection Hh as ->.
      rewrite squeeze_cons2, Hcd, Hs. reflexivity.
Qed.

Lemma squeeze_replace_2sp (s : pystr) : squeeze (replace_2sp s) = squeeze s.
Proof. exact (proj1 (replace_2sp_facts (List.length s) s (le_n _))). Qed.

Lemma contains_2sp_cons2 (c d : ascii) (r : pystr) :
  contains [space; space] (c :: d :: r) =
  (Ascii.eqb space c && Ascii.eqb space d) || contains [space; space] (d :: r).
Proof.
  change (contains [space; space] (c :: d :: r))
    with (startswith [space; space] (c :: d :: r) || contains [space; space] (d :: r)).
  simpl startswith. rewrite andb_true_r. reflexivity.
Qed.

Lemma contains_2sp_single (c : ascii) : contains [space; space] [c] = false.
Proof. simpl. rewrite andb_false_r. reflexivity. Qed.

Lemma replace_2sp_shorter (n : nat) (s : pystr) :
  (List.length s <= n)%nat ->
  contains [space; space] s = true ->
  (List.length (replace_2sp s) < List.length s)%nat.
Proof.
  revert s; induction n as [|n IH]; intros s Hlen Hc.
  - destruct s; [discriminate | simpl in Hlen; lia].
  - destruct s as [|c [|d r]];
      [discriminate | rewrite contains_2sp_single in Hc; discriminate |].
    simpl in Hlen. rewrite replace_2sp_cons2.
    rewrite contains_2sp_cons2 in Hc.
    rewrite (Ascii.eqb_sym space c), (Ascii.eqb_sym space d) in Hc.
    destruct (Ascii.eqb c space && Ascii.eqb d space) eqn:Hcd.
    + pose proof (proj2 (proj2 (replace_2sp_facts _ r (le_n _)))). simpl. lia.
    + simpl in Hc. specialize (IH (d :: r) ltac:(simpl; lia) Hc). simpl in *. lia.
Qed.

Lemma squeeze_fixed (s : pystr) :
  contains [space; space] s = false -> squeeze s = s.
Proof.
  induction s as [|c [|d r] IH]; [reflexivity | reflexivity |].
  rewrite contains_2sp_cons2, squeeze_cons2.
  rewrite (Ascii.eqb_sym space c), (Ascii.eqb_sym space d).
  intros H. apply orb_false_iff in H as [-> H]. rewrite (IH H). reflexivity.
Qed.

Lemma squeeze_no_2sp (s : pystr) : contains [space; space] (squeeze s) = false.
Proof.
  induction s as [|c [|d r] IH]; [reflexivity | apply contains_2sp_single |].
  rewrite squeeze_cons2.
  destruct (Ascii.eqb c space && Ascii.eqb d space) eqn:Hcd; [exact IH|].
  pose proof (hd_squeeze (d :: r)) as Hh.
  destruct (squeeze (d :: r)) as [|d' r'] eqn:E; [discriminate|].
  simpl in Hh. injection Hh as ->.
  rewrite contains_2sp_cons2, IH, orb_false_r.
  rewrite (Ascii.eqb_sym space c), (Ascii.eqb_sym space d). exact Hcd.
Qed.

Lemma collapse_loop_squeeze (fuel : nat) (s : pystr) :
  (List.length s <= fuel)%nat -> collapse_loop fuel s = squeeze s.
Proof.
  revert s; induction fuel as [|fuel IH]; intros s Hlen.
  - destruct s; [reflexivity | simpl in Hlen; lia].
  - simpl. destruct (contains [space; space] s) eqn:Hc.
    + pose proof (replace_2sp_shorter _ s (le_n _) Hc).
      rewrite IH by lia. apply squeeze_replace_2sp.
    + symmetry. apply squeeze_fixed. exact Hc.
Qed.

Lemma norm_text_squeeze (s : pystr) : norm_text s = squeeze (lower (strip s)).
Proof. unfold norm_text. apply collapse_loop_squeeze. apply le_n. Qed.

Lemma norm_text_same (s s' : pystr) : same_text s s' -> norm_text s = norm_text s'.
Proof.
  induction 1 as [s s' H | l s r Hl Hr | a b n m Ha Hb Hn Hm | | ].
  - rewrite !norm_text_squeeze, !lower_strip, H. reflexivity.
  - rewrite !norm_text_squeeze, strip_padding by assumption. reflexivity.
  - rewrite !norm_text_squeeze, !strip_inner by assumption.
    rewrite !lower_app, !lower_spaces. apply squeeze_run; assumption.
  - congruence.
  - congruence.
Qed.

End NormText.

(** C8 (amended): [norm_text] trims surrounding whitespace, lowercases, and
    reduces every run of spaces (U+0020) inside the text to one space, leaving
    no two adjacent spaces; two texts that differ only in letter case, in
    surrounding whitespace, or in the length of inner runs of spaces have the
    same normal form and the same fingerprint. *)
Theorem norm_text_fingerprint (s s' : pystr) :
  same_text s s' ->
  norm_text s = squeeze (lower (strip s)) /\
  contains [space; space] (norm_text s) = false /\
  norm_text s = norm_text s' /\
  text_hash s = text_hash s'.
Proof.
  intros H. pose proof (norm_text_same s s' H) as E.
  split; [apply norm_text_squeeze|].
  split; [rewrite norm_text_squeeze; apply squeeze_no_2sp|].
  split; [exact E|].
  unfold text_hash. rewrite E. reflexivity.
Qed.

(** A greeting written with capitals and spare spaces against its plain
    form. *)
Lemma norm_text_fingerprint_witness :
  norm_text (lit "  Hello   World ") = lit "hello world" /\
  text_hash (lit "  Hello   World ") = text_hash (lit "hello world").
Proof.
  assert (H : same_text (lit "  Hello   World ") (lit "hello world")).
  { apply same_trans with (lit "Hello   World").
    - apply (same_padding (lit "  ") (lit "Hello   World") (lit " ")); reflexivity.
    - apply same_trans with (lit "Hello World").
      + apply (same_run (lit "Hello") (lit "World") 3 1); [reflexivity | reflexivity | lia | lia].
      + apply same_case. reflexivity. }
  destruct (norm_text_fingerprint _ _ H) as (_ & _ & E & Eh).
  split; [|exact Eh]. rewrite E. vm_compute. reflexivity.
Defined.

(** C8 as stated fails: a tab inside the text is whitespace, yet it is
    neither turned into a space nor merged with its neighbours. *)
Lemma norm_text_keeps_tabs :
  let tab := "009"%char in
  isspace tab = true /\ isspace space = true /\
  norm_text ["a"; tab; "b"]%char <> norm_text ["a"; space; "b"]%char /\
  text_hash ["a"; tab; "b"]%char <> text_hash ["a"; space; "b"]%char /\
  norm_text ["a"; tab; tab; "b"]%char = ["a"; tab; tab; "b"]%char.
Proof.
  cbv zeta. split; [reflexivity|]. split; [reflexivity|].
  split; [vm_compute; discriminate|].
  split; [vm_compute; discriminate|]. vm_compute. reflexivity.
Qed.

(** ** Sliding windows *)

Section Windows.


Lemma Qgtb_true (a b : Q) : Qgtb a b = true <-> (b < a)%Q.
Proof.
  unfold Qgtb. rewrite negb_true_iff. split.
  - intros H. apply Qnot_le_lt. intros Hle. apply Qle_bool_iff in Hle. congruence.
  - intros H. destruct (Qle_bool a b) eqn:E; [|reflexivity].
    apply Qle_bool_iff in E. lra.
Qed.

Lemma popleft_old_suffix (now : Q) (W : Z) (dq : list Q) :
  exists old, dq = old ++ popleft_old now W dq /\
              forallb (fun t => negb (in_window now W t)) old = true.
Proof.
  induction dq as [|t r (old & E & Hold)]; simpl.
  - exists []. auto.
  - destruct (Qgtb (now - t) (inject_Z W)) eqn:Hg.
    + exists (t :: old). split; [simpl; congruence|].
      simpl. unfold in_window at 1. rewrite Hg. exact Hold.
    + exists []. auto.
Qed.





End Windows.

(** ** The pipeline below the bypass tests *)

Section Pipeline.

Variable tg : Platform.

Lemma upsert_settings (cid uid ts : Z) (un : option pystr) (st : State) (c : Z) :
  get_settings_local (DATA (upsert_activity_local cid uid ts un st)) c =
  get_settings_local (DATA st) c.
Proof. reflexivity. Qed.

(** A checked message goes through to [moderate_checks]. *)
Lemma moderate_all_checked (now : Q) (message : Message) (st : State) (u : User) :
  from_user message = Some u ->
  checked tg (DATA st) message = true ->
  moderate_all tg now message st =
  moderate_checks now (chat_id message) (user_id u)
    (get_settings_local (DATA st) (chat_id message)) message
    (upsert_activity_local (chat_id message) (user_id u) (int_of_float now)
       (user_username u) st).
Proof.
  intros Hu Hc. unfold checked in Hc. rewrite Hu in Hc.
  apply andb_true_iff in Hc as [Hg Hc].
  apply andb_true_iff in Hc as [Hc He].
  apply andb_true_iff in Hc as [Hb Hen].
  apply negb_true_iff in Hb, He.
  unfold exempt in He.
  apply orb_false_iff in He as [He Hp].
  apply orb_false_iff in He as [Hw Hr].
  unfold moderate_all. rewrite Hg, Hu, Hb. cbn [negb].
  rewrite upsert_settings, Hen. cbn [negb].
  change (is_whitelisted (DATA (upsert_activity_local _ _ _ _ st)) ?c ?x)
    with (is_whitelisted (DATA st) c x).
  change (get_effective_role tg (DATA (upsert_activity_local _ _ _ _ st)) ?c ?x)
    with (get_effective_role tg (DATA st) c x).
  rewrite Hw. cbv zeta in Hr. rewrite Hr, Hp. reflexivity.
Qed.

Lemma repeat_check_frame (now : Q) (cid uid mid : Z) (s : ChatSettings) (tnorm : pystr)
    (st : State) :
  let o := repeat_check now cid uid mid s tnorm st in
  msg_times (o_state o) = msg_times st /\ sticker_times (o_state o) = sticker_times st /\
  gif_times (o_state o) = gif_times st /\ album_seen (o_state o) = album_seen st /\
  DATA (o_state o) = DATA st /\
  (o_verdict o = None \/ o_verdict o = Some "repeat"%string).
Proof.
  unfold repeat_check. destruct tnorm as [|c r]; [simpl; auto 10|].
  destruct (default ([], 0) (last_hash st !! (cid, uid))) as [lh cnt].
  destruct (as_int (repeat_limit s)); [|simpl; auto 10].
  destruct (_ >=? _); simpl; auto 10.
Qed.





End Pipeline.


(** The same three messages as tasks on a clock that does not go back: the
    task that read 94 resumes after the one that read 100. *)
Example stale_reading_of_late_task :
  Sorted Qle (readings late_schedule) /\
  List.map o_verdict (fst (serve members_only late_schedule [] strict_state)) =
    [None; None; Some "flood"%string] /\
  msg_times (snd (serve members_only late_schedule [] strict_state)) !! (7, 9) =
    Some [100 # 1; 94 # 1; 105 # 1].
Proof.
  split; [|vm_compute; split; reflexivity].
  cbn [readings late_schedule flat_map app].
  repeat (constructor; [|first [constructor; vm_compute; discriminate | constructor]]).
  constructor.
Qed.



(** ** The duplicate detector *)

Section Repeats.

Variable tg : Platform.

Lemma repeat_check_spec (now : Q) (cid uid mid : Z) (s : ChatSettings) (tnorm : pystr)
    (st : State) (R : Z) :
  tnorm <> [] ->
  repeat_limit s = PInt R ->
  let h := text_hash tnorm in
  let o := repeat_check now cid uid mid s tnorm st in
  last_hash (o_state o) = <[(cid, uid) := (h, run_length st (cid, uid) h + 1)]> (last_hash st) /\
  (o_verdict o = Some "repeat"%string <-> R <= run_length st (cid, uid) h + 1) /\
  DATA (o_state o) = DATA st.
Proof.
  intros Hne HR. cbv zeta. unfold repeat_check, run_length.
  destruct tnorm as [|c r]; [congruence|].
  destruct (default ([], 0) (last_hash st !! (cid, uid))) as [lh cnt].
  rewrite HR. cbn [as_int].
  destruct (bool_decide (text_hash (c :: r) = lh)).
  - destruct (Z.geb_spec (cnt + 1) R); simpl;
      (split; [reflexivity|]; split; [|reflexivity]; split; [lia || discriminate | lia || reflexivity]).
  - destruct (Z.geb_spec 1 R); simpl;
      (split; [reflexivity|]; split; [|reflexivity]; split; [lia || discriminate | lia || reflexivity]).
Qed.

Lemma text_check_past_link (now : Q) (cid uid mid : Z) (s : ChatSettings) (message : Message)
    (st : State) :
  past_link (text_check now cid uid mid s message st) = true ->
  text_check now cid uid mid s message st =
  repeat_check now cid uid mid s (norm_text (message_text message))
    (with_msg_times
       (<[(cid, uid) := fst (rate_check now (flood_window_sec s) (flood_limit s)
                               (default [] (msg_times st !! (cid, uid))))]> (msg_times st))
       st).
Proof.
  unfold text_check.
  destruct (snd (rate_check _ _ _ _)) as [[|]|e]; try discriminate.
  destruct (truthy (block_links s) && _ && _); [discriminate | reflexivity].
Qed.

(** One checked text message that gets past the flood and link checks. *)
Lemma moderate_all_repeat (now : Q) (message : Message) (st : State) (u : User) (R : Z) :
  from_user message = Some u ->
  checked tg (DATA st) message = true ->
  counted_in CatMessage (get_settings_local (DATA st) (chat_id message)) message = true ->
  norm_text (message_text message) <> [] ->
  repeat_limit (get_settings_local (DATA st) (chat_id message)) = PInt R ->
  let key := (chat_id message, user_id u) in
  let h := text_hash (norm_text (message_text message)) in
  let o := moderate_all tg now message st in
  past_link o = true ->
  last_hash (o_state o) = <[key := (h, run_length st key h + 1)]> (last_hash st) /\
  (o_verdict o = Some "repeat"%string <-> R <= run_length st key h + 1) /\
  DATA (o_state o) =
    DATA (upsert_activity_local (chat_id message) (user_id u) (int_of_float now)
            (user_username u) st).
Proof.
  intros Hu Hc Hcat Hne HR. cbv zeta.
  rewrite (moderate_all_checked tg now message st u Hu Hc).
  unfold counted_in in Hcat. apply andb_true_iff in Hcat as [Ha Hcat].
  apply andb_true_iff in Hcat as [Hs Hg]. apply negb_true_iff in Ha, Hs, Hg.
  unfold moderate_checks. rewrite Ha, Hs, Hg. intros Hp.
  rewrite (text_check_past_link _ _ _ _ _ _ _ Hp).
  match goal with |- context [repeat_check ?a ?b ?c ?d ?e ?f ?g] =>
    pose proof (repeat_check_spec a b c d e f g R Hne HR) as H
  end.
  cbv zeta in H. exact H.
Qed.

(** Only a checked message of the text branch gets past the link check. *)
Lemma past_link_checked (now : Q) (message : Message) (st : State) :
  past_link (moderate_all tg now message st) = true ->
  checked tg (DATA st) message = true /\
  counted_in CatMessage (get_settings_local (DATA st) (chat_id message)) message = true.
Proof.
  unfold moderate_all, checked, exempt, counted_in.
  destruct (is_group (chat_type message)); [|discriminate].
  destruct (from_user message) as [u|]; [|discriminate].
  destruct (is_bot u); [discriminate|]. cbv zeta.
  rewrite upsert_settings.
  change (is_whitelisted (DATA (upsert_activity_local _ _ _ _ st)) ?c ?x)
    with (is_whitelisted (DATA st) c x).
  change (get_effective_role tg (DATA (upsert_activity_local _ _ _ _ st)) ?c ?x)
    with (get_effective_role tg (DATA st) c x).
  destruct (truthy (enabled _)); [|discriminate].
  destruct (is_whitelisted _ _ _); [discriminate|].
  destruct (truthy_str _ && role_at_least _ ROLE_MOD); [discriminate|].
  destruct (match tg _ _ with Some _ => _ | None => _ end); [discriminate|].
  unfold moderate_checks.
  destruct (truthy_str (media_group_id message)).
  { unfold album_check. destruct (od_mem _ _); [discriminate|].
    destruct (negb _ && _ && _); discriminate. }
  destruct (sticker message).
  { unfold media_check. destruct (eq_str _ "ban"); [discriminate|].
    destruct (eq_str _ "limit"); [|discriminate].
    destruct (snd (rate_check _ _ _ _)) as [[|]|e]; discriminate. }
  destruct (animation message).
  { unfold media_check. destruct (eq_str _ "ban"); [discriminate|].
    destruct (eq_str _ "limit"); [|discriminate].
    destruct (snd (rate_check _ _ _ _)) as [[|]|e]; discriminate. }
  intros _. split; reflexivity.
Qed.

(** The checks reach the duplicate detector only past the flood and link
    checks, and the detector stores something only for a text that is not
    empty: otherwise the duplicate state stays as it is. *)
Lemma moderate_checks_skips_repeat (now : Q) (cid uid : Z) (s : ChatSettings)
    (message : Message) (st : State) :
  let o := moderate_checks now cid uid s message st in
  past_link o = false \/ norm_text (message_text message) = [] ->
  last_hash (o_state o) = last_hash st /\ o_verdict o <> Some "repeat"%string.
Proof.
  cbv zeta. unfold moderate_checks.
  destruct (truthy_str (media_group_id message)).
  { intros _. unfold album_check. destruct (od_mem _ _); [split; [reflexivity|discriminate]|].
    destruct (negb _ && _ && _); (split; [reflexivity|discriminate]). }
  destruct (sticker message).
  { intros _. unfold media_check.
    destruct (eq_str _ "ban"); [split; [reflexivity|discriminate]|].
    destruct (eq_str _ "limit"); [|split; [reflexivity|discriminate]].
    destruct (snd (rate_check _ _ _ _)) as [[|]|e]; (split; [reflexivity|discriminate]). }
  destruct (animation message).
  { intros _. unfold media_check.
    destruct (eq_str _ "ban"); [split; [reflexivity|discriminate]|].
    destruct (eq_str _ "limit"); [|split; [reflexivity|discriminate]].
    destruct (snd (rate_check _ _ _ _)) as [[|]|e]; (split; [reflexivity|discriminate]). }
  unfold text_check. cbv zeta.
  destruct (snd (rate_check _ _ _ _)) as [[|]|e];
    try (intros _; split; [reflexivity|discriminate]).
  destruct (truthy (block_links s) && _ && _); [intros _; split; [reflexivity|discriminate]|].
  unfold repeat_check.
  destruct (norm_text (message_text message)) as [|c r];
    [intros _; split; [reflexivity|discriminate]|].
  destruct (default ([], 0) (last_hash _ !! (cid, uid))) as [lh cnt].
  destruct (as_int (repeat_limit s)); [destruct (_ >=? _)|];
    (intros [H | H]; [discriminate H | discriminate H]).
Qed.

Lemma moderate_all_skips_repeat (now : Q) (message : Message) (st : State) :
  let o := moderate_all tg now message st in
  past_link o = false \/ norm_text (message_text message) = [] ->
  last_hash (o_state o) = last_hash st /\ o_verdict o <> Some "repeat"%string.
Proof.
  cbv zeta. unfold moderate_all.
  destruct (negb (is_group (chat_type message))); [split; [reflexivity|discriminate]|].
  destruct (from_user message) as [u|]; [|split; [reflexivity|discriminate]].
  destruct (is_bot u); [split; [reflexivity|discriminate]|]. cbv zeta.
  destruct (negb (truthy (enabled _))); [split; [reflexivity|discriminate]|].
  destruct (is_whitelisted _ _ _); [split; [reflexivity|discriminate]|].
  destruct (truthy_str _ && role_at_least _ ROLE_MOD); [split; [reflexivity|discriminate]|].
  destruct (match tg _ _ with Some _ => _ | None => _ end);
    [split; [reflexivity|discriminate]|].
  intros H.
  exact (moderate_checks_skips_repeat now (chat_id message) (user_id u) _ message _ H).
Qed.

(** Which messages get to the duplicate detector, in terms of the message
    and the state it meets. *)
Lemma past_link_iff (now : Q) (message : Message) (st : State) :
  let s := get_settings_local (DATA st) (chat_id message) in
  let tnorm := norm_text (message_text message) in
  past_link (moderate_all tg now message st) = true <->
  checked tg (DATA st) message = true /\
  counted_in CatMessage s message = true /\
  (exists u, from_user message = Some u /\
     snd (rate_check now (flood_window_sec s) (flood_limit s)
            (default [] (msg_times st !! (chat_id message, user_id u)))) = Ok false) /\
  truthy (block_links s) && negb (bool_decide (tnorm = [])) && contains_link tnorm = false.
Proof.
  cbv zeta. split.
  - intros Hp. destruct (past_link_checked now message st Hp) as [Hc Hcat].
    split; [exact Hc|]. split; [exact Hcat|].
    assert (Hu : exists u, from_user message = Some u).
    { unfold checked in Hc. destruct (from_user message) as [u|]; [eauto|].
      rewrite andb_false_r in Hc. discriminate. }
    destruct Hu as [u Hu].
    rewrite (moderate_all_checked tg now message st u Hu Hc) in Hp.
    unfold counted_in in Hcat. apply andb_true_iff in Hcat as [Ha Hcat].
    apply andb_true_iff in Hcat as [Hs Hg]. apply negb_true_iff in Ha, Hs, Hg.
    unfold moderate_checks in Hp. rewrite Ha, Hs, Hg in Hp.
    unfold text_check in Hp. cbv zeta in Hp.
    change (msg_times (upsert_activity_local _ _ _ _ st)) with (msg_times st) in Hp.
    destruct (snd (rate_check _ _ _ _)) as [[|]|e] eqn:Hr; try discriminate Hp.
    destruct (truthy (block_links _) && _ && _) eqn:Hl; [discriminate Hp|].
    split; [|reflexivity]. exists u. split; [exact Hu | exact Hr].
  - intros (Hc & Hcat & (u & Hu & Hr) & Hl).
    rewrite (moderate_all_checked tg now message st u Hu Hc).
    unfold counted_in in Hcat. apply andb_true_iff in Hcat as [Ha Hcat].
    apply andb_true_iff in Hcat as [Hs Hg]. apply negb_true_iff in Ha, Hs, Hg.
    unfold moderate_checks. rewrite Ha, Hs, Hg.
    unfold text_check. cbv zeta.
    change (msg_times (upsert_activity_local _ _ _ _ st)) with (msg_times st).
    rewrite Hr, Hl. unfold repeat_check.
    destruct (norm_text (message_text message)); [reflexivity|].
    destruct (default ([], 0) (last_hash _ !! _)) as [lh cnt].
    destruct (as_int (repeat_limit _)); [destruct (_ >=? _)|]; reflexivity.
Qed.
(** One message that gets past the flood and link checks with a text. *)
Lemma moderate_all_reaches_repeat (now : Q) (message : Message) (st : State) (u : User)
    (R : Z) :
  from_user message = Some u ->
  norm_text (message_text message) <> [] ->
  repeat_limit (get_settings_local (DATA st) (chat_id message)) = PInt R ->
  let key := (chat_id message, user_id u) in
  let h := text_hash (norm_text (message_text message)) in
  let o := moderate_all tg now message st in
  past_link o = true ->
  last_hash (o_state o) = <[key := (h, run_length st key h + 1)]> (last_hash st) /\
  (o_verdict o = Some "repeat"%string <-> R <= run_length st key h + 1) /\
  DATA (o_state o) =
    DATA (upsert_activity_local (chat_id message) (user_id u) (int_of_float now)
            (user_username u) st).
Proof.
  intros Hu Hne HR. cbv zeta. intros Hp.
  destruct (past_link_checked now message st Hp) as [Hc Hcat].
  exact (moderate_all_repeat now message st u R Hu Hc Hcat Hne HR Hp).
Qed.

Lemma run_length_after (key : Z * Z) (h : pystr) (n : Z)
    (m : gmap (Z * Z) (pystr * Z)) (st' : State) :
  last_hash st' = <[key := (h, n)]> m -> run_length st' key h = n.
Proof.
  intros E. unfold run_length. rewrite E, lookup_insert_eq. cbv [default id]. cbv beta iota.
  rewrite bool_decide_eq_true_2 by reflexivity. reflexivity.
Qed.

(** A run of messages of one user in one chat that all carry the normalized
    text [t] and all get past the flood and link checks. *)
Lemma run_reaches_repeat (cid uid R : Z) (t : pystr) (updates : list (Q * Message)) :
  forall (st : State),
  t <> [] ->
  repeat_limit (get_settings_local (DATA st) cid) = PInt R ->
  (forall now m, In (now, m) updates ->
     sent_by cid uid m = true /\ norm_text (message_text m) = t) ->
  (forall k o, nth_error (run tg updates st) k = Some o -> past_link o = true) ->
  forall k o, nth_error (run tg updates st) k = Some o ->
  (o_verdict o = Some "repeat"%string <->
   R <= run_length st (cid, uid) (text_hash t) + Z.of_nat (k + 1)) /\
  last_hash (o_state o) !! (cid, uid) =
    Some (text_hash t, run_length st (cid, uid) (text_hash t) + Z.of_nat (k + 1)).
Proof.
  induction updates as [|[now m] rest IH]; intros st Hne HR Hall Hpast k o Hk.
  - destruct k; discriminate.
  - destruct (Hall now m (or_introl eq_refl)) as (Hsent & Ht).
    unfold sent_by in Hsent. apply andb_true_iff in Hsent as [Hcid Huid].
    apply Z.eqb_eq in Hcid. destruct (from_user m) as [u|] eqn:Hu; [|discriminate].
    apply Z.eqb_eq in Huid. subst cid uid.
    pose proof (Hpast 0%nat _ eq_refl) as Hp0.
    destruct (moderate_all_reaches_repeat now m st u R Hu
                ltac:(rewrite Ht; exact Hne) HR Hp0) as (Hl & Hv & HD).
    rewrite Ht in Hl, Hv.
    simpl in Hk. destruct k as [|k].
    + injection Hk as <-. split.
      * rewrite Hv. simpl. split; lia.
      * rewrite Hl, lookup_insert_eq. do 2 f_equal.
    + simpl in Hk.
      assert (Hs : forall c, get_settings_local (DATA (o_state (moderate_all tg now m st))) c =
                   get_settings_local (DATA st) c).
      { intros c. rewrite HD. apply upsert_settings. }
      specialize (IH (o_state (moderate_all tg now m st)) Hne).
      rewrite Hs in IH. specialize (IH HR).
      destruct (IH ltac:(intros now' m' Hin; exact (Hall now' m' (or_intror Hin)))
                   ltac:(intros k' o' Hk'; exact (Hpast (S k') o' Hk')) k o Hk)
        as (Hv' & Hl').
      rewrite (run_length_after _ _ _ _ _ Hl) in Hv', Hl'.
      split.
      * rewrite Hv'. split; lia.
      * rewrite Hl'. do 2 f_equal. lia.
Qed.

End Repeats.

(** C2 as stated fails: a message that differs from the stored text does
    not always reset the run, and the same text sent [repeat_limit] times
    does not always fire on the last of them. The detector is the last
    step of the text branch and is skipped for a message without text. A
    sticker and a picture without caption between two equal texts leave
    the stored fingerprint and its count, so with [repeat_limit = 2] the
    second text fires. With [flood_limit = 2] below [repeat_limit = 3] the
    third equal text in a row fires the flood violation instead and is not
    counted. A text with a link is stopped by the link check each time and
    never stored. *)
Lemma repeat_run_not_reset :
  let h := text_hash (lit "spam") in
  let count_of := fun o : Outcome => last_hash (o_state o) !! (7, 9) in
  (repeat_limit (get_settings_local (DATA terse_state) 7) = PInt 2 /\
   List.map o_verdict (run members_only mixed_run terse_state) =
     [None; None; None; Some "repeat"%string] /\
   List.map count_of (run members_only mixed_run terse_state) =
     [Some (h, 1); Some (h, 1); Some (h, 1); Some (h, 2)]) /\
  (flood_limit (get_settings_local (DATA tight_state) 7) = PInt 2 /\
   repeat_limit (get_settings_local (DATA tight_state) 7) = PInt 3 /\
   List.map o_verdict (run members_only spam_run tight_state) =
     [None; None; Some "flood"%string] /\
   List.map count_of (run members_only spam_run tight_state) =
     [Some (h, 1); Some (h, 2); Some (h, 2)]) /\
  (List.map o_verdict (run members_only link_run terse_state) =
     [Some "link"%string; Some "link"%string] /\
   List.map count_of (run members_only link_run terse_state) = [None; None]).
Proof. vm_compute. repeat apply conj; reflexivity. Qed.

(** C2 (amended): the duplicate detector is reached exactly by the checked
    messages of the text branch (no album item, sticker or animation) on
    which the flood check neither fires nor raises and the link check does
    not fire, and it stores something only when the normalized text is not
    empty. For such a message it makes the duplicate state of the chat and
    sender the fingerprint of the normalized text with the stored count
    plus 1 when the stored fingerprint is the same, and with 1 when it
    differs; the repeat violation fires exactly when that count is at least
    [repeat_limit]. Every other message leaves the duplicate state as it is
    and fires no repeat violation. Hence, of messages with the same
    normalized text handled one after another that all get to the detector,
    the [k]-th has the count stored for that text before plus [k] and
    fires exactly when that is at least [repeat_limit]: after a different
    text that got to the detector, on the [repeat_limit]-th and not
    before. *)
Theorem repeat_boundary :
  (forall (tg : Platform) (now : Q) (message : Message) (st : State) (u : User) (R : Z),
     from_user message = Some u ->
     norm_text (message_text message) <> [] ->
     repeat_limit (get_settings_local (DATA st) (chat_id message)) = PInt R ->
     let key := (chat_id message, user_id u) in
     let h := text_hash (norm_text (message_text message)) in
     let '(last_h, count) := default ([], 0) (last_hash st !! key) in
     let count' := if bool_decide (h = last_h) then count + 1 else 1 in
     let o := moderate_all tg now message st in
     past_link o = true ->
     last_hash (o_state o) !! key = Some (h, count') /\
     (o_verdict o = Some "repeat"%string <-> R <= count')) /\
  (forall (tg : Platform) (now : Q) (message : Message) (st : State),
     let s := get_settings_local (DATA st) (chat_id message) in
     let tnorm := norm_text (message_text message) in
     let o := moderate_all tg now message st in
     (past_link o = true <->
      checked tg (DATA st) message = true /\
      counted_in CatMessage s message = true /\
      (exists u, from_user message = Some u /\
         snd (rate_check now (flood_window_sec s) (flood_limit s)
                (default [] (msg_times st !! (chat_id message, user_id u)))) = Ok false) /\
      truthy (block_links s) && negb (bool_decide (tnorm = [])) && contains_link tnorm = false) /\
     (past_link o = false \/ tnorm = [] ->
      last_hash (o_state o) = last_hash st /\ o_verdict o <> Some "repeat"%string)) /\
  (forall (tg : Platform) (cid uid R : Z) (t : pystr) (updates : list (Q * Message))
          (st : State),
     t <> [] ->
     repeat_limit (get_settings_local (DATA st) cid) = PInt R ->
     (forall now m, In (now, m) updates ->
        sent_by cid uid m = true /\ norm_text (message_text m) = t) ->
     (forall k o, nth_error (run tg updates st) k = Some o -> past_link o = true) ->
     forall k o, nth_error (run tg updates st) k = Some o ->
     (o_verdict o = Some "repeat"%string <->
      R <= run_length st (cid, uid) (text_hash t) + Z.of_nat (k + 1)) /\
     last_hash (o_state o) !! (cid, uid) =
       Some (text_hash t, run_length st (cid, uid) (text_hash t) + Z.of_nat (k + 1))).
Proof.
  split; [|split].
  - intros tg now message st u R Hu Hne HR. cbv zeta.
    pose proof (moderate_all_reaches_repeat tg now message st u R Hu Hne HR) as H.
    cbv zeta in H. unfold run_length in H.
    destruct (default ([], 0) (last_hash st !! (chat_id message, user_id u))) as [lh cnt].
    intros Hp. destruct (H Hp) as (Hl & Hv & _).
    rewrite Hl, lookup_insert_eq.
    destruct (bool_decide _); split; try reflexivity; exact Hv.
  - intros tg now message st. cbv zeta. split.
    + apply past_link_iff.
    + apply moderate_all_skips_repeat.
  - intros tg cid uid R t updates st Hne HR Hall Hpast k o Hk.
    exact (run_reaches_repeat tg cid uid R t updates st Hne HR Hall Hpast k o Hk).
Qed.

(** The sample repeats against [repeat_limit = 3], then a different text,
    then a sticker. *)
Lemma repeat_boundary_witness :
  (forall k o, nth_error (run members_only sample_repeats sample_state) k = Some o ->
     (o_verdict o = Some "repeat"%string <-> 3 <= Z.of_nat (k + 1)) /\
     last_hash (o_state o) !! (7, 9) = Some (text_hash (lit "buy now"), Z.of_nat (k + 1))) /\
  (let o := moderate_all members_only (120 # 1) (text_message 7 9 4 "other")
              (exec members_only sample_repeats sample_state) in
   last_hash (o_state o) !! (7, 9) = Some (text_hash (lit "other"), 1) /\
   (o_verdict o = Some "repeat"%string <-> 3 <= 1)) /\
  (let st := exec members_only sample_repeats sample_state in
   let o := moderate_all members_only (120 # 1) (sticker_message 7 9 4) st in
   last_hash (o_state o) = last_hash st /\ o_verdict o <> Some "repeat"%string).
Proof.
  assert (Hall : forall now m, In (now, m) sample_repeats ->
            sent_by 7 9 m = true /\ norm_text (message_text m) = lit "buy now").
  { intros now m Hin. simpl in Hin.
    destruct Hin as [E|[E|[E|[]]]]; injection E as _ <-; vm_compute; auto. }
  assert (Hpast : forall k o, nth_error (run members_only sample_repeats sample_state) k = Some o ->
            past_link o = true).
  { intros k o Hk.
    destruct k as [|[|[|k]]]; [| | |destruct k; vm_compute in Hk; discriminate];
      vm_compute in Hk; injection Hk as <-; reflexivity. }
  assert (H0 : run_length sample_state (7, 9) (text_hash (lit "buy now")) = 0).
  { vm_compute. reflexivity. }
  destruct repeat_boundary as (Hone & Hskip & Hseq).
  split; [|split].
  - intros k o Hk.
    destruct (Hseq members_only 7 9 3 (lit "buy now") sample_repeats sample_state
                ltac:(discriminate) eq_refl Hall Hpast k o Hk) as [Hv Hl].
    rewrite H0 in Hv, Hl. rewrite Z.add_0_l in Hv, Hl. split; [exact Hv | exact Hl].
  - pose proof (Hone members_only (120 # 1) (text_message 7 9 4 "other")
                  (exec members_only sample_repeats sample_state) (sample_user 9) 3
                  eq_refl ltac:(vm_compute; discriminate) eq_refl) as H.
    vm_compute in H |- *. exact (H eq_refl).
  - cbv zeta.
    apply (proj2 (Hskip members_only (120 # 1) (sticker_message 7 9 4)
                    (exec members_only sample_repeats sample_state))).
    left. vm_compute. reflexivity.
Defined.

(** ** Authorization *)

(** C3 as stated fails: an actor without a role may moderate a moderator,
    whose rank is higher, and a user without a role one of the same rank. *)
Lemma roleless_actor_may_moderate :
  effective_rank members_only sample_data 7 1 = -1 /\
  effective_rank members_only sample_data 7 2 = 1 /\
  effective_rank members_only sample_data 7 2 >= effective_rank members_only sample_data 7 1 /\
  ensure_can_moderate_target members_only sample_data 7 1 2 = true /\
  effective_rank members_only sample_data 7 5 >= effective_rank members_only sample_data 7 1 /\
  ensure_can_moderate_target members_only sample_data 7 1 5 = true.
Proof. vm_compute. repeat split; discriminate. Qed.

(** C3 (amended): [ensure_can_moderate_target] returns false exactly when
    the platform reports the target as creator or administrator, or when
    actor and target both have an effective role and the rank of the
    target's is at least the rank of the actor's; when the actor or the
    target has no role the ranks are not compared. *)
Theorem ensure_can_moderate_target_spec (tg : Platform) (D : Data) (chat actor target : Z) :
  ensure_can_moderate_target tg D chat actor target = false <->
  (tg chat target = Some "creator"%string \/ tg chat target = Some "administrator"%string) \/
  (exists a t,
     get_effective_role tg D chat actor = Some a /\ a <> ""%string /\
     get_effective_role tg D chat target = Some t /\ t <> ""%string /\
     rank_get t >= rank_get a).
Proof.
  unfold ensure_can_moderate_target.
  destruct (tg chat target) as [status|] eqn:Htg.
  - destruct (String.eqb_spec status "creator") as [->|Hc]; simpl.
    { split; auto. }
    destruct (String.eqb_spec status "administrator") as [->|Ha]; simpl.
    { split; auto. }
    split.
    + intros H. right.
      destruct (get_effective_role tg D chat actor) as [a|]; [|discriminate].
      destruct (get_effective_role tg D chat target) as [t|]; [|discriminate].
      simpl in H.
      destruct (String.eqb_spec a ""); [discriminate|].
      destruct (String.eqb_spec t ""); [discriminate|]. simpl in H.
      destruct (Z.geb_spec (rank_get t) (rank_get a)); [|discriminate].
      exists a, t. repeat split; auto. lia.
    + intros [[H|H]|(a & t & -> & Ha' & -> & Ht & Hr)]; try congruence.
      simpl. destruct (String.eqb_spec a ""); [congruence|].
      destruct (String.eqb_spec t ""); [congruence|]. simpl.
      destruct (Z.geb_spec (rank_get t) (rank_get a)); [reflexivity | lia].
  - split.
    + intros H. right.
      destruct (get_effective_role tg D chat actor) as [a|]; [|discriminate].
      destruct (get_effective_role tg D chat target) as [t|]; [|discriminate].
      simpl in H.
      destruct (String.eqb_spec a ""); [discriminate|].
      destruct (String.eqb_spec t ""); [discriminate|]. simpl in H.
      destruct (Z.geb_spec (rank_get t) (rank_get a)); [|discriminate].
      exists a, t. repeat split; auto. lia.
    + intros [[H|H]|(a & t & -> & Ha' & -> & Ht & Hr)]; try congruence.
      simpl. destruct (String.eqb_spec a ""); [congruence|].
      destruct (String.eqb_spec t ""); [congruence|]. simpl.
      destruct (Z.geb_spec (rank_get t) (rank_get a)); [reflexivity | lia].
Qed.

(** ** Exempt senders *)

(** C4: a message whose sender is on the chat's whitelist, or whose
    effective role is at least moderator, or whom the platform reports as
    administrator or creator, causes no call to the platform, no verdict and
    no exception, and leaves the message, sticker and animation windows, the
    duplicate state and the album state as they were. *)
Theorem exempt_sender_untouched (tg : Platform) (now : Q) (message : Message) (st : State)
    (u : User) :
  from_user message = Some u ->
  (is_whitelisted (DATA st) (chat_id message) (user_id u) = true \/
   role_at_least (get_effective_role tg (DATA st) (chat_id message) (user_id u)) ROLE_MOD = true \/
   tg (chat_id message) (user_id u) = Some "administrator"%string \/
   tg (chat_id message) (user_id u) = Some "creator"%string) ->
  let o := moderate_all tg now message st in
  o_effects o = [] /\ o_verdict o = None /\ o_exn o = None /\
  msg_times (o_state o) = msg_times st /\
  sticker_times (o_state o) = sticker_times st /\
  gif_times (o_state o) = gif_times st /\
  last_hash (o_state o) = last_hash st /\
  album_seen (o_state o) = album_seen st.
Proof.
  intros Hu Hex. cbv zeta. unfold moderate_all. rewrite Hu.
  destruct (negb (is_group (chat_type message))); [simpl; auto 10|].
  destruct (is_bot u); [simpl; auto 10|].
  destruct (negb (truthy (enabled _))); [simpl; auto 10|].
  change (is_whitelisted (DATA (upsert_activity_local _ _ _ _ st)) ?c ?x)
    with (is_whitelisted (DATA st) c x).
  change (get_effective_role tg (DATA (upsert_activity_local _ _ _ _ st)) ?c ?x)
    with (get_effective_role tg (DATA st) c x).
  destruct (is_whitelisted (DATA st) (chat_id message) (user_id u)) eqn:Hw; [simpl; auto 10|].
  destruct Hex as [Hex|[Hex|Hex]]; [discriminate| |].
  - rewrite Hex.
    assert (Ht : truthy_str (get_effective_role tg (DATA st) (chat_id message) (user_id u)) = true).
    { destruct (get_effective_role tg (DATA st) (chat_id message) (user_id u)) as [r|];
        [|discriminate]. simpl.
      destruct (String.eqb_spec r ""); [subst; vm_compute in Hex; discriminate | reflexivity]. }
    rewrite Ht. simpl. auto 10.
  - destruct (truthy_str _ && role_at_least _ ROLE_MOD); [simpl; auto 10|].
    destruct Hex as [->| ->]; simpl; auto 10.
Qed.

(** A link sent into a full window: flagged for user 8, ignored for user 9,
    who is on the whitelist. *)
Lemma exempt_sender_untouched_witness :
  let m := text_message 7 9 6 "join http://spam.example now" in
  let o := moderate_all members_only (106 # 1) m sample_loaded in
  is_whitelisted (DATA sample_loaded) 7 9 = true /\
  o_verdict (moderate_all members_only (106 # 1) (text_message 7 8 6 "join http://spam.example now")
               sample_loaded) = Some "link"%string /\
  o_effects o = [] /\ o_verdict o = None /\ o_exn o = None /\
  msg_times (o_state o) = msg_times sample_loaded /\
  sticker_times (o_state o) = sticker_times sample_loaded /\
  gif_times (o_state o) = gif_times sample_loaded /\
  last_hash (o_state o) = last_hash sample_loaded /\
  album_seen (o_state o) = album_seen sample_loaded.
Proof.
  cbv zeta. split; [reflexivity|]. split; [vm_compute; reflexivity|].
  apply (exempt_sender_untouched members_only (106 # 1)
           (text_message 7 9 6 "join http://spam.example now") sample_loaded (sample_user 9)).
  - reflexivity.
  - left. vm_compute. reflexivity.
Defined.

(** ** The warning ledger *)

Section Warns.


End Warns.



(** ** The settings registry *)

Section Settings.

Lemma allowed_names (field : string) :
  field ∈ dom (asdict DEFAULT) <-> In field FIELD_NAMES.
Proof.
  unfold asdict. rewrite dom_list_to_map_L, elem_of_list_to_set, list_elem_of_In.
  reflexivity.
Qed.

Lemma field_value_of (d : gmap string pyval) (name : string) :
  In name FIELD_NAMES ->
  field_value (ChatSettings_of d) name = Some (default PNone (d !! name)).
Proof.
  intros H. unfold field_value, asdict, asdict_items, ChatSettings_of. cbn [list_to_map foldr].
  cbn [enabled flood_limit flood_window_sec repeat_limit block_links sticker_mode gif_mode
       sticker_limit gif_limit media_window_sec action mute_seconds cleanup_enabled
       cleanup_days cleanup_mode fst snd uncurry].
  simpl in H.
  repeat (destruct H as [<-|H];
          [repeat (rewrite lookup_insert_ne by discriminate); apply lookup_insert_eq|]).
  destruct H.
Qed.

Lemma overlay_lookup (raw : gmap string pyval) (name : string) :
  In name FIELD_NAMES ->
  (filter (fun kv => fst kv ∈ dom (asdict DEFAULT)) raw ∪ asdict DEFAULT) !! name =
  match raw !! name with
  | Some v => Some v
  | None => asdict DEFAULT !! name
  end.
Proof.
  intros H. rewrite lookup_union, map_lookup_filter.
  destruct (raw !! name) as [v|] eqn:E; simpl.
  - rewrite option_guard_True by (apply allowed_names; exact H).
    destruct (asdict DEFAULT !! name); reflexivity.
  - destruct (asdict DEFAULT !! name); reflexivity.
Qed.

(** What [get_settings_local] reads under a field name: the stored value
    when the chat has a dictionary with that key, the default otherwise. *)
Lemma get_settings_field (D : Data) (chat : Z) (name : string) :
  In name FIELD_NAMES ->
  field_value (get_settings_local D chat) name =
  match d_settings D !! chat with
  | Some (SDict raw) =>
      match raw !! name with
      | Some v => Some v
      | None => field_value DEFAULT name
      end
  | _ => field_value DEFAULT name
  end.
Proof.
  intros H. unfold get_settings_local.
  destruct (d_settings D !! chat) as [[raw|]|]; try reflexivity.
  rewrite (field_value_of _ _ H), (overlay_lookup _ _ H).
  destruct (raw !! name) as [v|]; [reflexivity|].
  unfold field_value.
  assert (Hs : is_Some (asdict DEFAULT !! name)).
  { apply elem_of_dom, allowed_names. exact H. }
  destruct Hs as [v ->]. reflexivity.
Qed.
Lemma set_setting_local_bad (fs_ok : bool) (chat : Z) (field : string) (value : pyval)
    (st : State) :
  ~ In field FIELD_NAMES ->
  set_setting_local fs_ok chat field value st = (st, Some ValueError).
Proof.
  intros H. unfold set_setting_local.
  rewrite bool_decide_eq_false_2; [reflexivity|].
  intros Hin. apply H, allowed_names. exact Hin.
Qed.

Lemma set_setting_local_ok (fs_ok : bool) (chat : Z) (field : string) (value : pyval)
    (st : State) :
  In field FIELD_NAMES ->
  let cur := match d_settings (DATA st) !! chat with
             | Some (SDict d) => d
             | _ => asdict DEFAULT
             end in
  let D' := {| d_settings := <[chat := SDict (<[field := value]> cur)]> (d_settings (DATA st));
               d_roles := d_roles (DATA st); d_warns := d_warns (DATA st);
               d_activity := d_activity (DATA st); d_whitelist := d_whitelist (DATA st) |} in
  set_setting_local fs_ok chat field value st = (save_data fs_ok (with_DATA D' st), None).
Proof.
  intros H. cbv zeta. unfold set_setting_local.
  rewrite bool_decide_eq_true_2 by (apply allowed_names; exact H). reflexivity.
Qed.

Lemma save_data_DATA (fs_ok : bool) (st : State) : DATA (save_data fs_ok st) = DATA st.
Proof. destruct fs_ok; reflexivity. Qed.

End Settings.

(** C7: [set_setting_local] raises exactly when the field is not one of the
    field names of [ChatSettings], and then leaves the state, the file
    included, as it was; for a field name it stores the value in the chat's
    settings dictionary, created from the defaults when the chat has none,
    so that the value is what [get_settings_local] reads for that field
    while every other field, every other chat and every other part of
    [DATA] read as before, and it writes the snapshot to the file (when the
    write succeeds). *)
Theorem set_setting_local_spec (fs_ok : bool) (chat : Z) (field : string) (value : pyval)
    (st : State) :
  let r := set_setting_local fs_ok chat field value st in
  (snd r <> None <-> ~ In field FIELD_NAMES) /\
  (~ In field FIELD_NAMES -> snd r = Some ValueError /\ fst r = st) /\
  (In field FIELD_NAMES ->
     snd r = None /\
     field_value (get_settings_local (DATA (fst r)) chat) field = Some value /\
     (forall name, In name FIELD_NAMES -> name <> field ->
        field_value (get_settings_local (DATA (fst r)) chat) name =
        field_value (get_settings_local (DATA st) chat) name) /\
     (forall c, c <> chat -> d_settings (DATA (fst r)) !! c = d_settings (DATA st) !! c) /\
     d_settings (DATA (fst r)) !! chat =
       Some (SDict (<[field := value]>
                      match d_settings (DATA st) !! chat with
                      | Some (SDict d) => d
                      | _ => asdict DEFAULT
                      end)) /\
     (d_roles (DATA (fst r)) = d_roles (DATA st) /\ d_warns (DATA (fst r)) = d_warns (DATA st) /\
      d_activity (DATA (fst r)) = d_activity (DATA st) /\
      d_whitelist (DATA (fst r)) = d_whitelist (DATA st)) /\
     (fs_ok = true -> disk (fst r) = Some (DATA (fst r)))).
Proof.
  cbv zeta.
  destruct (in_dec string_dec field FIELD_NAMES) as [Hin|Hout].
  - pose proof (set_setting_local_ok fs_ok chat field value st Hin) as E. cbv zeta in E.
    rewrite E. cbn [fst snd]. rewrite save_data_DATA.
    split; [split; [congruence | contradiction]|].
    split; [contradiction|]. intros _.
    split; [reflexivity|].
    split.
    { rewrite (get_settings_field _ _ _ Hin). cbn [DATA with_DATA d_settings].
      rewrite !lookup_insert_eq. reflexivity. }
    split.
    { intros name Hname Hne.
      rewrite !(get_settings_field _ _ _ Hname). cbn [DATA with_DATA d_settings].
      rewrite lookup_insert_eq, lookup_insert_ne by congruence.
      destruct (d_settings (DATA st) !! chat) as [[d|]|]; try reflexivity.
      - unfold field_value. destruct (asdict DEFAULT !! name); reflexivity.
      - unfold field_value. destruct (asdict DEFAULT !! name); reflexivity. }
    split.
    { intros c Hc. cbn [DATA with_DATA d_settings]. rewrite lookup_insert_ne by congruence.
      reflexivity. }
    split; [cbn [DATA with_DATA d_settings]; apply lookup_insert_eq|].
    split; [auto|].
    intros ->. reflexivity.
  - rewrite (set_setting_local_bad fs_ok chat field value st Hout). cbn [fst snd].
    split; [split; [auto | discriminate]|].
    split; [auto|]. contradiction.
Qed.

(** A field name and a misspelt one. *)
Lemma set_setting_local_spec_witness :
  (let r := set_setting_local true 7 "flood_limit" (PInt 9) INIT in
   snd r = None /\
   flood_limit (get_settings_local (DATA (fst r)) 7) = PInt 9 /\
   disk (fst r) = Some (DATA (fst r))) /\
  (let r := set_setting_local true 7 "flood_limt" (PInt 9) INIT in
   snd r = Some ValueError /\ fst r = INIT).
Proof.
  cbv zeta. split.
  - destruct (set_setting_local_spec true 7 "flood_limit" (PInt 9) INIT) as (_ & _ & H).
    destruct (H ltac:(simpl; auto)) as (H1 & H2 & _ & _ & _ & _ & H7).
    split; [exact H1|]. split; [|exact (H7 eq_refl)].
    vm_compute. reflexivity.
  - destruct (set_setting_local_spec true 7 "flood_limt" (PInt 9) INIT) as (_ & H & _).
    apply H. simpl. intros Hin. repeat (destruct Hin as [Hin|Hin]; [discriminate|]). exact Hin.
Defined.

(** ** Stable sorting and ordered dictionaries *)

Section Sorting.

Context {A : Type} (before : A -> A -> bool).

Lemma insert_stable_perm (x : A) (l : list A) :
  Permutation (insert_stable before x l) (x :: l).
Proof.
  induction l as [|y r IH]; simpl; [reflexivity|].
  destruct (before y x); [|reflexivity].
  rewrite IH. apply perm_swap.
Qed.

Lemma stable_sort_perm (l : list A) : Permutation (stable_sort before l) l.
Proof.
  induction l as [|x r IH]; simpl; [reflexivity|].
  rewrite insert_stable_perm. constructor. exact IH.
Qed.

Lemma stable_sort_length (l : list A) : List.length (stable_sort before l) = List.length l.
Proof. apply Permutation_length, stable_sort_perm. Qed.

Lemma stable_sort_In (x : A) (l : list A) : In x (stable_sort before l) <-> In x l.
Proof.
  split; apply Permutation_in; [|symmetry]; apply stable_sort_perm.
Qed.

(** An element that does not sort before [x] stays behind it. *)
Lemma insert_stable_stop (x y : A) (a b : list A) :
  before y x = false ->
  insert_stable before x (a ++ y :: b) = insert_stable before x a ++ y :: b.
Proof.
  intros H. induction a as [|z a IH]; simpl.
  - rewrite H. reflexivity.
  - destruct (before z x); [rewrite IH|]; reflexivity.
Qed.

(** Elements that all sort before [x] are passed over. *)
Lemma insert_stable_skip (x : A) (a b : list A) :
  forallb (fun z => before z x) a = true ->
  insert_stable before x (a ++ b) = a ++ insert_stable before x b.
Proof.
  induction a as [|z a IH]; simpl; [reflexivity|].
  intros H. apply andb_true_iff in H as [-> H]. rewrite IH by exact H. reflexivity.
Qed.

Lemma insert_stable_length (x : A) (l : list A) :
  List.length (insert_stable before x l) = S (List.length l).
Proof. apply (Permutation_length (insert_stable_perm x l)). Qed.


End Sorting.

Section Odict.

Context {K V : Type} `{EqDecision K}.





End Odict.

Lemma firstn_incl {A : Type} (n : nat) (l : list A) (x : A) :
  In x (firstn n l) -> In x l.
Proof.
  revert l; induction n as [|n IH]; intros [|y l]; simpl; try tauto.
  intros [H|H]; [left; exact H | right; apply IH; exact H].
Qed.

(** ** Albums *)

Section Albums.

Variable tg : Platform.







End Albums.



(** ** Activity pruning *)

Section Pruning.

#[local] Abbreviation newer := (fun y x : Z * Z => snd y >? snd x).
#[local] Abbreviation recent_first := (StronglySorted (fun a b : Z * Z => snd a >= snd b)).

Lemma insert_newer_sorted (x : Z * Z) (l : list (Z * Z)) :
  recent_first l -> recent_first (insert_stable newer x l).
Proof.
  induction 1 as [|y r Hr IH Hall]; simpl.
  - repeat constructor.
  - destruct (Z.gtb_spec (snd y) (snd x)) as [Hgt|Hle].
    + constructor; [exact IH|].
      rewrite Forall_forall in Hall |- *. intros z Hz.
      apply list_elem_of_In in Hz.
      apply (Permutation_in _ (insert_stable_perm newer x r)) in Hz.
      destruct Hz as [<-|Hz]; [lia|]. apply Hall, list_elem_of_In. exact Hz.
    + constructor; [constructor; assumption|].
      constructor; [lia|].
      rewrite Forall_forall in Hall |- *. intros z Hz. specialize (Hall z Hz). lia.
Qed.

Lemma sort_recent_first_sorted (items : list (Z * Z)) :
  recent_first (sort_recent_first items).
Proof.
  unfold sort_recent_first. induction items as [|x r IH]; simpl; [constructor|].
  apply insert_newer_sorted. exact IH.
Qed.

Lemma filter_length_perm {A : Type} (f : A -> bool) (l l' : list A) :
  Permutation l l' -> List.length (List.filter f l) = List.length (List.filter f l').
Proof.
  induction 1 as [|x l l' _ IH|x y l|l1 l2 l3 _ IH1 _ IH2]; simpl.
  - reflexivity.
  - destruct (f x); simpl; congruence.
  - destruct (f x), (f y); reflexivity.
  - congruence.
Qed.

Lemma filter_none {A : Type} (f : A -> bool) (l : list A) :
  (forall z, In z l -> f z = false) -> List.filter f l = [].
Proof.
  induction l as [|y r IH]; intros H; simpl; [reflexivity|].
  rewrite (H y (or_introl eq_refl)). apply IH. intros z Hz. apply H. right. exact Hz.
Qed.

(** Where [insert_stable] puts an element in a list sorted most recent
    first: behind the strictly more recent ones. *)
Lemma insert_newer_position (x : Z * Z) (l : list (Z * Z)) :
  recent_first l ->
  exists a b, insert_stable newer x l = a ++ x :: b /\
              List.length a = List.length (List.filter (fun y => snd y >? snd x) l).
Proof.
  induction 1 as [|y r Hr (a & b & E & Hlen) Hall]; simpl.
  - exists [], []. auto.
  - destruct (Z.gtb_spec (snd y) (snd x)) as [Hgt|Hle].
    + exists (y :: a), b. rewrite E. simpl. auto.
    + exists [], (y :: r). split; [reflexivity|].
      rewrite filter_none; [reflexivity|].
      intros z Hz. rewrite Forall_forall in Hall.
      specialize (Hall z ltac:(apply list_elem_of_In; exact Hz)).
      rewrite Z.gtb_ltb. apply Z.ltb_ge. lia.
Qed.

(** The place of an entry after the sort is the number of entries ahead of
    it. *)
Lemma sort_position (items : list (Z * Z)) (uid ts : Z) :
  NoDup (List.map fst items) ->
  In (uid, ts) items ->
  exists a b, sort_recent_first items = a ++ (uid, ts) :: b /\
              List.length a = ahead items uid ts.
Proof.
  induction items as [|p rest IH]; intros Hnd Hin; [destruct Hin|].
  simpl in Hnd. apply NoDup_cons in Hnd as [Hp Hnd].
  unfold sort_recent_first in *. simpl stable_sort. cbn [ahead].
  destruct (Z.eqb_spec (fst p) uid) as [Heq|Hne].
  - assert (Hpe : p = (uid, ts)).
    { destruct Hin as [H|H]; [exact H|]. exfalso. apply Hp. rewrite Heq.
      apply list_elem_of_In. apply in_map_iff. exists (uid, ts). auto. }
    subst p.
    destruct (insert_newer_position (uid, ts) (stable_sort newer rest)
                (sort_recent_first_sorted rest)) as (a & b & E & Hlen).
    exists a, b. split; [exact E|]. rewrite Hlen.
    apply filter_length_perm, stable_sort_perm.
  - destruct Hin as [H|Hin]; [subst p; simpl in Hne; congruence|].
    destruct (IH Hnd Hin) as (a & b & E & Hlen). rewrite E.
    destruct (Z.geb_spec (snd p) ts) as [Hge|Hlt].
    + exists (insert_stable newer p a), b. split.
      * apply insert_stable_stop. simpl. rewrite Z.gtb_ltb. apply Z.ltb_ge. lia.
      * rewrite insert_stable_length, Hlen. reflexivity.
    + exists a, (insert_stable newer p b). split.
      * change (a ++ (uid, ts) :: b) with (a ++ [(uid, ts)] ++ b).
        rewrite app_assoc, insert_stable_skip, <- app_assoc; [reflexivity|].
        pose proof (sort_recent_first_sorted rest) as Hs.
        unfold sort_recent_first in Hs. rewrite E in Hs.
        apply forallb_forall. intros z Hz. apply Z.gtb_lt.
        apply in_app_or in Hz as [Hz|[<-|[]]]; [|simpl; lia].
        assert (Hza : snd z >= ts).
        { clear -Hs Hz. induction a as [|a0 a IHa]; [destruct Hz|].
          simpl in Hs. apply StronglySorted_inv in Hs as [Hs Hall].
          destruct Hz as [->|Hz]; [|exact (IHa Hs Hz)].
          rewrite Forall_forall in Hall.
          apply (Hall (uid, ts)). apply list_elem_of_In, in_or_app. right. left. reflexivity. }
        lia.
      * rewrite Hlen. reflexivity.
Qed.
Lemma in_firstn_split (N : nat) (a b : list (Z * Z)) (uid ts : Z) :
  NoDup (List.map fst (a ++ (uid, ts) :: b)) ->
  In uid (List.map fst (firstn N (a ++ (uid, ts) :: b))) <-> (List.length a < N)%nat.
Proof.
  intros Hnd. split.
  - intros Hin. destruct (Nat.lt_ge_cases (List.length a) N) as [|Hge]; [assumption|].
    exfalso. rewrite firstn_app in Hin.
    replace (N - List.length a)%nat with 0%nat in Hin by lia.
    simpl in Hin. rewrite app_nil_r in Hin.
    apply in_map_iff in Hin as (kv & Hk & Hkv). apply firstn_incl in Hkv.
    rewrite List.map_app in Hnd. apply NoDup_app in Hnd as (_ & Hd & _).
    apply (Hd uid).
    + apply list_elem_of_In, in_map_iff. eauto.
    + simpl. left.
  - intros Hlt. rewrite firstn_app, List.map_app. apply in_or_app. right.
    destruct (N - List.length a)%nat as [|n] eqn:E; [lia|]. simpl. auto.
Qed.

Lemma activity_items_In (users : odict Z activity_entry) (uid ts : Z) :
  In (uid, ts) (activity_items users) <->
  exists e, In (uid, e) users /\ entry_ts e = Some ts.
Proof.
  unfold activity_items. induction users as [|[u e] r IH]; simpl.
  - split; [tauto | intros (e & [] & _)].
  - unfold entry_ts in *. simpl.
    destruct e as [t un|]; simpl.
    + destruct (as_int t) as [z|] eqn:Ez; simpl.
      * rewrite IH. split.
        -- intros [H|(e & He & Hts)]; [injection H as -> ->; eauto|eauto].
        -- intros (e & [H|He] & Hts); [|eauto].
           injection H as -> <-. simpl in Hts. left. congruence.
      * rewrite IH. split.
        -- intros (e & He & Hts). eauto.
        -- intros (e & [H|He] & Hts); [|eauto].
           injection H as -> <-. simpl in Hts. congruence.
    + rewrite IH. split.
      * intros (e & He & Hts). eauto.
      * intros (e & [H|He] & Hts); [|eauto]. injection H as -> <-. discriminate.
Qed.

Lemma activity_items_keys (users : odict Z activity_entry) (uid : Z) :
  In uid (List.map fst (activity_items users)) -> In uid (List.map fst users).
Proof.
  intros H. apply in_map_iff in H as ([u ts] & <- & Hin).
  apply activity_items_In in Hin as (e & He & _).
  apply in_map_iff. exists (u, e). auto.
Qed.

Lemma activity_items_NoDup (users : odict Z activity_entry) :
  NoDup (List.map fst users) -> NoDup (List.map fst (activity_items users)).
Proof.
  unfold activity_items. induction users as [|[u e] r IH]; simpl; intros Hnd; [constructor|].
  apply NoDup_cons in Hnd as [Hu Hnd].
  destruct (match e with AInfo ts _ => _ | AOther => None end) as [[u' t]|] eqn:E; simpl;
    [|exact (IH Hnd)].
  assert (u' = u) as ->.
  { destruct e as [ts un|]; [|discriminate]. simpl in E.
    destruct (as_int ts); [|discriminate]. simpl in E. congruence. }
  apply NoDup_cons. split; [|exact (IH Hnd)].
  intros Hin. apply Hu. apply list_elem_of_In, activity_items_keys, list_elem_of_In. exact Hin.
Qed.

Lemma entry_unique (users : odict Z activity_entry) (uid : Z) (e e' : activity_entry) :
  NoDup (List.map fst users) -> In (uid, e) users -> In (uid, e') users -> e = e'.
Proof.
  induction users as [|[u x] r IH]; simpl; intros Hnd H1 H2; [destruct H1|].
  apply NoDup_cons in Hnd as [Hu Hnd].
  assert (Hk : forall y, In (u, y) r -> False).
  { intros y Hy. apply Hu, list_elem_of_In, in_map_iff. exists (u, y). auto. }
  destruct H1 as [H1|H1], H2 as [H2|H2].
  - congruence.
  - injection H1 as -> ->. destruct (Hk _ H2).
  - injection H2 as -> ->. destruct (Hk _ H1).
  - exact (IH Hnd H1 H2).
Qed.

Lemma filter_sublist {A : Type} (f : A -> bool) (l : list A) : sublist (List.filter f l) l.
Proof.
  induction l as [|x r IH]; simpl; [constructor|].
  destruct (f x); [apply sublist_skip | apply sublist_cons]; exact IH.
Qed.

Lemma sorted_keys_NoDup (items : list (Z * Z)) :
  NoDup (List.map fst items) -> NoDup (List.map fst (sort_recent_first items)).
Proof.
  intros H. unfold sort_recent_first.
  rewrite (Permutation_map fst (stable_sort_perm newer items)). exact H.
Qed.

(** The keys [prune_activity_once] keeps for a chat. *)
Lemma keep_keys_spec (cutoff : Z) (users : odict Z activity_entry) (uid : Z) :
  NoDup (List.map fst users) ->
  uid ∈ keep_keys cutoff users <->
  exists ts, In (uid, ts) (activity_items users) /\
             (cutoff <= ts \/ among_most_recent users uid ts).
Proof.
  intros Hnd. pose proof (activity_items_NoDup users Hnd) as Hni.
  unfold keep_keys, among_most_recent.
  set (items := activity_items users) in *.
  rewrite elem_of_union, !elem_of_list_to_set, !list_elem_of_In. split.
  - intros [H|H].
    + apply in_map_iff in H as ([u ts] & <- & Hin). apply filter_In in Hin as [Hin Hc].
      apply stable_sort_In in Hin. exists ts. split; [exact Hin|]. left. simpl in Hc. lia.
    + assert (Hin := H). apply in_map_iff in Hin as ([u ts] & Hu & Hin).
      simpl in Hu. subst u. apply firstn_incl, stable_sort_In in Hin.
      exists ts. split; [exact Hin|]. right.
      destruct (sort_position items uid ts Hni Hin) as (a & b & E & Hlen).
      rewrite <- Hlen. rewrite E in H. apply in_firstn_split in H; [exact H|].
      rewrite <- E. apply sorted_keys_NoDup. exact Hni.
  - intros (ts & Hin & [Hc|Hr]).
    + left. apply in_map_iff. exists (uid, ts). split; [reflexivity|].
      apply filter_In. split; [apply stable_sort_In; exact Hin | simpl; lia].
    + right. destruct (sort_position items uid ts Hni Hin) as (a & b & E & Hlen).
      rewrite E. apply in_firstn_split; [|lia].
      rewrite <- E. apply sorted_keys_NoDup. exact Hni.
Qed.

Lemma prune_users_In (cutoff : Z) (users : odict Z activity_entry) (uid : Z)
    (e : activity_entry) :
  NoDup (List.map fst users) ->
  In (uid, e) (prune_users cutoff users) <->
  In (uid, e) users /\ uid ∈ keep_keys cutoff users.
Proof.
  intros Hnd. unfold prune_users.
  destruct (bool_decide (size (keep_keys cutoff users) ≠ List.length users)) eqn:Hsz.
  - rewrite filter_In, bool_decide_eq_true. reflexivity.
  - apply bool_decide_eq_false in Hsz. apply dec_stable in Hsz.
    split; [|tauto]. intros Hin. split; [exact Hin|].
    assert (Hsub : keep_keys cutoff users ⊆ list_to_set (List.map fst users)).
    { intros k Hk. apply keep_keys_spec in Hk as (ts & Hk & _); [|exact Hnd].
      apply elem_of_list_to_set, list_elem_of_In, activity_items_keys, in_map_iff.
      exists (k, ts). auto. }
    assert (Heq : keep_keys cutoff users = list_to_set (List.map fst users)).
    { apply set_subseteq_size_eq; [exact Hsub|].
      rewrite size_list_to_set by exact Hnd. rewrite length_map. lia. }
    rewrite Heq. apply elem_of_list_to_set, list_elem_of_In, in_map_iff.
    exists (uid, e). auto.
Qed.

End Pruning.

(** C9: one pruning pass keeps, in every chat, exactly the activity records
    whose last-seen time is not before the cutoff (now minus
    [ACTIVITY_KEEP_DAYS] days) or that are among the [ACTIVITY_MAX_PER_CHAT]
    most recently seen of the chat; every other record, the ones without an
    integer last-seen time included, is deleted, and the records kept stay
    in their order. *)
Theorem prune_activity_once_spec (fs_ok : bool) (now : Q) (st : State) (chat : Z)
    (users : odict Z activity_entry) :
  d_activity (DATA st) !! chat = Some users ->
  NoDup (List.map fst users) ->
  let cutoff := int_of_float now - ACTIVITY_KEEP_DAYS * 86400 in
  exists users',
    d_activity (DATA (prune_activity_once fs_ok now st)) !! chat = Some users' /\
    sublist users' users /\
    forall uid e,
      In (uid, e) users' <->
      In (uid, e) users /\
      exists ts, entry_ts e = Some ts /\ (cutoff <= ts \/ among_most_recent users uid ts).
Proof.
  intros Hu Hnd. cbv zeta.
  exists (prune_users (int_of_float now - ACTIVITY_KEEP_DAYS * 86400) users).
  split; [|split].
  - unfold prune_activity_once.
    destruct (bool_decide _); rewrite ?save_data_DATA; cbn [DATA with_DATA d_activity with_activity];
      rewrite lookup_fmap, Hu; reflexivity.
  - unfold prune_users. destruct (bool_decide _); [|reflexivity].
    apply filter_sublist.
  - intros uid e. rewrite (prune_users_In _ _ _ _ Hnd), (keep_keys_spec _ _ _ Hnd). split.
    + intros (Hin & ts & Hts & Hk). split; [exact Hin|]. exists ts. split; [|exact Hk].
      apply activity_items_In in Hts as (e' & He' & Hts).
      rewrite (entry_unique users uid e e' Hnd Hin He'). exact Hts.
    + intros (Hin & ts & Hts & Hk). split; [exact Hin|]. exists ts. split; [|exact Hk].
      apply activity_items_In. eauto.
Qed.

(** The pass over the sample dictionary of chat 7. *)
Lemma prune_activity_once_spec_witness :
  let st := with_DATA (with_activity {[ 7 := sample_activity ]} EMPTY_DATA) INIT in
  exists users',
    d_activity (DATA (prune_activity_once true (1700000000 # 1) st)) !! 7 = Some users' /\
    sublist users' sample_activity /\
    forall uid e,
      In (uid, e) users' <->
      In (uid, e) sample_activity /\
      exists ts, entry_ts e = Some ts /\
                 (1700000000 - 180 * 86400 <= ts \/ among_most_recent sample_activity uid ts).
Proof.
  cbv zeta.
  apply (prune_activity_once_spec true (1700000000 # 1)
           (with_DATA (with_activity {[ 7 := sample_activity ]} EMPTY_DATA) INIT) 7
           sample_activity).
  - reflexivity.
  - apply (bool_decide_eq_true_1 (NoDup (List.map fst sample_activity))). vm_compute. reflexivity.
Defined.

(** The pass on the sample dictionary: the old and the recent record stay
    (both are among the most recent 20000), the two records without an
    integer time go. *)
Example prune_sample :
  prune_users (1700000000 - 180 * 86400) sample_activity =
  [(1, AInfo (PInt 1000) None); (3, AInfo (PInt 1700000000) (Some (lit "bob")))].
Proof. vm_compute. reflexivity. Qed.

(** ** When the windows stay in order *)

Section WindowOrder.

Variable tg : Platform.

Lemma sorted_snoc_le (l : list Q) (a b : Q) :
  Sorted Qle (l ++ [a]) -> (a <= b)%Q -> Sorted Qle ((l ++ [a]) ++ [b]).
Proof.
  intros Hs Hab. induction l as [|x r IH]; simpl in *.
  - repeat constructor. exact Hab.
  - apply Sorted_inv in Hs as [Hs Hhd]. constructor; [exact (IH Hs)|].
    destruct r; simpl in *; inversion Hhd; subst; constructor; assumption.
Qed.

Lemma sorted_last_le (l : list Q) (a b : Q) :
  Sorted Qle (l ++ [a]) -> (a <= b)%Q -> Sorted Qle (l ++ [b]).
Proof.
  intros Hs Hab. induction l as [|x r IH]; simpl in *.
  - repeat constructor.
  - apply Sorted_inv in Hs as [Hs Hhd]. constructor; [exact (IH Hs)|].
    destruct r; simpl in *; inversion Hhd; subst; constructor; [|assumption].
    eapply Qle_trans; eassumption.
Qed.

Lemma popleft_old_snoc_sorted (now now' : Q) (W : Z) (l : list Q) :
  Sorted Qle (l ++ [now]) -> (now <= now')%Q ->
  Sorted Qle (popleft_old now W (l ++ [now]) ++ [now']).
Proof.
  intros Hs Hle. pose proof (sorted_snoc_le l now now' Hs Hle) as Hs'.
  destruct (popleft_old_suffix now W (l ++ [now])) as (old & E & _).
  rewrite E in Hs'. rewrite <- app_assoc in Hs'.
  clear E. induction old as [|x r IH]; [exact Hs'|].
  simpl in Hs'. apply Sorted_inv in Hs' as [Hs' _]. exact (IH Hs').
Qed.

(** What one rate check leaves in a window, whatever the stored settings. *)
Lemma rate_check_sorted (now now' : Q) (w l : pyval) (dq : list Q) :
  Sorted Qle (dq ++ [now]) -> (now <= now')%Q ->
  Sorted Qle (fst (rate_check now w l dq) ++ [now']).
Proof.
  intros Hs Hle. unfold rate_check.
  destruct (as_int w) as [W|]; [|simpl; apply sorted_snoc_le; assumption].
  destruct (as_int l); simpl; apply popleft_old_snoc_sorted; assumption.
Qed.

Lemma window_update_sorted (m : gmap (Z * Z) (list Q)) (k key : Z * Z) (dq' : list Q)
    (now now' : Q) :
  Sorted Qle (default [] (m !! key) ++ [now]) -> (now <= now')%Q ->
  Sorted Qle (dq' ++ [now']) ->
  Sorted Qle (default [] (<[k := dq']> m !! key) ++ [now']).
Proof.
  intros Hs Hle Hd. destruct (decide (k = key)) as [->|Hne].
  - rewrite lookup_insert_eq. exact Hd.
  - rewrite lookup_insert_ne by exact Hne. eapply sorted_last_le; eassumption.
Qed.

Lemma sorted_app_tail (l r : list Q) : Sorted Qle (l ++ r) -> Sorted Qle r.
Proof.
  induction l as [|x l IH]; [trivial|]. simpl. intros H.
  apply Sorted_inv in H as [H _]. exact (IH H).
Qed.

Lemma sorted_split (l : list Q) (a : Q) (r : list Q) :
  Sorted Qle (l ++ a :: r) -> Sorted Qle (l ++ [a]) /\ Sorted Qle (a :: r).
Proof.
  intros H. split; [|exact (sorted_app_tail l (a :: r) H)].
  induction l as [|x l IH]; simpl in *; [repeat constructor|].
  apply Sorted_inv in H as [H Hhd]. constructor; [exact (IH H)|].
  destruct l; simpl in *; inversion Hhd; subst; constructor; assumption.
Qed.

Lemma sorted_glue (l : list Q) (a : Q) (r : list Q) :
  Sorted Qle (l ++ [a]) -> Sorted Qle (a :: r) -> Sorted Qle (l ++ a :: r).
Proof.
  intros Hl Hr. induction l as [|x l IH]; simpl in *; [exact Hr|].
  apply Sorted_inv in Hl as [Hl Hhd]. constructor; [exact (IH Hl)|].
  destruct l; simpl in *; inversion Hhd; subst; constructor; assumption.
Qed.

Lemma sorted_skip (l : list Q) (a b : Q) (r : list Q) :
  Sorted Qle (l ++ a :: b :: r) -> Sorted Qle (l ++ b :: r).
Proof.
  intros H. apply sorted_split in H as [Hl Hr].
  apply Sorted_inv in Hr as [Hr Hab]. apply sorted_glue; [|exact Hr].
  eapply sorted_last_le; [exact Hl|]. inversion Hab; assumption.
Qed.

(** The checks of a task whose clock reading is not before what the
    windows hold keep every window in order. *)
Lemma moderate_checks_keeps_order (now now' : Q) (cid uid : Z) (s : ChatSettings)
    (message : Message) (st : State) :
  windows_in_order st now -> (now <= now')%Q ->
  windows_in_order (o_state (moderate_checks now cid uid s message st)) now'.
Proof.
  intros Hinv Hle.
  assert (Hsame : forall st', (forall cat, times_of cat st' = times_of cat st) ->
            windows_in_order st' now').
  { intros st' E cat key. rewrite E. eapply sorted_last_le; [apply Hinv | exact Hle]. }
  assert (Hmedia : forall mode limit br lr,
            windows_in_order
              (o_state (media_check now cid uid (message_id message) s mode limit br lr
                          (sticker_times st) with_sticker_times AtSticker st)) now' /\
            windows_in_order
              (o_state (media_check now cid uid (message_id message) s mode limit br lr
                          (gif_times st) with_gif_times AtAnimation st)) now').
  { intros mode limit br lr. unfold media_check.
    split.
    - destruct (eq_str mode "ban"); [apply Hsame; reflexivity|].
      destruct (eq_str mode "limit"); [|apply Hsame; reflexivity].
      assert (Hw : windows_in_order
                (with_sticker_times
                   (<[(cid, uid) := fst (rate_check now (media_window_sec s) limit
                                           (default [] (sticker_times st !! (cid, uid))))]>
                      (sticker_times st)) st) now').
      { intros cat key. pose proof (Hinv cat key) as Hc.
        pose proof (Hinv CatSticker (cid, uid)) as Hk.
        destruct cat; cbn [times_of with_sticker_times msg_times gif_times sticker_times]
                        in Hc, Hk |- *.
        - eapply sorted_last_le; [exact Hc | exact Hle].
        - apply (window_update_sorted _ _ _ _ now); [exact Hc | exact Hle|].
          apply rate_check_sorted; [exact Hk | exact Hle].
        - eapply sorted_last_le; [exact Hc | exact Hle]. }
      destruct (snd (rate_check _ _ _ _)) as [[|]|e]; exact Hw.
    - destruct (eq_str mode "ban"); [apply Hsame; reflexivity|].
      destruct (eq_str mode "limit"); [|apply Hsame; reflexivity].
      assert (Hw : windows_in_order
                (with_gif_times
                   (<[(cid, uid) := fst (rate_check now (media_window_sec s) limit
                                           (default [] (gif_times st !! (cid, uid))))]>
                      (gif_times st)) st) now').
      { intros cat key. pose proof (Hinv cat key) as Hc.
        pose proof (Hinv CatAnimation (cid, uid)) as Hk.
        destruct cat; cbn [times_of with_gif_times msg_times gif_times sticker_times]
                        in Hc, Hk |- *.
        - eapply sorted_last_le; [exact Hc | exact Hle].
        - eapply sorted_last_le; [exact Hc | exact Hle].
        - apply (window_update_sorted _ _ _ _ now); [exact Hc | exact Hle|].
          apply rate_check_sorted; [exact Hk | exact Hle]. }
      destruct (snd (rate_check _ _ _ _)) as [[|]|e]; exact Hw. }
  unfold moderate_checks.
  destruct (truthy_str (media_group_id message)).
  { unfold album_check. destruct (od_mem _ _); [apply Hsame; reflexivity|].
    destruct (negb _ && _ && _); apply Hsame; intros []; reflexivity. }
  destruct (sticker message); [apply Hmedia|].
  destruct (animation message); [apply Hmedia|].
  unfold text_check.
  set (r := rate_check _ _ _ _).
  assert (Hw : windows_in_order
            (with_msg_times (<[(cid, uid) := fst r]> (msg_times st)) st) now').
  { intros cat key. destruct cat; cbn [times_of with_msg_times msg_times gif_times sticker_times].
    - apply (window_update_sorted _ _ _ _ now); [apply (Hinv CatMessage) | exact Hle|].
      apply rate_check_sorted; [apply (Hinv CatMessage) | exact Hle].
    - eapply sorted_last_le; [apply (Hinv CatSticker) | exact Hle].
    - eapply sorted_last_le; [apply (Hinv CatAnimation) | exact Hle]. }
  destruct (snd r) as [[|]|e]; try exact Hw.
  destruct (truthy (block_links _) && _ && _); [exact Hw|].
  match goal with |- context [repeat_check ?a ?b ?c ?d ?e ?f ?g] =>
    destruct (repeat_check_frame a b c d e f g) as (F1 & F2 & F3 & _)
  end.
  cbv zeta in F1, F2, F3.
  intros cat key. specialize (Hw cat key).
  destruct cat; cbn [times_of] in *; rewrite ?F1, ?F2, ?F3; exact Hw.
Qed.

Lemma moderate_start_times (now : Q) (message : Message) (st : State) (cat : category) :
  times_of cat (fst (moderate_start now message st)) = times_of cat st.
Proof.
  unfold moderate_start.
  destruct (negb (is_group (chat_type message))); [reflexivity|].
  destruct (from_user message) as [u|]; [|reflexivity].
  destruct (is_bot u); [reflexivity|]. cbv zeta.
  destruct (negb (truthy (enabled _))); [destruct cat; reflexivity|].
  destruct (is_whitelisted _ _ _); destruct cat; reflexivity.
Qed.

Lemma moderate_start_now (now : Q) (message : Message) (st st1 : State) (t : Task) :
  moderate_start now message st = (st1, inr t) -> t_now t = now.
Proof.
  unfold moderate_start.
  destruct (negb (is_group (chat_type message))); [discriminate|].
  destruct (from_user message) as [u|]; [|discriminate].
  destruct (is_bot u); [discriminate|]. cbv zeta.
  destruct (negb (truthy (enabled _))); [discriminate|].
  destruct (is_whitelisted _ _ _); [discriminate|].
  intros [= _ <-]. reflexivity.
Qed.

Lemma moderate_resume_keeps_order (now' : Q) (t : Task) (st : State) :
  windows_in_order st (t_now t) -> (t_now t <= now')%Q ->
  windows_in_order (o_state (moderate_resume tg t st)) now'.
Proof.
  intros Hinv Hle. unfold moderate_resume. cbv zeta.
  assert (Hst : windows_in_order st now').
  { intros cat key. eapply sorted_last_le; [apply Hinv | exact Hle]. }
  destruct (truthy_str _ && role_at_least _ ROLE_MOD); [exact Hst|].
  destruct (match tg _ _ with Some _ => _ | None => _ end); [exact Hst|].
  apply moderate_checks_keeps_order; assumption.
Qed.

(** The handler run in one piece is its start followed at once by the
    rest. *)
Lemma moderate_all_start_resume (now : Q) (message : Message) (st : State) :
  moderate_all tg now message st =
  match moderate_start now message st with
  | (st1, inl at_) => returns st1 at_
  | (st1, inr t) => moderate_resume tg t st1
  end.
Proof.
  unfold moderate_all, moderate_start, moderate_resume.
  destruct (negb (is_group (chat_type message))); [reflexivity|].
  destruct (from_user message) as [u|]; [|reflexivity].
  destruct (is_bot u); [reflexivity|].
  cbv zeta.
  destruct (negb (truthy (enabled _))); [reflexivity|].
  destruct (is_whitelisted _ _ _); reflexivity.
Qed.

(** The schedule that lets every task end before the next update arrives
    is the dispatcher that handles one update at a time. *)
Lemma serve_one_by_one (updates : list (Q * Message)) :
  forall st, serve tg (one_by_one updates) [] st = (run tg updates st, exec tg updates st).
Proof.
  induction updates as [|[now m] rest IH]; intros st; [reflexivity|].
  change (one_by_one ((now, m) :: rest)) with (Arrive now m :: Resume 0 :: one_by_one rest).
  change (exec tg ((now, m) :: rest) st) with (exec tg rest (o_state (moderate_all tg now m st))).
  cbn [serve run]. rewrite (moderate_all_start_resume now m st).
  destruct (moderate_start now m st) as [st1 [at_|t]].
  - cbn [nth_error app]. rewrite IH. reflexivity.
  - cbn [nth_error app firstn skipn]. rewrite IH. reflexivity.
Qed.

(** Handling a message at a clock reading that is not before the last one
    keeps every window in order. *)
Lemma moderate_all_keeps_order (now now' : Q) (message : Message) (st : State) :
  windows_in_order st now -> (now <= now')%Q ->
  windows_in_order (o_state (moderate_all tg now message st)) now'.
Proof.
  intros Hinv Hle. rewrite moderate_all_start_resume.
  pose proof (moderate_start_times now message st) as Ht.
  pose proof (moderate_start_now now message st) as Hn.
  destruct (moderate_start now message st) as [st1 [at_|t]]; cbn [fst] in Ht.
  - intros cat key. cbn [returns o_state]. rewrite Ht.
    eapply sorted_last_le; [apply Hinv | exact Hle].
  - apply moderate_resume_keeps_order; rewrite (Hn st1 t eq_refl); [|exact Hle].
    intros cat key. rewrite Ht. apply Hinv.
Qed.

Lemma windows_in_order_init (now : Q) : windows_in_order INIT now.
Proof. intros [] key; repeat constructor. Qed.

(** Along a run that handles one update at a time, with readings that
    ascend in the order of the run, the windows stay in order. *)
Lemma exec_keeps_order (updates : list (Q * Message)) :
  forall (st : State) (now now' : Q),
  windows_in_order st now ->
  Sorted Qle (now :: List.map fst updates ++ [now']) ->
  windows_in_order (exec tg updates st) now'.
Proof.
  induction updates as [|[t m] rest IH]; intros st now now' Hinv Hs.
  - simpl in *. intros cat key. eapply sorted_last_le; [apply Hinv|].
    apply Sorted_inv in Hs as [_ Hhd]. inversion Hhd; assumption.
  - change (exec tg ((t, m) :: rest) st)
      with (exec tg rest (o_state (moderate_all tg t m st))).
    change (Sorted Qle (now :: t :: List.map fst rest ++ [now'])) in Hs.
    apply Sorted_inv in Hs as [Hs Hhd].
    assert (Hnt : (now <= t)%Q) by (inversion Hhd; assumption).
    apply (IH _ t now'); [|exact Hs].
    apply (moderate_all_keeps_order t t m st); [|apply Qle_refl].
    intros cat key. eapply sorted_last_le; [apply Hinv | exact Hnt].
Qed.

(** The windows, then the readings of the tasks that wait, then the
    readings still to come, in ascending order: what a schedule that
    resumes its tasks in turn keeps. *)
Lemma serve_keeps_order (events : list event) :
  forall (waiting : list Task) (st : State) (now : Q),
  (forall cat key,
     Sorted Qle (default [] (times_of cat st !! key) ++
                 List.map t_now waiting ++ readings events ++ [now])) ->
  in_turn events = true ->
  windows_in_order (snd (serve tg events waiting st)) now.
Proof.
  induction events as [|e rest IH]; intros waiting st now Hinv Hturn.
  - intros cat key. specialize (Hinv cat key). cbn [readings flat_map app] in Hinv.
    cbn [serve snd].
    induction waiting as [|t w IHw]; [exact Hinv|].
    apply IHw. cbn [List.map app] in Hinv.
    destruct w as [|t' w]; cbn [List.map app] in Hinv |- *;
      eapply sorted_skip; exact Hinv.
  - cbn [in_turn forallb] in Hturn. apply andb_true_iff in Hturn as [He Hturn].
    destruct e as [t m|i].
    + cbn [serve].
      pose proof (moderate_start_times t m st) as Ht.
      pose proof (moderate_start_now t m st) as Hn.
      destruct (moderate_start t m st) as [st1 [at_|task]]; cbn [fst] in Ht.
      * cbn [snd]. apply IH; [|exact Hturn].
        intros cat key. rewrite Ht. specialize (Hinv cat key).
        change (readings (Arrive t m :: rest)) with (t :: readings rest) in Hinv.
        rewrite app_assoc in Hinv |- *.
        destruct (readings rest) as [|b r] eqn:Er; cbn [app] in Hinv |- *;
          eapply sorted_skip; exact Hinv.
      * apply IH; [|exact Hturn].
        intros cat key. rewrite Ht. specialize (Hinv cat key).
        change (readings (Arrive t m :: rest)) with (t :: readings rest) in Hinv.
        rewrite map_app. cbn [List.map]. rewrite (Hn st1 task eq_refl).
        rewrite <- app_assoc. exact Hinv.
    + apply Nat.eqb_eq in He. subst i.
      change (readings (Resume 0 :: rest)) with (readings rest) in Hinv.
      cbn [serve]. destruct waiting as [|task w]; cbn [nth_error].
      * apply IH; assumption.
      * change (firstn 0 (task :: w) ++ skipn 1 (task :: w)) with w.
        cbn [snd]. apply IH; [|exact Hturn].
        intros cat key.
        remember (List.map t_now w ++ readings rest ++ [now]) as tail eqn:Etail.
        assert (Hall : forall cat key,
                  Sorted Qle (default [] (times_of cat st !! key) ++ t_now task :: tail)).
        { intros cat' key'. specialize (Hinv cat' key'). cbn [List.map app] in Hinv.
          rewrite Etail. exact Hinv. }
        destruct tail as [|b tail'].
        { destruct w; destruct (readings rest); discriminate. }
        apply sorted_glue.
        -- apply (moderate_resume_keeps_order b task st).
           ++ intros cat' key'. exact (proj1 (sorted_split _ _ _ (Hall cat' key'))).
           ++ destruct (sorted_split _ _ _ (Hall cat key)) as [_ Hr].
              apply Sorted_inv in Hr as [_ Hhd]. inversion Hhd; assumption.
        -- destruct (sorted_split _ _ _ (Hall cat key)) as [_ Hr].
           apply Sorted_inv in Hr as [Hr _]. exact Hr.
Qed.

End WindowOrder.

(** ** Checks of the model against known values *)

(** SHA-256 test vectors of FIPS 180-4 (one and two blocks). *)
Example sha256_abc :
  SHA256.hexdigest (utf8_encode (lit "abc")) =
  lit "ba7816bf8f01cfea414140de5dae2223b00361a396177a9cb410ff61f20015ad".
Proof. vm_compute. reflexivity. Qed.

Example sha256_two_blocks :
  SHA256.hexdigest (utf8_encode (lit "abcdbcdecdefdefgefghfghighijhijkijkljklmklmnlmnomnopnopq")) =
  lit "248d6a61d20638b8e5c026930c3e6039a33ce45964ff2167f6ecedd419db06c1".
Proof. vm_compute. reflexivity. Qed.

(** A text with Latin-1 capitals, a no-break space and a next-line
    character around it. *)
Example text_hash_latin1 :
  norm_text ["160"; " "; "201"; "T"; "201"; " "; " "; "133"]%char = ["233"; "t"; "233"]%char /\
  text_hash ["160"; " "; "201"; "T"; "201"; " "; " "; "133"]%char = lit "bd010c64132bf5ca".
Proof. vm_compute. auto. Qed.

Example int_of_literals :
  int (PStr " -1_2 ") = Ok (-12) /\ int (PStr "+007") = Ok 7 /\
  int (PStr "1__2") = Raise ValueError /\ int (PStr "_1") = Raise ValueError /\
  int (PStr "1_") = Raise ValueError /\ int (PStr "- 1") = Raise ValueError /\
  int (PStr "") = Raise ValueError /\
  int (PStr (String "031" "12")) = Raise ValueError /\
  int (PStr (String "160" "12")) = Ok 12 /\
  int PNone = Raise TypeError /\ int (PBool true) = Ok 1.
Proof. vm_compute. repeat split. Qed.

Example link_pattern :
  List.map (fun t => Regex.search link_re (lit t))
    ["www."; "www.x"; "http:/x"; "https://"; "t.me/ a"; "xt.me/a"]%string =
  [false; true; false; false; false; true].
Proof. vm_compute. reflexivity. Qed.

(** ** Scenarios of the specification *)

(** [flood_limit = 3], [flood_window_sec = 10], four plain messages within
    five seconds: the first three pass, the fourth is deleted and its sender
    muted for [mute_seconds]. *)
Example scenario_flood :
  List.map o_effects (run members_only sample_burst sample_state) =
  [[]; []; [];
   [DeleteMessage 7 4; AutomodLog 7 9 "flood" "mute"; RestrictMember 7 9 (104 + 14400)]].
Proof. vm_compute. reflexivity. Qed.

(** [sticker_mode = limit], [sticker_limit = 2], [media_window_sec = 12],
    three stickers within one second: the third is removed. *)
Example scenario_stickers :
  List.map o_verdict
    (run members_only
       [(100 # 1, sticker_message 7 9 1); (201 # 2, sticker_message 7 9 2);
        (101 # 1, sticker_message 7 9 3)]
       sample_state) =
  [None; None; Some "sticker_limit"%string].
Proof. vm_compute. reflexivity. Qed.

(** A moderator may warn but not ban; nobody without a role may do either. *)
Example scenario_ranks :
  can_use (Some "moderator"%string) "warn" = true /\
  can_use (Some "moderator"%string) "ban" = false /\
  can_use (Some "admin"%string) "ban" = true /\
  can_use None "invite" = false.
Proof. vm_compute. auto. Qed.

(** * Further properties of the storage, the queries and the commands *)

(** ** Stored roles *)

Lemma in_ROLE_RANK_spec (role : string) :
  in_ROLE_RANK role = true <-> exists r : Role, role = role_name r.
Proof.
  split.
  - unfold in_ROLE_RANK. intros H. apply existsb_exists in H as [kv [Hin Hkv]].
    apply String.eqb_eq in Hkv. subst role. vm_compute in Hin.
    decompose [or] Hin; try contradiction; subst kv;
      [exists ROLE_SEEKER | exists ROLE_MOD | exists ROLE_ADMIN | exists ROLE_HEAD
      | exists ROLE_CREATOR]; reflexivity.
  - intros [r ->]. destruct r; reflexivity.
Qed.

(** X1. [set_role_local] accepts exactly the five role names. For one of
    them it raises nothing and afterwards [get_role_local] returns the new
    role for that chat and user and what it returned before for every other
    pair; for any other string it raises [ValueError] and changes nothing. *)
Theorem set_role_local_spec (fs_ok : bool) (c u : Z) (role : string) (st : State) :
  ((exists r : Role, role = role_name r) /\
   snd (set_role_local fs_ok c u role st) = None /\
   forall c' u' : Z,
     get_role_local (DATA (fst (set_role_local fs_ok c u role st))) c' u' =
     if bool_decide ((c', u') = (c, u)) then Some role
     else get_role_local (DATA st) c' u')
  \/ ((forall r : Role, role <> role_name r) /\
      set_role_local fs_ok c u role st = (st, Some ValueError)).
Proof.
  unfold set_role_local. destruct (in_ROLE_RANK role) eqn:E.
  - left. split; [apply in_ROLE_RANK_spec, E|]. split; [reflexivity|].
    intros c' u'. cbn [negb fst]. rewrite save_data_DATA. unfold get_role_local.
    cbn [DATA with_DATA d_roles with_roles]. case_bool_decide as Hk.
    + rewrite Hk. apply lookup_insert_eq.
    + apply lookup_insert_ne. congruence.
  - right. split; [|reflexivity]. intros r ->.
    assert (in_ROLE_RANK (role_name r) = true) by (apply in_ROLE_RANK_spec; eauto).
    congruence.
Qed.

(** X2. After [del_role_local] the user has no stored role in that chat,
    whether one was stored or not, and every other stored role is as it
    was. *)
Theorem del_role_local_spec (fs_ok : bool) (c u c' u' : Z) (st : State) :
  get_role_local (DATA (del_role_local fs_ok c u st)) c' u' =
  if bool_decide ((c', u') = (c, u)) then None else get_role_local (DATA st) c' u'.
Proof.
  unfold del_role_local, get_role_local. rewrite save_data_DATA.
  cbn [DATA with_DATA d_roles with_roles]. case_bool_decide as Hk.
  - rewrite Hk. apply lookup_delete_eq.
  - apply lookup_delete_ne. congruence.
Qed.

(** ** Decimal numerals: [int(str(n))] is [n] *)

Section Numerals.

Lemma digits_of_uint_acc (d : Decimal.uint) (acc : positive) :
  digits (Z.pos acc) true (lit (NilEmpty.string_of_uint d)) =
  Some (Z.pos (Pos.of_uint_acc d acc)).
Proof.
  revert acc. induction d; intros acc; cbn -[Z.mul Z.add Pos.mul Pos.add];
    [reflexivity | rewrite <- IHd; f_equal; lia ..].
Qed.

Lemma digits_of_uint (d : Decimal.uint) (b : bool) :
  d <> Decimal.Nil \/ b = true ->
  digits 0 b (lit (NilEmpty.string_of_uint d)) = Some (Z.of_N (Pos.of_uint d)).
Proof.
  revert b. induction d; intros b H.
  - destruct H as [H | ->]; [contradiction | reflexivity].
  - cbn -[Z.mul Z.add]. apply IHd. now right.
  - cbn -[Z.mul Z.add Pos.of_uint_acc]. apply (digits_of_uint_acc d 1).
  - cbn -[Z.mul Z.add Pos.of_uint_acc]. apply (digits_of_uint_acc d 2).
  - cbn -[Z.mul Z.add Pos.of_uint_acc]. apply (digits_of_uint_acc d 3).
  - cbn -[Z.mul Z.add Pos.of_uint_acc]. apply (digits_of_uint_acc d 4).
  - cbn -[Z.mul Z.add Pos.of_uint_acc]. apply (digits_of_uint_acc d 5).
  - cbn -[Z.mul Z.add Pos.of_uint_acc]. apply (digits_of_uint_acc d 6).
  - cbn -[Z.mul Z.add Pos.of_uint_acc]. apply (digits_of_uint_acc d 7).
  - cbn -[Z.mul Z.add Pos.of_uint_acc]. apply (digits_of_uint_acc d 8).
  - cbn -[Z.mul Z.add Pos.of_uint_acc]. apply (digits_of_uint_acc d 9).
Qed.

Lemma uint_chars (d : Decimal.uint) :
  Forall (fun c => is_digit c = true) (lit (NilEmpty.string_of_uint d)).
Proof. induction d; cbn; constructor; auto. Qed.

Lemma is_digit_not_space (c : ascii) : is_digit c = true -> int_space c = false.
Proof.
  unfold is_digit, int_space, in_range. intros H.
  apply andb_true_iff in H as [H1 H2]. apply N.leb_le in H1, H2.
  rewrite !orb_false_iff, andb_false_iff, !N.leb_gt, !N.eqb_neq. lia.
Qed.

Lemma skip_int_space_id (l : list ascii) :
  Forall (fun c => int_space c = false) l ->
  rev (skip_int_space (rev (skip_int_space l))) = l.
Proof.
  intros H.
  assert (E : forall l, Forall (fun c => int_space c = false) l -> skip_int_space l = l).
  { intros l' H'. destruct H' as [|c r Hc _]; [reflexivity|]. cbn. now rewrite Hc. }
  rewrite (E l H), E, rev_involutive; [reflexivity|].
  now apply List.Forall_rev.
Qed.

Lemma int_of_str_str_of_Z (n : Z) : int_of_str (str_of_Z n) = Some n.
Proof.
  assert (U : forall p : positive,
             lit (NilZero.string_of_uint (Pos.to_uint p)) =
             lit (NilEmpty.string_of_uint (Pos.to_uint p)) /\
             exists c r, lit (NilEmpty.string_of_uint (Pos.to_uint p)) = c :: r /\
                         is_digit c = true).
  { intros p. pose proof (DecimalPos.Unsigned.to_uint_nonnil p) as Hn.
    destruct (Pos.to_uint p) eqn:E; try contradiction; split; try reflexivity;
      cbn; eauto. }
  assert (V : forall p : positive,
             digits 0 false (lit (NilEmpty.string_of_uint (Pos.to_uint p))) = Some (Z.pos p)).
  { intros p. rewrite digits_of_uint by (left; apply DecimalPos.Unsigned.to_uint_nonnil).
    now rewrite DecimalPos.Unsigned.of_to. }
  unfold int_of_str, str_of_Z. destruct n as [|p|p]; [reflexivity| |].
  - cbn [Z.to_int NilZero.string_of_int]. destruct (U p) as [-> [c [r [E Hc]]]].
    rewrite skip_int_space_id.
    2:{ eapply List.Forall_impl; [|apply uint_chars]. apply is_digit_not_space. }
    specialize (V p). rewrite E in *.
    destruct (Ascii.eqb c "-") eqn:E1; [apply (proj1 (Ascii.eqb_eq _ _)) in E1; subst; discriminate|].
    destruct (Ascii.eqb c "+") eqn:E2; [apply (proj1 (Ascii.eqb_eq _ _)) in E2; subst; discriminate|].
    exact V.
  - cbn [Z.to_int NilZero.string_of_int]. destruct (U p) as [Hu _].
    change (lit (String "-" ?s)) with ("-"%char :: lit s). rewrite Hu.
    rewrite skip_int_space_id.
    2:{ constructor; [reflexivity|].
        eapply List.Forall_impl; [|apply uint_chars]. apply is_digit_not_space. }
    cbn [Ascii.eqb]. rewrite V. reflexivity.
Qed.

Lemma str_of_Z_inj (a b : Z) : str_of_Z a = str_of_Z b -> a = b.
Proof.
  intros H. pose proof (int_of_str_str_of_Z a) as Ha.
  rewrite H, int_of_str_str_of_Z in Ha. congruence.
Qed.

End Numerals.

(** ** The whitelist *)

Section Whitelist.

Lemma existsb_eqb (x : string) (l : list string) :
  existsb (String.eqb x) l = true <-> In x l.
Proof.
  rewrite existsb_exists. split.
  - intros (y & Hin & Hy). apply String.eqb_eq in Hy. now subst.
  - intros Hin. exists x. split; [exact Hin|apply String.eqb_refl].
Qed.

Lemma map_str_PStr (l : list string) : List.map str (PStr <$> l) = l.
Proof. induction l as [|x r IH]; [reflexivity|]. cbn. now rewrite IH. Qed.

Lemma sorted_set_In (x : string) (l : list string) : In x (sorted_set l) <-> In x l.
Proof.
  unfold sorted_set. rewrite stable_sort_In, <- !list_elem_of_In.
  apply elem_of_remove_dups.
Qed.

Lemma ltb_trans (a b c : string) :
  String.ltb a b = true -> String.ltb b c = true -> String.ltb a c = true.
Proof.
  unfold String.ltb. intros H1 H2.
  destruct (String.compare a b) eqn:E1; try discriminate.
  destruct (String.compare b c) eqn:E2; try discriminate.
  apply (proj1 (OrderedTypeEx.String_as_OT.cmp_lt _ _)) in E1, E2.
  pose proof (OrderedTypeEx.String_as_OT.lt_trans _ _ _ E1 E2) as H.
  apply OrderedTypeEx.String_as_OT.cmp_lt in H.
  change (String.compare a c = Lt) in H. now rewrite H.
Qed.

Lemma ltb_total (a b : string) :
  String.ltb a b = false -> a <> b -> String.ltb b a = true.
Proof.
  unfold String.ltb. intros H Hne. rewrite String.compare_antisym.
  destruct (String.compare a b) eqn:E; try discriminate; [|reflexivity].
  apply String.compare_eq_iff in E. contradiction.
Qed.

Lemma insert_ltb_sorted (x : string) (l : list string) :
  StronglySorted (fun a b => String.ltb a b = true) l -> ~ In x l ->
  StronglySorted (fun a b => String.ltb a b = true) (insert_stable String.ltb x l).
Proof.
  induction 1 as [|y r Hr IH Hall]; intros Hx; simpl.
  - repeat constructor.
  - destruct (String.ltb y x) eqn:E.
    + constructor; [apply IH; intros H; apply Hx; now right|].
      apply Forall_forall. intros z Hz. apply list_elem_of_In in Hz.
      apply (Permutation_in _ (insert_stable_perm _ _ _)) in Hz.
      destruct Hz as [<- | Hz]; [exact E|].
      rewrite Forall_forall in Hall. apply Hall. now apply list_elem_of_In.
    + assert (Hxy : String.ltb x y = true).
      { apply ltb_total; [exact E|]. intros ->. apply Hx. now left. }
      constructor; [now constructor|]. constructor; [exact Hxy|].
      eapply List.Forall_impl; [|exact Hall]. intros z Hz. cbn beta in Hz.
      eapply ltb_trans; eassumption.
Qed.

Lemma sorted_set_sorted (l : list string) :
  StronglySorted (fun a b => String.ltb a b = true) (sorted_set l).
Proof.
  unfold sorted_set. pose proof (NoDup_remove_dups l) as Hnd.
  induction Hnd as [|x r Hx Hnd IH]; simpl; [constructor|].
  apply insert_ltb_sorted; [exact IH|].
  rewrite stable_sort_In, <- list_elem_of_In. exact Hx.
Qed.

Lemma is_whitelisted_In (D : Data) (c u : Z) :
  is_whitelisted D c u = true <->
  exists wl, d_whitelist D !! c = Some wl /\ In (str_of_Z u) (List.map str wl).
Proof.
  unfold is_whitelisted. destruct (d_whitelist D !! c) as [wl|].
  - rewrite existsb_eqb. split; [eauto|].
    intros (wl' & [= <-] & H). exact H.
  - split; [discriminate|]. intros (wl' & [=] & _).
Qed.

End Whitelist.

(** X3. After [whitelist_add] the user is whitelisted in that chat, and
    every other user, in this chat or another, is whitelisted exactly when
    they were before. *)
Theorem whitelist_add_spec (fs_ok : bool) (c u c' u' : Z) (st : State) :
  is_whitelisted (DATA (whitelist_add fs_ok c u st)) c' u' =
  bool_decide ((c', u') = (c, u)) || is_whitelisted (DATA st) c' u'.
Proof.
  unfold whitelist_add. rewrite save_data_DATA.
  unfold is_whitelisted at 1. cbn [DATA with_DATA d_whitelist with_whitelist].
  destruct (decide (c' = c)) as [->|Hc].
  - rewrite lookup_insert_eq, map_str_PStr.
    unfold is_whitelisted. destruct (d_whitelist (DATA st) !! c) as [wl|]; cbn [default];
      apply eq_true_iff_eq;
      rewrite orb_true_iff, bool_decide_eq_true, !existsb_eqb, sorted_set_In, in_app_iff;
      cbn [In List.map].
    + split.
      * intros [H | [H | []]]; [now right|]. left. apply str_of_Z_inj in H. congruence.
      * intros [[= ->] | H]; [right; now left | now left].
    + split.
      * intros [[] | [H | []]]. left. apply str_of_Z_inj in H. congruence.
      * intros [[= ->] | H]; [right; now left | discriminate].
  - rewrite lookup_insert_ne by congruence. rewrite bool_decide_eq_false_2 by congruence.
    reflexivity.
Qed.

(** X4. After [whitelist_remove] the user is not whitelisted in that chat,
    and every other user is whitelisted exactly when they were before. *)
Theorem whitelist_remove_spec (fs_ok : bool) (c u c' u' : Z) (st : State) :
  is_whitelisted (DATA (whitelist_remove fs_ok c u st)) c' u' =
  negb (bool_decide ((c', u') = (c, u))) && is_whitelisted (DATA st) c' u'.
Proof.
  unfold whitelist_remove. destruct (d_whitelist (DATA st) !! c) as [wl|] eqn:E;
    rewrite save_data_DATA.
  - unfold is_whitelisted. cbn [DATA with_DATA d_whitelist with_whitelist].
    destruct (decide (c' = c)) as [->|Hc].
    + rewrite lookup_insert_eq, E. apply eq_true_iff_eq.
      rewrite andb_true_iff, negb_true_iff, bool_decide_eq_false, !existsb_eqb,
        !in_map_iff.
      split.
      * intros (x & Hx & Hin). apply filter_In in Hin as [Hin Hf].
        apply negb_true_iff, String.eqb_neq in Hf. split; [|eauto].
        intros [= ->]. congruence.
      * intros [Hne (x & Hx & Hin)]. exists x. split; [exact Hx|].
        apply filter_In. split; [exact Hin|]. apply negb_true_iff, String.eqb_neq.
        rewrite Hx. intros H. apply str_of_Z_inj in H. congruence.
    + rewrite lookup_insert_ne by congruence. rewrite bool_decide_eq_false_2 by congruence.
      reflexivity.
  - case_bool_decide as Hk; [|reflexivity]. injection Hk as -> ->.
    unfold is_whitelisted. now rewrite E.
Qed.

(** X5. [whitelist_add] leaves the list of the chat as strings in strictly
    ascending order of code points, hence without duplicates, whatever was
    stored before: the strings of the old entries and that of the new
    user, each once. *)
Theorem whitelist_add_sorted (fs_ok : bool) (c u : Z) (st : State) :
  exists l : list string,
    d_whitelist (DATA (whitelist_add fs_ok c u st)) !! c = Some (PStr <$> l) /\
    StronglySorted (fun a b => String.ltb a b = true) l /\
    forall x : string,
      In x l <->
      x = str_of_Z u \/ In x (List.map str (default [] (d_whitelist (DATA st) !! c))).
Proof.
  eexists. split; [|split].
  - unfold whitelist_add. rewrite save_data_DATA.
    cbn [DATA with_DATA d_whitelist with_whitelist]. apply lookup_insert_eq.
  - apply sorted_set_sorted.
  - intros x. rewrite sorted_set_In, in_app_iff. cbn [In]. intuition congruence.
Qed.

(** X6. Every whitelisted user appears in [whitelist_list]. *)
Theorem whitelist_list_complete (D : Data) (c u : Z) :
  is_whitelisted D c u = true -> In u (whitelist_list D c).
Proof.
  intros H. apply is_whitelisted_In in H as (wl & E & Hin).
  unfold whitelist_list. rewrite E. apply list_elem_of_In, list_elem_of_omap.
  apply in_map_iff in Hin as (x & Hx & Hin). exists x. split; [now apply list_elem_of_In|].
  destruct x as [|b|n|s]; cbn in Hx |- *.
  - exfalso. destruct u; [discriminate|cbn in Hx; destruct (Pos.to_uint p); discriminate|discriminate].
  - exfalso. destruct u, b; try discriminate; cbn in Hx; destruct (Pos.to_uint p); discriminate.
  - apply str_of_Z_inj in Hx. now subst.
  - subst s. now rewrite int_of_str_str_of_Z.
Qed.
(** ** Looking a user up by name *)

Section Resolve.

Variable key : pystr.

(** The step of the loop of [resolve_username_to_id_local]. *)
#[local] Abbreviation step :=
  (fun (best : option Z * Z) (kv : Z * activity_entry) =>
     match snd kv with
     | AInfo ts name =>
         if negb (bool_decide (default [] name = key)) then best
         else match as_int ts with
              | Some t => if t >? snd best then (Some (fst kv), t) else best
              | None => best
              end
     | AOther => best
     end).

Lemma resolve_step (best : option Z * Z) (u : Z) (e : activity_entry) :
  (step best (u, e) = best /\ forall t, named key t e -> t <= snd best) \/
  (exists t, step best (u, e) = (Some u, t) /\ named key t e /\ snd best < t).
Proof.
  destruct best as [bu bt]. destruct e as [ts name|]; cbn [snd fst named].
  - case_bool_decide as Hk; cbn [negb].
    + destruct (as_int ts) as [t|] eqn:Et.
      * destruct (Z.gtb_spec t bt) as [Hgt|Hgt].
        -- right. exists t. repeat split; [exact Hk|lia].
        -- left. split; [reflexivity|]. intros t' [_ [= <-]]. lia.
      * left. split; [reflexivity|]. intros t' [_ [=]].
    + left. split; [reflexivity|]. intros t' [Hk' _]. contradiction.
  - left. split; [reflexivity|]. intros t [].
Qed.

Lemma resolve_fold (l : list (Z * activity_entry)) (best : option Z * Z) :
  let r := fold_left step l best in
  snd best <= snd r /\
  (forall u e t, In (u, e) l -> named key t e -> t <= snd r) /\
  (r = best \/
   exists u e, fst r = Some u /\ In (u, e) l /\ named key (snd r) e /\ snd best < snd r).
Proof.
  revert best. induction l as [|[u e] l IH]; intros best; cbn zeta.
  - cbn [fold_left]. split; [lia|]. split; [intros ? ? ? []|now left].
  - cbn [fold_left]. specialize (IH (step best (u, e))). cbn zeta in IH.
    destruct IH as (Hle & Hmax & Hr).
    destruct (resolve_step best u e) as [[Hs Hb] | (t & Hs & Hn & Hlt)].
    + rewrite Hs in *. split; [exact Hle|]. split.
      * intros u' e' t' [[= -> ->] | Hin] Hn; [|eauto]. specialize (Hb _ Hn). lia.
      * destruct Hr as [Hr | (u' & e' & H1 & H2 & H3 & H4)]; [now left|].
        right. exists u', e'. repeat split; auto. now right.
    + rewrite Hs in *. cbn [snd] in *. split; [lia|]. split.
      * intros u' e' t' [[= -> ->] | Hin] Hn'; [|eauto].
        destruct e' as [ts nm|]; [|contradiction].
        destruct Hn as [_ H1], Hn' as [_ H2]. rewrite H1 in H2. injection H2 as <-. lia.
      * right. destruct Hr as [Hr | (u' & e' & H1 & H2 & H3 & H4)].
        -- rewrite Hr. exists u, e. cbn [fst snd]. repeat split; auto. now left.
        -- exists u', e'. repeat split; auto; [now right|lia].
Qed.

End Resolve.

Lemma resolve_unfold (D : Data) (c : Z) (username : pystr) :
  resolve_username_to_id_local D c username =
  match d_activity D !! c with
  | None => None
  | Some activity =>
      match handle username with
      | [] => None
      | _ :: _ =>
          fst (fold_left
                 (fun (best : option Z * Z) (kv : Z * activity_entry) =>
                    match snd kv with
                    | AInfo ts name =>
                        if negb (bool_decide (default [] name = handle username)) then best
                        else match as_int ts with
                             | Some t => if t >? snd best then (Some (fst kv), t) else best
                             | None => best
                             end
                    | AOther => best
                    end)
                 activity (None, -1))
      end
  end.
Proof. reflexivity. Qed.

Lemma resolve_cases (D : Data) (c : Z) (username : pystr) :
  match resolve_username_to_id_local D c username with
  | Some u =>
      handle username <> [] /\
      exists users e t,
        d_activity D !! c = Some users /\ In (u, e) users /\
        named (handle username) t e /\ 0 <= t /\
        forall u' e' t', In (u', e') users -> named (handle username) t' e' -> t' <= t
  | None =>
      handle username = [] \/
      forall users u' e' t',
        d_activity D !! c = Some users -> In (u', e') users ->
        named (handle username) t' e' -> t' < 0
  end.
Proof.
  rewrite resolve_unfold. destruct (d_activity D !! c) as [users|] eqn:E.
  2:{ right. intros ? ? ? ? [=]. }
  destruct (handle username) as [|k0 key] eqn:Hk; [now left|].
  pose proof (resolve_fold (k0 :: key) users (None, -1)) as H. cbn zeta in H.
  destruct H as (Hle & Hmax & Hr). cbn [snd] in *.
  destruct Hr as [Hr | (u & e & H1 & H2 & H3 & H4)].
  - rewrite Hr in *. cbn [fst snd] in *. right. intros users' u' e' t' [= <-] Hin Hn.
    specialize (Hmax _ _ _ Hin Hn). lia.
  - rewrite H1. split; [discriminate|]. exists users, e. eexists.
    split; [reflexivity|]. split; [exact H2|]. split; [exact H3|].
    split; [lia|]. intros u' e' t' Hin Hn. eauto.
Qed.

Lemma od_set_In {K V : Type} `{EqDecision K} (k k' : K) (v v' : V) (d : odict K V) :
  In (k', v') (od_set k v d) -> (k' = k /\ v' = v) \/ In (k', v') d.
Proof.
  induction d as [|[k0 v0] r IH]; simpl.
  - intros [[= <- <-] | []]. now left.
  - case_bool_decide as Hk.
    + intros [[= <- <-] | Hin]; [now left|]. right. now right.
    + intros [Hin | Hin]; [right; now left|]. destruct (IH Hin); auto.
Qed.

Lemma od_set_In_new {K V : Type} `{EqDecision K} (k : K) (v : V) (d : odict K V) :
  In (k, v) (od_set k v d).
Proof.
  induction d as [|[k0 v0] r IH]; simpl; [now left|].
  case_bool_decide; [now left | now right].
Qed.

Lemma norm_username_handle (username : option pystr) :
  default [] (norm_username username) = handle (default [] username).
Proof.
  unfold norm_username, handle. cbv zeta.
  destruct (startswith (lit "@") (strip (default [] username)));
    [destruct (skipn 1 (strip (default [] username)))
    |destruct (strip (default [] username))]; reflexivity.
Qed.

(** X7. [resolve_username_to_id_local] returns a user only for a name
    that is not empty once stripped, freed of its [@] and lowered, and the
    user then has an entry under that name whose time is an integer, not
    negative, and not below that of any other entry under the name. It
    returns nothing exactly when the name is empty, the chat has no
    records, or no entry under the name has a time of 0 or more. *)
Theorem resolve_username_to_id_local_spec (D : Data) (c : Z) (username : pystr) :
  match resolve_username_to_id_local D c username with
  | Some u =>
      handle username <> [] /\
      exists users e t,
        d_activity D !! c = Some users /\ In (u, e) users /\
        named (handle username) t e /\ 0 <= t /\
        forall u' e' t', In (u', e') users -> named (handle username) t' e' -> t' <= t
  | None =>
      handle username = [] \/
      forall users u' e' t',
        d_activity D !! c = Some users -> In (u', e') users ->
        named (handle username) t' e' -> t' < 0
  end /\
  (resolve_username_to_id_local D c username = None <->
   handle username = [] \/
   forall users u' e' t',
     d_activity D !! c = Some users -> In (u', e') users ->
     named (handle username) t' e' -> t' < 0).
Proof.
  pose proof (resolve_cases D c username) as H.
  split; [exact H|].
  destruct (resolve_username_to_id_local D c username) as [u|].
  - destruct H as (Hne & users & e & t & Hu & Hin & Hn & Ht & _).
    split; [discriminate|]. intros [He | Hall]; [contradiction|].
    specialize (Hall users u e t Hu Hin Hn). lia.
  - split; [intros _; exact H | reflexivity].
Qed.

(** X8. Once [upsert_activity_local] has recorded a user under a name at a
    time of 0 or more, looking up any spelling of that name returns the
    user, provided every other user recorded under the name in that chat
    has an earlier time. *)
Theorem resolve_after_upsert (c u ts : Z) (username q : pystr) (st : State) :
  handle q = handle username -> handle q <> [] -> 0 <= ts ->
  (forall u' e' t',
     u' <> u -> In (u', e') (default [] (d_activity (DATA st) !! c)) ->
     named (handle q) t' e' -> t' < ts) ->
  resolve_username_to_id_local
    (DATA (upsert_activity_local c u ts (Some username) st)) c q = Some u.
Proof.
  intros Hq Hne Hts Hothers.
  remember (AInfo (PInt ts) (norm_username (Some username))) as e eqn:Ee.
  assert (HD : d_activity (DATA (upsert_activity_local c u ts (Some username) st)) !! c =
               Some (od_set u e (default [] (d_activity (DATA st) !! c)))).
  { subst e. unfold upsert_activity_local. cbn. apply lookup_insert_eq. }
  remember (DATA (upsert_activity_local c u ts (Some username) st)) as D' eqn:ED.
  assert (He : named (handle q) ts e).
  { subst e. cbn [named as_int]. split; [|reflexivity].
    rewrite norm_username_handle. cbn [default]. now rewrite Hq. }
  clear Ee ED.
  pose proof (resolve_cases D' c q) as H.
  destruct (resolve_username_to_id_local D' c q) as [u0|].
  - destruct H as (_ & users & e0 & t0 & Hu & Hin & Hn & _ & Hmax).
    pose proof (eq_trans (eq_sym Hu) HD) as Hx. injection Hx as ->.
    pose proof (Hmax u e ts (od_set_In_new _ _ _) He) as Hle.
    destruct (decide (u0 = u)) as [->|Hu0]; [reflexivity|].
    apply od_set_In in Hin as [[-> _] | Hin]; [contradiction|].
    specialize (Hothers _ _ _ Hu0 Hin Hn). lia.
  - destruct H as [H | H]; [contradiction|].
    specialize (H _ u e ts HD (od_set_In_new _ _ _) He). lia.
Qed.

Lemma resolve_after_upsert_witness :
  let st := upsert_activity_local 7 8 50 (Some (lit "Bob")) INIT in
  resolve_username_to_id_local (DATA st) 7 (lit "@BOB") = Some 8 /\
  resolve_username_to_id_local
    (DATA (upsert_activity_local 7 9 100 (Some (lit "@Bob")) st)) 7 (lit " bob") = Some 9.
Proof.
  cbv zeta. split; [vm_compute; reflexivity|].
  apply (resolve_after_upsert 7 9 100 (lit "@Bob") (lit " bob")
           (upsert_activity_local 7 8 50 (Some (lit "Bob")) INIT)).
  - vm_compute. reflexivity.
  - vm_compute. discriminate.
  - lia.
  - intros u' e' t' Hu Hin Hn. vm_compute in Hin.
    destruct Hin as [[= <- <-] | []]. vm_compute in Hn. destruct Hn as [_ [= <-]]. lia.
Defined.
(** ** The list of inactive users *)

Section Inactive.

Lemma py_slice_nonneg {A : Type} (l : list A) (lo hi : Z) :
  0 <= lo -> lo <= hi ->
  py_slice l lo hi = firstn (Z.to_nat (hi - lo)) (skipn (Z.to_nat lo) l).
Proof.
  intros Hlo Hhi. unfold py_slice.
  destruct (Z.ltb_spec hi 0) as [?|_]; [lia|].
  destruct (Z.ltb_spec lo 0) as [?|_]; [lia|].
  destruct (Z_le_gt_dec (Z.of_nat (List.length l)) lo) as [Hn|Hn].
  - rewrite !skipn_all2 by lia. now rewrite !firstn_nil.
  - rewrite (Z.min_l lo) by lia. destruct (Z_le_gt_dec hi (Z.of_nat (List.length l))).
    + now rewrite Z.min_l by lia.
    + rewrite Z.min_r by lia. rewrite !firstn_all2; [reflexivity| |];
        rewrite length_skipn; lia.
Qed.

Lemma py_slice_incl {A : Type} (l : list A) (lo hi : Z) (x : A) :
  In x (py_slice l lo hi) -> In x l.
Proof.
  unfold py_slice. intros H. apply firstn_incl in H.
  rewrite <- (firstn_skipn (Z.to_nat
    (if lo <? 0 then Z.max 0 (lo + Z.of_nat (List.length l))
     else Z.min lo (Z.of_nat (List.length l)))) l).
  apply in_or_app. now right.
Qed.

Lemma sorted_skipn {A : Type} (R : A -> A -> Prop) (n : nat) (l : list A) :
  StronglySorted R l -> StronglySorted R (skipn n l).
Proof.
  revert l. induction n as [|n IH]; intros l H; [exact H|].
  destruct H; [constructor|]. now apply IH.
Qed.

Lemma sorted_firstn {A : Type} (R : A -> A -> Prop) (n : nat) (l : list A) :
  StronglySorted R l -> StronglySorted R (firstn n l).
Proof.
  revert l. induction n as [|n IH]; intros l H; [constructor|].
  destruct H as [|x r Hr Hall]; [constructor|]. simpl. constructor; [now apply IH|].
  apply List.Forall_forall. intros y Hy. apply firstn_incl in Hy.
  rewrite List.Forall_forall in Hall. auto.
Qed.

#[local] Abbreviation older := (fun y x : Z * Z => snd y <? snd x).
#[local] Abbreviation oldest_first := (StronglySorted (fun a b : Z * Z => snd a <= snd b)).

Lemma insert_older_sorted (x : Z * Z) (l : list (Z * Z)) :
  oldest_first l -> oldest_first (insert_stable older x l).
Proof.
  induction 1 as [|y r Hr IH Hall]; simpl.
  - repeat constructor.
  - destruct (Z.ltb_spec (snd y) (snd x)) as [Hlt|Hge].
    + constructor; [exact IH|]. apply List.Forall_forall. intros z Hz.
      apply (Permutation_in _ (insert_stable_perm _ _ _)) in Hz.
      destruct Hz as [<-|Hz]; [lia|]. rewrite List.Forall_forall in Hall. auto.
    + constructor; [now constructor|]. constructor; [exact Hge|].
      eapply List.Forall_impl; [|exact Hall]. intros z Hz. cbn beta in Hz. lia.
Qed.

Lemma sort_older_sorted (l : list (Z * Z)) : oldest_first (stable_sort older l).
Proof.
  induction l as [|x r IH]; simpl; [constructor|]. now apply insert_older_sorted.
Qed.

Lemma count_fold (cutoff : Z) (activity : odict Z activity_entry) (n : Z) :
  fold_left
    (fun (cnt : Z) (kv : Z * activity_entry) =>
       match snd kv with
       | AInfo ts _ =>
           match as_int ts with
           | Some t => if t <? cutoff then cnt + 1 else cnt
           | None => cnt
           end
       | AOther => cnt
       end) activity n =
  n + Z.of_nat (List.length (List.filter (fun it => snd it <? cutoff) (activity_items activity))).
Proof.
  revert n. induction activity as [|[u e] r IH]; intros n; [simpl; lia|].
  cbn [fold_left]. rewrite IH. clear IH.
  assert (E : activity_items ((u, e) :: r) =
              match entry_ts e with
              | Some t => (u, t) :: activity_items r
              | None => activity_items r
              end).
  { unfold activity_items. simpl. destruct e as [ts nm|]; [|reflexivity].
    simpl. destruct (as_int ts); reflexivity. }
  rewrite E. destruct e as [ts nm|]; cbn [snd entry_ts]; [|reflexivity].
  destruct (as_int ts) as [t|]; [|reflexivity].
  cbn [List.filter snd]. destruct (t <? cutoff); cbn [List.length]; lia.
Qed.

Lemma fetch_unfold (D : Data) (c cutoff limit offset : Z) (activity : odict Z activity_entry) :
  d_activity D !! c = Some activity ->
  fetch_inactive_local D c cutoff limit offset =
  py_slice (stable_sort older
              (List.filter (fun it => snd it <? cutoff) (activity_items activity)))
    offset (offset + limit).
Proof.
  unfold fetch_inactive_local. intros E.
  change (d_activity D !! c = Some activity) in E.
  destruct (d_activity D !! c) as [a|]; [injection E as ->; reflexivity|discriminate].
Qed.

Lemma fetch_none (D : Data) (c cutoff limit offset : Z) :
  d_activity D !! c = None -> fetch_inactive_local D c cutoff limit offset = [].
Proof.
  unfold fetch_inactive_local. intros E.
  change (d_activity D !! c = None) in E.
  destruct (d_activity D !! c) as [a|]; [discriminate|reflexivity].
Qed.

End Inactive.

Lemma fetch_length (D : Data) (c cutoff limit offset : Z) :
  0 <= offset -> 0 <= limit ->
  Z.of_nat (List.length (fetch_inactive_local D c cutoff limit offset)) =
  Z.min limit (Z.max 0 (count_inactive_local D c cutoff - offset)).
Proof.
  intros Ho Hl. unfold count_inactive_local.
  destruct (d_activity D !! c) as [activity|] eqn:E.
  - rewrite (fetch_unfold _ _ _ _ _ _ E), count_fold, py_slice_nonneg by lia.
    rewrite length_firstn, length_skipn, stable_sort_length. lia.
  - rewrite (fetch_none _ _ _ _ _ E). simpl. lia.
Qed.

(** X9. For an offset and a limit of 0 or more, [fetch_inactive_local]
    returns as many rows as the limit allows of those left after the
    offset: [min(limit, max(0, count - offset))], where [count] is what
    [count_inactive_local] returns for the same chat and cutoff. *)
Theorem fetch_inactive_local_length (D : Data) (c cutoff limit offset : Z) :
  0 <= offset -> 0 <= limit ->
  Z.of_nat (List.length (fetch_inactive_local D c cutoff limit offset)) =
  Z.min limit (Z.max 0 (count_inactive_local D c cutoff - offset)).
Proof. apply fetch_length. Qed.

Lemma fetch_rows (D : Data) (c cutoff limit offset : Z) :
  StronglySorted (fun a b : Z * Z => snd a <= snd b)
    (fetch_inactive_local D c cutoff limit offset) /\
  forall uid ts : Z,
    In (uid, ts) (fetch_inactive_local D c cutoff limit offset) ->
    ts < cutoff /\
    exists users e,
      d_activity D !! c = Some users /\ In (uid, e) users /\ entry_ts e = Some ts.
Proof.
  destruct (d_activity D !! c) as [activity|] eqn:E.
  - rewrite (fetch_unfold _ _ _ _ _ _ E). split.
    + unfold py_slice. apply sorted_firstn, sorted_skipn, sort_older_sorted.
    + intros uid ts H. apply py_slice_incl, stable_sort_In, filter_In in H as [Hin Hlt].
      cbn [snd] in Hlt. split; [lia|].
      apply activity_items_In in Hin as (e & He & Hts). eauto.
  - rewrite (fetch_none _ _ _ _ _ E). split; [constructor|]. intros ? ? [].
Qed.

(** X10. Whatever the offset and the limit, the rows [fetch_inactive_local]
    returns are in ascending order of time, and each is a stored entry of
    the chat whose time is an integer below the cutoff. *)
Theorem fetch_inactive_local_rows (D : Data) (c cutoff limit offset : Z) :
  StronglySorted (fun a b : Z * Z => snd a <= snd b)
    (fetch_inactive_local D c cutoff limit offset) /\
  forall uid ts : Z,
    In (uid, ts) (fetch_inactive_local D c cutoff limit offset) ->
    ts < cutoff /\
    exists users e,
      d_activity D !! c = Some users /\ In (uid, e) users /\ entry_ts e = Some ts.
Proof. apply fetch_rows. Qed.

(** X11. Consecutive pages tile the list: for an offset and limits of 0 or
    more, the page of [l1] rows at [offset] followed by the page of [l2]
    rows at [offset + l1] is the page of [l1 + l2] rows at [offset]. *)
Theorem fetch_inactive_local_pages (D : Data) (c cutoff offset l1 l2 : Z) :
  0 <= offset -> 0 <= l1 -> 0 <= l2 ->
  fetch_inactive_local D c cutoff l1 offset ++
  fetch_inactive_local D c cutoff l2 (offset + l1) =
  fetch_inactive_local D c cutoff (l1 + l2) offset.
Proof.
  intros Ho H1 H2. destruct (d_activity D !! c) as [activity|] eqn:E.
  - rewrite !(fetch_unfold _ _ _ _ _ _ E), !py_slice_nonneg by lia.
    replace (Z.to_nat (offset + l1)) with (Z.to_nat l1 + Z.to_nat offset)%nat by lia.
    rewrite <- skipn_skipn.
    replace (Z.to_nat (offset + (l1 + l2) - offset)) with (Z.to_nat l1 + Z.to_nat l2)%nat by lia.
    replace (Z.to_nat (offset + l1 - offset)) with (Z.to_nat l1) by lia.
    replace (Z.to_nat (offset + l1 + l2 - (offset + l1))) with (Z.to_nat l2) by lia.
    generalize (skipn (Z.to_nat offset)
                  (stable_sort (fun y x : Z * Z => snd y <? snd x)
                     (List.filter (fun it => snd it <? cutoff) (activity_items activity)))).
    intros l. revert l. generalize (Z.to_nat l1) as n. induction n as [|n IH]; intros l.
    + reflexivity.
    + destruct l as [|x l]; [simpl; now rewrite firstn_nil|]. simpl. f_equal. apply IH.
  - now rewrite !(fetch_none _ _ _ _ _ E).
Qed.

Lemma fetch_inactive_local_length_witness :
  fetch_inactive_local sample_members 7 5000 2 1 = [(1, 1000); (6, 2000)] /\
  Z.of_nat (List.length (fetch_inactive_local sample_members 7 5000 2 1)) =
  Z.min 2 (Z.max 0 (count_inactive_local sample_members 7 5000 - 1)).
Proof.
  split; [vm_compute; reflexivity|].
  apply (fetch_inactive_local_length sample_members 7 5000 2 1); lia.
Defined.

Lemma fetch_inactive_local_pages_witness :
  fetch_inactive_local sample_members 7 5000 1 1 ++
  fetch_inactive_local sample_members 7 5000 1 (1 + 1) =
  fetch_inactive_local sample_members 7 5000 (1 + 1) 1.
Proof. apply (fetch_inactive_local_pages sample_members 7 5000 1 1 1); lia. Defined.
(** ** Paging and cleanup of the inactive list *)

Lemma count_nonneg (D : Data) (c cutoff : Z) : 0 <= count_inactive_local D c cutoff.
Proof.
  unfold count_inactive_local. destruct (d_activity D !! c); [|lia].
  rewrite count_fold. lia.
Qed.

(** X12. On a page numbered 0 or more of the inactive list, the button
    that leads forward is offered exactly when the next page has rows, and
    the button that leads back exactly when the page is not the first and
    the list is not empty. *)
Theorem inactive_list_buttons (now : Q) (D : Data) (c page total total' : Z)
    (rows rows' : list (Z * Z)) (kb kb' : list nav) :
  0 <= page ->
  render_inactive_list now D c page = Ok (total, rows, kb) ->
  render_inactive_list now D c (page + 1) = Ok (total', rows', kb') ->
  (In (NavNext (page + 1)) kb <-> rows' <> []) /\
  (In (NavPrev (page - 1)) kb <-> 0 < page /\ 0 < total).
Proof.
  intros Hp. unfold render_inactive_list.
  destruct (int (cleanup_days (get_settings_local D c))) as [days|]; [|discriminate].
  set (cutoff := int_of_float now - days * 24 * 3600).
  pose proof (count_nonneg D c cutoff) as Hc.
  pose proof (fetch_length D c cutoff INACTIVE_PAGE_SIZE ((page + 1) * INACTIVE_PAGE_SIZE))
    as Hlen.
  unfold INACTIVE_PAGE_SIZE in *.
  destruct (Z.eqb_spec (count_inactive_local D c cutoff) 0) as [E0|E0].
  - intros [= <- <- <-] [= <- <- <-]. cbn. split; split; [intros []|congruence|intros []|lia].
  - intros [= <- <- <-] [= <- <- <-]. unfold build_inactive_kb, INACTIVE_PAGE_SIZE.
    set (total := count_inactive_local D c cutoff) in *.
    set (rows' := fetch_inactive_local D c cutoff 15 ((page + 1) * 15)) in *.
    assert (Hrows : rows' <> [] <-> 15 * (page + 1) < total).
    { specialize (Hlen ltac:(lia) ltac:(lia)). destruct rows'; cbn [List.length] in Hlen.
      - split; [congruence|lia].
      - split; [lia|discriminate]. }
    rewrite Hrows. clear Hrows Hlen. clearbody total rows'. clear rows' cutoff.
    pose proof (Z.div_mod (total - 1) 15 ltac:(lia)) as Hdm.
    pose proof (Z.mod_pos_bound (total - 1) 15 ltac:(lia)) as Hmb.
    destruct (Z.gtb_spec page 0) as [H1|H1];
      destruct (Z.ltb_spec page (Z.max 0 ((total - 1) / 15))) as [H2|H2];
      cbn [app In]; split; split; intros H;
      repeat match goal with
             | H : _ \/ _ |- _ => destruct H
             | H : NavPrev _ = NavNext _ |- _ => discriminate H
             | H : NavNext _ = NavPrev _ |- _ => discriminate H
             | H : False |- _ => destruct H
             end; auto; try lia; exfalso; lia.
Qed.

Lemma inactive_list_buttons_witness :
  exists rows rows' : list (Z * Z),
    render_inactive_list (2000000 # 1) sample_crowd 7 0 = Ok (20, rows, [NavNext 1]) /\
    render_inactive_list (2000000 # 1) sample_crowd 7 (0 + 1) = Ok (20, rows', [NavPrev 0]) /\
    List.length rows = 15%nat /\ List.length rows' = 5%nat /\
    (In (NavNext (0 + 1)) [NavNext 1] <-> rows' <> []) /\
    (In (NavPrev (0 - 1)) [NavNext 1] <-> 0 < 0 /\ 0 < 20).
Proof.
  eexists. eexists.
  split; [vm_compute; reflexivity|]. split; [vm_compute; reflexivity|].
  split; [reflexivity|]. split; [reflexivity|].
  eapply (inactive_list_buttons (2000000 # 1) sample_crowd 7 0 20 20).
  - lia.
  - vm_compute. reflexivity.
  - vm_compute. reflexivity.
Defined.

Section Cleanup.

Variables (tg : Platform) (accepts : call -> bool) (mode : pyval) (c : Z).

(** The call [k] is one [cleanup_rows] may make for [rows], given the
    calls [calls] made with it. *)
#[local] Abbreviation due rows calls k :=
  (exists u ts status,
     In (u, ts) rows /\ tg c u = Some status /\ spared status = false /\
     (k = Ban c u None \/
      k = Unban c u /\ eq_str mode "ban" = false /\ accepts (Ban c u None) = true /\
      In (Ban c u None) calls)).

Lemma due_weaken (rows rows' : list (Z * Z)) (calls calls' : list call) (k : call) :
  incl rows rows' -> incl calls calls' -> due rows calls k -> due rows' calls' k.
Proof.
  intros Hr Hc (u & ts & status & H1 & H2 & H3 & H4).
  exists u, ts, status. repeat split; auto.
  destruct H4 as [H4 | (H4 & H5 & H6 & H7)]; [now left|]. right. auto.
Qed.

Lemma cleanup_rows_spec (rows : list (Z * Z)) :
  0 <= snd (cleanup_rows tg accepts mode c rows) <= Z.of_nat (List.length rows) /\
  forall k : call,
    In k (fst (cleanup_rows tg accepts mode c rows)) ->
    due rows (fst (cleanup_rows tg accepts mode c rows)) k.
Proof.
  induction rows as [|[u ts] rows [IHn IHc]].
  - cbn. split; [lia|]. intros k [].
  - cbn [cleanup_rows List.length].
    destruct (cleanup_rows tg accepts mode c rows) as [calls removed]. cbn [fst snd] in *.
    assert (Hrest : forall pre k, In k calls -> due ((u, ts) :: rows) (pre ++ calls) k).
    { intros pre k Hk. apply (due_weaken rows _ calls _ k); auto.
      - intros x Hx. now right.
      - intros x Hx. apply in_or_app. now right. }
    destruct (tg c u) as [status|] eqn:Etg.
    2:{ cbn [fst snd]. split; [lia|]. intros k Hk. apply (Hrest [] k Hk). }
    change (existsb (String.eqb status) ["administrator"; "creator"; "left"; "kicked"]%string)
      with (spared status).
    destruct (spared status) eqn:Esp.
    { cbn [fst snd]. split; [lia|]. intros k Hk. apply (Hrest [] k Hk). }
    assert (Hban : forall calls', due ((u, ts) :: rows) calls' (Ban c u None)).
    { intros calls'. exists u, ts, status. repeat split; auto; now left. }
    destruct (eq_str mode "ban") eqn:Em.
    + destruct (accepts (Ban c u None)); cbn [fst snd]; (split; [lia|]);
        intros k [Hk | Hk]; try (rewrite <- Hk; apply Hban);
        apply (Hrest [Ban c u None] k Hk).
    + destruct (accepts (Ban c u None)) eqn:Eb; cbn [negb].
      * assert (Hunban : due ((u, ts) :: rows) (Ban c u None :: Unban c u :: calls)
                           (Unban c u)).
        { exists u, ts, status. repeat split; auto; [now left|].
          right. repeat split; auto. now left. }
        rewrite Em in Hunban.
        destruct (accepts (Unban c u)); cbn [fst snd]; (split; [lia|]);
          intros k [Hk | [Hk | Hk]]; try (rewrite <- Hk; apply Hban);
          try (rewrite <- Hk; exact Hunban);
          apply (Hrest [Ban c u None; Unban c u] k Hk).
      * cbn [fst snd]. split; [lia|].
        intros k [Hk | Hk]; [rewrite <- Hk; apply Hban|].
        apply (Hrest [Ban c u None] k Hk).
Qed.

End Cleanup.

(** X13. Every call [run_cleanup_once] makes is a ban without end date, or
    the lifting of a ban it has just had accepted when the mode is not
    [ban]. The user it concerns is one the platform reports with a status
    other than administrator, creator, left and kicked, and has a stored
    entry in the chat whose time is more than [cleanup_days] days before
    the clock reading. *)
Theorem run_cleanup_once_targets (tg : Platform) (accepts : call -> bool) (now : Q)
    (D : Data) (c : Z) (calls : list call) (processed removed : Z) :
  run_cleanup_once tg accepts now D c = Ok (calls, (processed, removed)) ->
  forall k : call,
    In k calls ->
    exists (u : Z) (status : string) (days : Z) (users : odict Z activity_entry)
           (e : activity_entry) (ts : Z),
      (k = Ban c u None \/
       k = Unban c u /\ eq_str (cleanup_mode (get_settings_local D c)) "ban" = false /\
       accepts (Ban c u None) = true /\ In (Ban c u None) calls) /\
      tg c u = Some status /\ spared status = false /\
      int (cleanup_days (get_settings_local D c)) = Ok days /\
      d_activity D !! c = Some users /\ In (u, e) users /\ entry_ts e = Some ts /\
      ts < int_of_float now - days * 24 * 3600.
Proof.
  unfold run_cleanup_once.
  destruct (int (cleanup_days (get_settings_local D c))) as [days|]; [|discriminate].
  set (cutoff := int_of_float now - days * 24 * 3600).
  pose proof (cleanup_rows_spec tg accepts (cleanup_mode (get_settings_local D c)) c
                (fetch_inactive_local D c cutoff 10000 0)) as [_ Hc].
  destruct (cleanup_rows tg accepts _ c _) as [calls0 removed0].
  intros [= <- _ _] k Hk. cbn [fst] in Hc.
  destruct (Hc k Hk) as (u & ts & status & Hrow & Htg & Hsp & Hkind).
  pose proof (fetch_rows D c cutoff 10000 0) as [_ Hrows].
  destruct (Hrows u ts Hrow) as (Hlt & users & e & Hu & He & Hts).
  exists u, status, days, users, e, ts. repeat split; auto.
Qed.

Lemma run_cleanup_once_targets_witness :
  run_cleanup_once one_admin (fun _ => true) (2000000 # 1) sample_members 7 =
  Ok ([Ban 7 1 None; Unban 7 1; Ban 7 6 None; Unban 7 6], (3, 2)) /\
  exists (u : Z) (status : string) (days : Z) (users : odict Z activity_entry)
         (e : activity_entry) (ts : Z),
    (Unban 7 6 = Ban 7 u None \/
     Unban 7 6 = Unban 7 u /\
     eq_str (cleanup_mode (get_settings_local sample_members 7)) "ban" = false /\
     (fun _ : call => true) (Ban 7 u None) = true /\
     In (Ban 7 u None) [Ban 7 1 None; Unban 7 1; Ban 7 6 None; Unban 7 6]) /\
    one_admin 7 u = Some status /\ spared status = false /\
    int (cleanup_days (get_settings_local sample_members 7)) = Ok days /\
    d_activity sample_members !! 7 = Some users /\ In (u, e) users /\
    entry_ts e = Some ts /\ ts < int_of_float (2000000 # 1) - days * 24 * 3600.
Proof.
  split; [vm_compute; reflexivity|].
  apply (run_cleanup_once_targets one_admin (fun _ => true) (2000000 # 1) sample_members 7
           [Ban 7 1 None; Unban 7 1; Ban 7 6 None; Unban 7 6] 3 2).
  - vm_compute. reflexivity.
  - simpl. tauto.
Defined.

(** X14. [run_cleanup_once] processes the inactive users of the chat up to
    10000 of them, and reports as removed no more than it processed. *)
Theorem run_cleanup_once_counts (tg : Platform) (accepts : call -> bool) (now : Q)
    (D : Data) (c : Z) (calls : list call) (processed removed : Z) :
  run_cleanup_once tg accepts now D c = Ok (calls, (processed, removed)) ->
  exists days : Z,
    int (cleanup_days (get_settings_local D c)) = Ok days /\
    processed =
      Z.min 10000 (count_inactive_local D c (int_of_float now - days * 24 * 3600)) /\
    0 <= removed <= processed.
Proof.
  unfold run_cleanup_once.
  destruct (int (cleanup_days (get_settings_local D c))) as [days|]; [|discriminate].
  set (cutoff := int_of_float now - days * 24 * 3600).
  pose proof (cleanup_rows_spec tg accepts (cleanup_mode (get_settings_local D c)) c
                (fetch_inactive_local D c cutoff 10000 0)) as [Hn _].
  destruct (cleanup_rows tg accepts _ c _) as [calls0 removed0].
  intros [= _ <- <-]. cbn [snd] in Hn. exists days. split; [reflexivity|].
  pose proof (fetch_length D c cutoff 10000 0 ltac:(lia) ltac:(lia)) as Hlen.
  pose proof (count_nonneg D c cutoff). subst cutoff. split; lia.
Qed.

Lemma run_cleanup_once_counts_witness :
  exists days : Z,
    int (cleanup_days (get_settings_local sample_members 7)) = Ok days /\
    3 = Z.min 10000
          (count_inactive_local sample_members 7 (int_of_float (2000000 # 1) - days * 24 * 3600)) /\
    0 <= 2 <= 3.
Proof.
  apply (run_cleanup_once_counts one_admin (fun _ => true) (2000000 # 1) sample_members 7
           [Ban 7 1 None; Unban 7 1; Ban 7 6 None; Unban 7 6] 3 2).
  vm_compute. reflexivity.
Defined.
(** ** The settings stay within their bounds *)

Section Bounds.

Lemma asdict_items_names (s : ChatSettings) : List.map fst (asdict_items s) = FIELD_NAMES.
Proof. reflexivity. Qed.

Lemma FIELD_NAMES_NoDup : NoDup FIELD_NAMES.
Proof. apply (bool_decide_eq_true_1 (NoDup FIELD_NAMES)). vm_compute. reflexivity. Qed.

Lemma field_value_In (s : ChatSettings) (name : string) (v : pyval) :
  field_value s name = Some v <-> In (name, v) (asdict_items s).
Proof.
  unfold field_value, asdict. rewrite <- list_elem_of_In. symmetry.
  apply elem_of_list_to_map. change (NoDup (List.map fst (asdict_items s))).
  rewrite asdict_items_names. apply FIELD_NAMES_NoDup.
Qed.

Lemma field_value_name (s : ChatSettings) (name : string) (v : pyval) :
  field_value s name = Some v -> In name FIELD_NAMES.
Proof.
  intros H. apply field_value_In in H. rewrite <- (asdict_items_names s).
  apply in_map_iff. exists (name, v). auto.
Qed.

Lemma in_bounds_fields (s : ChatSettings) :
  in_bounds s = true <->
  forall name v, field_value s name = Some v -> valid_value name v = true.
Proof.
  unfold in_bounds. rewrite forallb_forall. split.
  - intros H name v Hv. apply field_value_In in Hv. apply (H (name, v) Hv).
  - intros H [name v] Hin. apply (H name v), field_value_In, Hin.
Qed.

Lemma valid_value_name (field : string) (v : pyval) :
  valid_value field v = true -> In field FIELD_NAMES.
Proof.
  unfold valid_value. cbn [existsb].
  repeat match goal with
         | |- context [String.eqb field ?n] =>
             destruct (String.eqb_spec field n) as [->|_];
             [intros _; cbn; tauto|]
         end.
  cbn. discriminate.
Qed.

Lemma field_after_set (fs_ok : bool) (c c' : Z) (field name : string) (v : pyval)
    (st : State) :
  In field FIELD_NAMES -> In name FIELD_NAMES ->
  field_value (get_settings_local (DATA (fst (set_setting_local fs_ok c field v st))) c') name =
  if bool_decide (c' = c /\ name = field) then Some v
  else field_value (get_settings_local (DATA st) c') name.
Proof.
  intros Hf Hn. pose proof (set_setting_local_ok fs_ok c field v st Hf) as E.
  cbv zeta in E. rewrite E. cbn [fst]. rewrite save_data_DATA. cbn [DATA with_DATA].
  rewrite !(get_settings_field _ _ _ Hn). cbn [d_settings].
  destruct (decide (c' = c)) as [->|Hc].
  - rewrite lookup_insert_eq. destruct (decide (name = field)) as [->|Hne].
    + rewrite lookup_insert_eq. rewrite bool_decide_eq_true_2 by auto. reflexivity.
    + rewrite lookup_insert_ne by congruence.
      rewrite bool_decide_eq_false_2 by (intros [_ ?]; contradiction).
      destruct (d_settings (DATA st) !! c) as [[raw|]|]; try reflexivity.
      * unfold field_value. destruct (asdict DEFAULT !! name); reflexivity.
      * unfold field_value. destruct (asdict DEFAULT !! name); reflexivity.
  - rewrite lookup_insert_ne by congruence.
    rewrite bool_decide_eq_false_2 by (intros [? _]; contradiction). reflexivity.
Qed.

Lemma set_valid_in_bounds (fs_ok : bool) (c c' : Z) (field : string) (v : pyval)
    (st : State) :
  valid_value field v = true ->
  in_bounds (get_settings_local (DATA st) c') = true ->
  in_bounds (get_settings_local (DATA (fst (set_setting_local fs_ok c field v st))) c') = true.
Proof.
  intros Hv Hb. pose proof (valid_value_name _ _ Hv) as Hf.
  rewrite in_bounds_fields in Hb |- *. intros name x Hx.
  pose proof (field_value_name _ _ _ Hx) as Hn.
  rewrite (field_after_set _ _ _ _ _ _ _ Hf Hn) in Hx.
  case_bool_decide as Hk.
  - destruct Hk as [_ ->]. now injection Hx as <-.
  - eauto.
Qed.

Lemma set_settings_in_bounds (fs_ok : bool) (c c' : Z) (updates : list (string * pyval))
    (st : State) :
  (forall f v, In (f, v) updates -> valid_value f v = true) ->
  in_bounds (get_settings_local (DATA st) c') = true ->
  in_bounds (get_settings_local (DATA (fst (set_settings fs_ok c updates st))) c') = true.
Proof.
  revert st. induction updates as [|[f v] r IH]; intros st Hall Hb; [exact Hb|].
  cbn [set_settings].
  pose proof (set_valid_in_bounds fs_ok c c' f v st (Hall f v (or_introl eq_refl)) Hb) as H1.
  destruct (set_setting_local fs_ok c f v st) as [st' [e|]]; cbn [fst] in *; [exact H1|].
  apply IH; [|exact H1]. intros f' v' Hin. apply Hall. now right.
Qed.

Lemma min_plus_valid (lo hi k : Z) (x v : pyval) :
  int_in lo hi x = true -> 0 <= k -> min_plus hi x k = Ok v -> int_in lo hi v = true.
Proof.
  destruct x as [| |n|]; try discriminate. cbn. intros H Hk [= <-]. cbn.
  apply andb_true_iff in H as [H1 H2]. apply Z.leb_le in H1, H2.
  apply andb_true_iff. split; apply Z.leb_le; lia.
Qed.

Lemma max_minus_valid (lo hi k : Z) (x v : pyval) :
  int_in lo hi x = true -> 0 <= k -> max_minus lo x k = Ok v -> int_in lo hi v = true.
Proof.
  destruct x as [| |n|]; try discriminate. cbn. intros H Hk [= <-]. cbn.
  apply andb_true_iff in H as [H1 H2]. apply Z.leb_le in H1, H2.
  apply andb_true_iff. split; apply Z.leb_le; lia.
Qed.

Lemma index_str_bound (x : pyval) (modes : list string) (i : nat) :
  index_str x modes = Some i -> (i < List.length modes)%nat.
Proof.
  revert i. induction modes as [|m r IH]; intros i; [discriminate|]. cbn.
  destruct (eq_str x m); [intros [= <-]; lia|].
  destruct (index_str x r) as [j|]; [|discriminate]. cbn. intros [= <-].
  specialize (IH j eq_refl). lia.
Qed.

Lemma next_mode_valid (modes : list string) (x v : pyval) :
  next_mode modes x = Ok v -> str_in modes v = true.
Proof.
  unfold next_mode. destruct (index_str x modes) as [i|] eqn:E; [|discriminate].
  intros [= <-]. cbn. apply index_str_bound in E. apply existsb_exists.
  exists (nth ((i + 1) mod List.length modes) modes ""%string).
  split; [|apply String.eqb_refl]. apply nth_In, Nat.mod_upper_bound. lia.
Qed.

Lemma next_days_valid (x v : pyval) :
  next_days x = Ok v -> int_among [7; 14; 30; 60; 90] v = true.
Proof.
  unfold next_days. cbv zeta.
  set (curd := match as_int x with
               | Some n => if existsb (Z.eqb n) [7; 14; 30; 60; 90] then n else 14
               | None => 14
               end).
  assert (H : In curd [7; 14; 30; 60; 90]).
  { subst curd. destruct (as_int x) as [n|]; [|cbn; tauto].
    destruct (existsb (Z.eqb n) [7; 14; 30; 60; 90]) eqn:E; [|cbn; tauto].
    apply existsb_exists in E as (o & Ho & Hn). apply Z.eqb_eq in Hn. now subst. }
  clearbody curd. cbn in H.
  decompose [or] H; try contradiction; subst curd; cbn; intros [= <-]; reflexivity.
Qed.

End Bounds.

Section Buttons.

Lemma bounds_field (s : ChatSettings) (name : string) (v : pyval) :
  in_bounds s = true -> field_value s name = Some v -> valid_value name v = true.
Proof. intros H. apply in_bounds_fields, H. Qed.

Lemma one_update (field : string) (r : res pyval) (updates : list (string * pyval))
    (P : string -> pyval -> Prop) :
  (forall v, r = Ok v -> P field v) ->
  match r with
  | Ok v => Ok [(field, v)]
  | Raise e => Raise e
  end = Ok updates ->
  forall f v, In (f, v) updates -> P f v.
Proof.
  intros H. destruct r as [x|]; [|discriminate]. intros [= <-] f v [[= <- <-] | []]. auto.
Qed.

Lemma button_updates_valid (data : string) (s : ChatSettings)
    (updates : list (string * pyval)) :
  in_bounds s = true -> button_updates data s = Ok updates ->
  forall f v, In (f, v) updates -> valid_value f v = true.
Proof.
  intros Hb. unfold button_updates. cbv zeta beta.
  assert (Hfield : forall name v, field_value s name = Some v -> valid_value name v = true)
    by (apply in_bounds_fields, Hb).
  pose proof (Hfield "mute_seconds"%string (mute_seconds s) eq_refl) as H1.
  pose proof (Hfield "flood_limit"%string (flood_limit s) eq_refl) as H2.
  pose proof (Hfield "flood_window_sec"%string (flood_window_sec s) eq_refl) as H3.
  pose proof (Hfield "repeat_limit"%string (repeat_limit s) eq_refl) as H4.
  pose proof (Hfield "sticker_limit"%string (sticker_limit s) eq_refl) as H5.
  pose proof (Hfield "gif_limit"%string (gif_limit s) eq_refl) as H6.
  pose proof (Hfield "media_window_sec"%string (media_window_sec s) eq_refl) as H7.
  change (int_in 30 86400 (mute_seconds s) = true) in H1.
  change (int_in 2 50 (flood_limit s) = true) in H2.
  change (int_in 3 120 (flood_window_sec s) = true) in H3.
  change (int_in 2 10 (repeat_limit s) = true) in H4.
  change (int_in 1 30 (sticker_limit s) = true) in H5.
  change (int_in 1 30 (gif_limit s) = true) in H6.
  change (int_in 3 120 (media_window_sec s) = true) in H7.
  clear Hfield Hb.
  repeat match goal with
         | |- (if ?b then _ else _) = Ok updates -> _ =>
             destruct b;
             [first
                [ intros [= <-] f v Hin; cbn in Hin;
                  repeat (destruct Hin as [[= <- <-] | Hin]; [try reflexivity|]);
                  try contradiction;
                  try (destruct (eq_str (action s) "delete"); reflexivity)
                | apply one_update; intros v Hv; cbv -[int_in str_in int_among];
                  first [ eapply (min_plus_valid 30 86400); [exact H1| |exact Hv]; lia
                        | eapply (max_minus_valid 30 86400); [exact H1| |exact Hv]; lia
                        | eapply (min_plus_valid 2 50); [exact H2| |exact Hv]; lia
                        | eapply (max_minus_valid 2 50); [exact H2| |exact Hv]; lia
                        | eapply (min_plus_valid 3 120); [exact H3| |exact Hv]; lia
                        | eapply (max_minus_valid 3 120); [exact H3| |exact Hv]; lia
                        | eapply (min_plus_valid 2 10); [exact H4| |exact Hv]; lia
                        | eapply (max_minus_valid 2 10); [exact H4| |exact Hv]; lia
                        | eapply (min_plus_valid 1 30); [exact H5| |exact Hv]; lia
                        | eapply (max_minus_valid 1 30); [exact H5| |exact Hv]; lia
                        | eapply (min_plus_valid 1 30); [exact H6| |exact Hv]; lia
                        | eapply (max_minus_valid 1 30); [exact H6| |exact Hv]; lia
                        | eapply (min_plus_valid 3 120); [exact H7| |exact Hv]; lia
                        | eapply (max_minus_valid 3 120); [exact H7| |exact Hv]; lia
                        | exact (next_mode_valid _ _ _ Hv)
                        | exact (next_days_valid _ _ Hv) ] ]
             |]
         end.
  intros [= <-] f v [].
Qed.

End Buttons.

(** X15. Settings within their bounds stay within them under every button
    of the settings panel, whoever presses it and whatever the callback
    data: each switch remains a [bool], [flood_limit] remains in 2..50,
    [flood_window_sec] and [media_window_sec] in 3..120, [repeat_limit] in
    2..10, the sticker and animation limits in 1..30, [mute_seconds] in
    30..86400, [cleanup_days] among 7, 14, 30, 60, 90, and each mode among
    the names its button cycles through. This holds for the chat of the
    button and for every other chat. *)
Theorem cb_settings_keeps_bounds (tg : Platform) (fs_ok : bool) (c c' : Z)
    (from_user : option Z) (data : string) (st : State) :
  in_bounds (get_settings_local (DATA st) c') = true ->
  in_bounds (get_settings_local (DATA (cb_settings tg fs_ok c from_user data st)) c') = true.
Proof.
  intros Hb. unfold cb_settings. destruct from_user as [uid|]; [|exact Hb].
  destruct (String.prefix "tg:wl_" data && negb (wl_allowed _)); [exact Hb|].
  destruct (negb (can_use _ "settings")); [exact Hb|].
  destruct (button_updates data (get_settings_local (DATA st) c)) as [updates|] eqn:E;
    [|exact Hb].
  destruct (decide (c' = c)) as [->|Hc].
  - apply set_settings_in_bounds; [|exact Hb].
    apply (button_updates_valid data _ updates Hb E).
  - clear E. revert st Hb. induction updates as [|[f v] r IH]; intros st Hb; [exact Hb|].
    cbn [set_settings].
    assert (H1 : in_bounds
                   (get_settings_local (DATA (fst (set_setting_local fs_ok c f v st))) c') = true).
    { unfold set_setting_local. destruct (negb (bool_decide _)); [exact Hb|].
      cbn [fst]. rewrite save_data_DATA. unfold get_settings_local in *.
      cbn [DATA with_DATA d_settings]. rewrite lookup_insert_ne by congruence. exact Hb. }
    destruct (set_setting_local fs_ok c f v st) as [st' [e|]]; cbn [fst] in *; [exact H1|].
    apply IH, H1.
Qed.

Lemma cb_settings_keeps_bounds_witness :
  in_bounds (get_settings_local (DATA sample_state) 7) = true /\
  flood_limit (get_settings_local (DATA sample_state) 7) = PInt 3 /\
  flood_limit
    (get_settings_local
       (DATA (cb_settings (fun _ _ => Some "creator"%string) true 7 (Some 1) "tg:flood_dec"
                (cb_settings (fun _ _ => Some "creator"%string) true 7 (Some 1) "tg:flood_dec"
                   sample_state))) 7) = PInt 2 /\
  in_bounds
    (get_settings_local
       (DATA (cb_settings (fun _ _ => Some "creator"%string) true 7 (Some 1) "tg:flood_dec"
                sample_state)) 7) = true.
Proof.
  split; [vm_compute; reflexivity|]. split; [vm_compute; reflexivity|].
  split; [vm_compute; reflexivity|].
  apply (cb_settings_keeps_bounds (fun _ _ => Some "creator"%string) true 7 7 (Some 1)
           "tg:flood_dec" sample_state).
  vm_compute. reflexivity.
Defined.

Lemma set_settings_frame (fs_ok : bool) (c : Z) (updates : list (string * pyval))
    (st : State) :
  let st' := fst (set_settings fs_ok c updates st) in
  d_roles (DATA st') = d_roles (DATA st) /\ d_warns (DATA st') = d_warns (DATA st) /\
  d_activity (DATA st') = d_activity (DATA st) /\
  d_whitelist (DATA st') = d_whitelist (DATA st) /\
  msg_times st' = msg_times st /\ last_hash st' = last_hash st /\
  sticker_times st' = sticker_times st /\ gif_times st' = gif_times st /\
  album_seen st' = album_seen st /\
  forall c', c' <> c -> d_settings (DATA st') !! c' = d_settings (DATA st) !! c'.
Proof.
  cbv zeta. revert st. induction updates as [|[f v] r IH]; intros st.
  - cbn. repeat split; reflexivity.
  - cbn [set_settings].
    assert (H1 : let st1 := fst (set_setting_local fs_ok c f v st) in
                 d_roles (DATA st1) = d_roles (DATA st) /\
                 d_warns (DATA st1) = d_warns (DATA st) /\
                 d_activity (DATA st1) = d_activity (DATA st) /\
                 d_whitelist (DATA st1) = d_whitelist (DATA st) /\
                 msg_times st1 = msg_times st /\ last_hash st1 = last_hash st /\
                 sticker_times st1 = sticker_times st /\ gif_times st1 = gif_times st /\
                 album_seen st1 = album_seen st /\
                 forall c', c' <> c -> d_settings (DATA st1) !! c' = d_settings (DATA st) !! c').
    { cbv zeta. unfold set_setting_local. destruct (negb (bool_decide _)).
      - cbn. repeat split; reflexivity.
      - cbn [fst]. rewrite save_data_DATA. destruct fs_ok; cbn; repeat split; try reflexivity;
          intros c' Hc; apply lookup_insert_ne; congruence. }
    cbv zeta in H1.
    destruct (set_setting_local fs_ok c f v st) as [st1 [e|]]; cbn [fst] in *; [exact H1|].
    specialize (IH st1).
    destruct H1 as (A1 & A2 & A3 & A4 & A5 & A6 & A7 & A8 & A9 & A10).
    destruct IH as (B1 & B2 & B3 & B4 & B5 & B6 & B7 & B8 & B9 & B10).
    repeat split; try congruence. intros c' Hc. rewrite B10, A10 by exact Hc. reflexivity.
Qed.

(** X16. A settings button changes nothing but the stored settings of the
    chat in which it is pressed: roles, warnings, activity records, the
    whitelist, the message windows and the settings of other chats are as
    before. And it changes nothing at all unless the user who pressed it
    has the rank of head admin or above in that chat. *)
Theorem cb_settings_frame (tg : Platform) (fs_ok : bool) (c : Z) (from_user : option Z)
    (data : string) (st : State) :
  d_roles (DATA (cb_settings tg fs_ok c from_user data st)) = d_roles (DATA st) /\
  d_warns (DATA (cb_settings tg fs_ok c from_user data st)) = d_warns (DATA st) /\
  d_activity (DATA (cb_settings tg fs_ok c from_user data st)) = d_activity (DATA st) /\
  d_whitelist (DATA (cb_settings tg fs_ok c from_user data st)) = d_whitelist (DATA st) /\
  msg_times (cb_settings tg fs_ok c from_user data st) = msg_times st /\
  last_hash (cb_settings tg fs_ok c from_user data st) = last_hash st /\
  sticker_times (cb_settings tg fs_ok c from_user data st) = sticker_times st /\
  gif_times (cb_settings tg fs_ok c from_user data st) = gif_times st /\
  album_seen (cb_settings tg fs_ok c from_user data st) = album_seen st /\
  (forall c', c' <> c ->
     d_settings (DATA (cb_settings tg fs_ok c from_user data st)) !! c' =
     d_settings (DATA st) !! c') /\
  (cb_settings tg fs_ok c from_user data st <> st ->
   exists uid, from_user = Some uid /\
               role_at_least (get_effective_role tg (DATA st) c uid) ROLE_HEAD = true).
Proof.
  assert (Hsame : forall P : State -> Prop,
            (forall updates, P (fst (set_settings fs_ok c updates st))) -> P st ->
            P (cb_settings tg fs_ok c from_user data st)).
  { intros P Hset Hst. unfold cb_settings. destruct from_user as [uid|]; [|exact Hst].
    destruct (String.prefix "tg:wl_" data && negb (wl_allowed _)); [exact Hst|].
    destruct (negb (can_use _ "settings")); [exact Hst|].
    destruct (button_updates data _); [apply Hset|exact Hst]. }
  repeat apply conj;
    try (apply Hsame; [intros updates; apply (set_settings_frame fs_ok c updates st)
                      |reflexivity]).
  unfold cb_settings. destruct from_user as [uid|]; [|congruence].
    destruct (String.prefix "tg:wl_" data && negb (wl_allowed _)); [congruence|].
    destruct (can_use (get_effective_role tg (DATA st) c uid) "settings") eqn:E;
      cbn [negb]; [|congruence].
    intros _. exists uid. split; [reflexivity|exact E].
Qed.
Lemma field_action (s : ChatSettings) : field_value s "action" = Some (action s).
Proof. reflexivity. Qed.

Lemma field_mute_seconds (s : ChatSettings) :
  field_value s "mute_seconds" = Some (mute_seconds s).
Proof. reflexivity. Qed.

(** X17. [cmd_automute] either leaves the state as it is or, for an actor
    with the rank of head admin or above and a duration that parses to a
    number of seconds between 30 and 86400, sets [action] to [mute] and
    [mute_seconds] to that number in the chat of the command, leaving the
    other fields as they were. *)
Theorem cmd_automute_spec (tg : Platform) (fs_ok : bool) (message : Message)
    (parts : list pystr) (st st' : State) (calls : list call) :
  cmd_automute tg fs_ok message parts st = Ok (st', calls) ->
  st' = st \/
  exists (actor : User) (p : pystr) (sec : Z),
    from_user message = Some actor /\
    role_at_least
      (get_effective_role tg (DATA st) (chat_id message) (user_id actor)) ROLE_HEAD = true /\
    nth_error parts 1 = Some p /\ parse_duration_to_seconds p = Ok (Some sec) /\
    30 <= sec <= 86400 /\
    action (get_settings_local (DATA st') (chat_id message)) = PStr "mute" /\
    mute_seconds (get_settings_local (DATA st') (chat_id message)) = PInt sec /\
    forall name : string,
      name <> "action"%string -> name <> "mute_seconds"%string ->
      field_value (get_settings_local (DATA st') (chat_id message)) name =
      field_value (get_settings_local (DATA st) (chat_id message)) name.
Proof.
  unfold cmd_automute. destruct (is_group (chat_type message)); [|intros [= <- _]; now left].
  destruct (from_user message) as [actor|]; [|intros [= <- _]; now left].
  destruct (can_use _ "automute") eqn:Hrole; cbn [negb]; [|intros [= <- _]; now left].
  destruct (nth_error parts 1) as [p|]; [|intros [= <- _]; now left].
  destruct (parse_duration_to_seconds p) as [[sec|]|] eqn:Hp; try discriminate;
    [|intros [= <- _]; now left].
  destruct (Z.eqb_spec sec 0) as [?|H0]; [intros [= <- _]; now left|].
  destruct (Z.ltb_spec sec 30) as [?|H30]; [intros [= <- _]; now left|].
  destruct (Z.gtb_spec sec 86400) as [?|Hmax]; [intros [= <- _]; now left|].
  cbn [orb].
  set (c := chat_id message).
  remember (fst (set_setting_local fs_ok c "action" (PStr "mute") st)) as st1 eqn:E1.
  remember (fst (set_setting_local fs_ok c "mute_seconds" (PInt sec) st1)) as st2 eqn:E2.
  intros H. assert (Hst : st' = st2) by congruence. clear H. subst st'.
  right. exists actor, p, sec.
  assert (Fa : In "action"%string FIELD_NAMES) by (cbn; tauto).
  assert (Fm : In "mute_seconds"%string FIELD_NAMES) by (cbn; tauto).
  assert (Hfield : forall name : string,
            In name FIELD_NAMES ->
            field_value (get_settings_local (DATA st2) c) name =
            if bool_decide (name = "mute_seconds"%string) then Some (PInt sec)
            else if bool_decide (name = "action"%string) then Some (PStr "mute")
            else field_value (get_settings_local (DATA st) c) name).
  { intros name Hn. subst st2 st1.
    rewrite (field_after_set fs_ok c c "mute_seconds" name (PInt sec) _ Fm Hn).
    rewrite (field_after_set fs_ok c c "action" name (PStr "mute") st Fa Hn).
    repeat case_bool_decide; try reflexivity; tauto. }
  clear E1 E2.
  split; [reflexivity|]. split; [exact Hrole|]. split; [reflexivity|].
  split; [exact Hp|]. split; [lia|]. split; [|split].
  - pose proof (Hfield "action"%string Fa) as H.
    rewrite bool_decide_eq_false_2, bool_decide_eq_true_2 in H by (reflexivity || discriminate).
    rewrite field_action in H. now injection H.
  - pose proof (Hfield "mute_seconds"%string Fm) as H.
    rewrite bool_decide_eq_true_2 in H by reflexivity.
    rewrite field_mute_seconds in H. now injection H.
  - intros name Ha Hm.
    destruct (in_dec string_dec name FIELD_NAMES) as [Hn|Hn].
    + rewrite (Hfield name Hn), !bool_decide_eq_false_2 by assumption. reflexivity.
    + destruct (field_value (get_settings_local (DATA st2) c) name) eqn:E1;
        [apply field_value_name in E1; contradiction|].
      destruct (field_value (get_settings_local (DATA st) c) name) eqn:E2;
        [apply field_value_name in E2; contradiction|reflexivity].
Qed.

Lemma cmd_automute_spec_witness :
  exists st' : State,
    cmd_automute (fun _ _ => Some "creator"%string) true warn_command
      [lit "/automute"; lit " 1H 30 m "] INIT =
    Ok (st', [Reply 7 "automute"; ActionLog 7 "AUTOMUTE"]) /\
    mute_seconds (get_settings_local (DATA st') 7) = PInt 5400 /\
    (st' = INIT \/
     exists (actor : User) (p : pystr) (sec : Z),
       from_user warn_command = Some actor /\
       role_at_least
         (get_effective_role (fun _ _ => Some "creator"%string) (DATA INIT)
            (chat_id warn_command) (user_id actor)) ROLE_HEAD = true /\
       nth_error [lit "/automute"; lit " 1H 30 m "] 1 = Some p /\
       parse_duration_to_seconds p = Ok (Some sec) /\
       30 <= sec <= 86400 /\
       action (get_settings_local (DATA st') (chat_id warn_command)) = PStr "mute" /\
       mute_seconds (get_settings_local (DATA st') (chat_id warn_command)) = PInt sec /\
       forall name : string,
         name <> "action"%string -> name <> "mute_seconds"%string ->
         field_value (get_settings_local (DATA st') (chat_id warn_command)) name =
         field_value (get_settings_local (DATA INIT) (chat_id warn_command)) name).
Proof.
  eexists. split; [vm_compute; reflexivity|]. split; [vm_compute; reflexivity|].
  eapply (cmd_automute_spec (fun _ _ => Some "creator"%string) true warn_command
            [lit "/automute"; lit " 1H 30 m "] INIT).
  vm_compute. reflexivity.
Defined.
Lemma whitelist_list_complete_witness :
  is_whitelisted sample_data 7 9 = true /\ In 9 (whitelist_list sample_data 7).
Proof.
  split; [reflexivity|]. apply (whitelist_list_complete sample_data 7 9). reflexivity.
Defined.

(** ** Commands on roles *)

(** X18. [cmd_setrole] either leaves the state as it is or stores the role
    named in the command for the user replied to, in the chat of the
    command and nowhere else. It does so only for an actor with the rank of
    head admin or above, and it stores the role [creator] only when the
    actor's effective role is [creator]. *)
Theorem cmd_setrole_spec (tg : Platform) (fs_ok : bool) (message : Message)
    (reply_to : option (option Z)) (parts : list pystr) (st : State) :
  fst (cmd_setrole tg fs_ok message reply_to parts st) = st \/
  exists (actor : User) (target : Z) (p : pystr) (r : Role),
    from_user message = Some actor /\ reply_to = Some (Some target) /\
    nth_error parts 1 = Some p /\ string_of_list_ascii (strip p) = role_name r /\
    role_at_least
      (get_effective_role tg (DATA st) (chat_id message) (user_id actor)) ROLE_HEAD = true /\
    (r = ROLE_CREATOR ->
     get_effective_role tg (DATA st) (chat_id message) (user_id actor) =
     Some (role_name ROLE_CREATOR)) /\
    forall c' u' : Z,
      get_role_local (DATA (fst (cmd_setrole tg fs_ok message reply_to parts st))) c' u' =
      if bool_decide ((c', u') = (chat_id message, target)) then Some (role_name r)
      else get_role_local (DATA st) c' u'.
Proof.
  unfold cmd_setrole. destruct (is_group (chat_type message)); [|now left].
  destruct (from_user message) as [actor|]; [|now left].
  destruct (can_use _ "setrole") eqn:Hrole; cbn [negb]; [|now left].
  destruct reply_to as [[target|]|]; try (now left).
  destruct (nth_error parts 1) as [p|]; [|now left].
  destruct (in_ROLE_RANK (string_of_list_ascii (strip p))) eqn:Hin; cbn [negb]; [|now left].
  apply in_ROLE_RANK_spec in Hin as [r Hr]. rewrite Hr.
  destruct (String.eqb (role_name r) (role_name ROLE_CREATOR) && negb (bool_decide _)) eqn:Hc;
    [now left|].
  right. exists actor, target, p, r.
  split; [reflexivity|]. split; [reflexivity|]. split; [reflexivity|].
  split; [exact Hr|]. split; [exact Hrole|]. split.
  - intros Hcr. subst r. rewrite String.eqb_refl in Hc. cbn [andb] in Hc.
    apply negb_false_iff in Hc. apply bool_decide_eq_true in Hc. exact Hc.
  - clear Hc. intros c' u'. cbn [fst]. unfold set_role_local.
    assert (Hok : in_ROLE_RANK (role_name r) = true) by (apply in_ROLE_RANK_spec; eauto).
    rewrite Hok. cbn [negb fst]. rewrite save_data_DATA. unfold get_role_local.
    cbn [DATA with_DATA d_roles with_roles]. case_bool_decide as Hk.
    + rewrite Hk. apply lookup_insert_eq.
    + apply lookup_insert_ne. congruence.
Qed.

(** ** Moderation commands *)

(** The checks shared by the moderation commands, one after the other;
    what is left is the part of the command that follows them. *)
Ltac pass_guards H :=
  let quit := (injection H as <-; intros ? ? ? Hin; cbn [In] in Hin;
               repeat (destruct Hin as [<- | Hin]; [discriminate|]); destruct Hin) in
  destruct (is_group (chat_type _)) eqn:Hg; [|quit];
  destruct (from_user _) as [actor|] eqn:Hu; [|quit];
  cbv zeta in H;
  destruct (can_use _ _) eqn:Hrole; cbn [negb] in H; [|quit];
  destruct (resolve_target_user_id _ _ _ _) as [[target|]|] eqn:Ht;
    [| quit | discriminate H];
  destruct (Z.eqb_spec target 0) as [?|H0]; [quit|];
  destruct (ensure_can_moderate_target _ _ _ _ _) eqn:He; cbn [negb] in H; [|quit].

(** The calls made after the checks all concern the target. *)
Ltac after_guards H :=
  repeat match type of H with
         | match ?x with _ => _ end = Ok _ => destruct x; try discriminate H
         | (if ?b then _ else _) = Ok _ => destruct b
         end;
  injection H as <-;
  let Hin := fresh "Hin" in
  let Ha := fresh "Ha" in
  intros ? ? ? Hin Ha; cbn [In] in Hin;
  repeat (destruct Hin as [<- | Hin]; [try discriminate Ha|]); try contradiction;
  cbn in Ha; injection Ha as <- <-;
  repeat apply conj; try reflexivity; try assumption;
  eexists; repeat apply conj; try reflexivity; assumption.

(** X19. Whichever of [/mute], [/unmute], [/ban], [/unban] and [/kick] is
    run, a call that restricts, bans or releases someone is made only in
    the chat of the command, which is a group, only by an actor whose rank
    allows the command, and only against the user the command resolves
    to, who is not user 0 and whom [ensure_can_moderate_target] lets the
    actor act on. *)
Theorem moderation_commands_guarded (name : string)
    (cmd : Platform -> (call -> bool) -> Q -> Message -> option (option Z) -> list pystr ->
           State -> res (list call))
    (tg : Platform) (accepts : call -> bool) (now : Q) (message : Message)
    (reply_to : option (option Z)) (parts : list pystr) (st : State) (calls : list call) :
  In (name, cmd) moderation_commands ->
  cmd tg accepts now message reply_to parts st = Ok calls ->
  forall (k : call) (chat t : Z),
    In k calls -> acts_on k = Some (chat, t) ->
    chat = chat_id message /\ t <> 0 /\ is_group (chat_type message) = true /\
    exists actor : User,
      from_user message = Some actor /\
      can_use (get_effective_role tg (DATA st) chat (user_id actor)) name = true /\
      resolve_target_user_id (DATA st) chat reply_to parts = Ok (Some t) /\
      ensure_can_moderate_target tg (DATA st) chat (user_id actor) t = true.
Proof.
  intros Hcmd H. cbn [In moderation_commands] in Hcmd.
  destruct Hcmd as [E | [E | [E | [E | [E | []]]]]]; injection E as <- <-.
  - unfold cmd_mute in H. pass_guards H. after_guards H.
  - unfold cmd_unmute in H. pass_guards H. after_guards H.
  - unfold cmd_ban in H. pass_guards H. after_guards H.
  - unfold cmd_unban in H. pass_guards H. after_guards H.
  - unfold cmd_kick in H. pass_guards H. after_guards H.
Qed.

Lemma moderation_commands_guarded_witness :
  cmd_ban members_only (fun _ => true) (100 # 1) ban_command (Some (Some 8))
    [lit "/ban"; lit "7d"; lit "spam"] (with_DATA sample_data INIT) =
  Ok [Ban 7 8 (Some 604900); Reply 7 "banned"; ActionLog 7 "BAN"] /\
  cmd_ban members_only (fun _ => true) (100 # 1) ban_command (Some (Some 3))
    [lit "/ban"] (with_DATA sample_data INIT) = Ok [Reply 7 "cannot_moderate"] /\
  7 = chat_id ban_command /\ 8 <> 0 /\ is_group (chat_type ban_command) = true /\
  exists actor : User,
    from_user ban_command = Some actor /\
    can_use (get_effective_role members_only (DATA (with_DATA sample_data INIT)) 7
               (user_id actor)) "ban" = true /\
    resolve_target_user_id (DATA (with_DATA sample_data INIT)) 7 (Some (Some 8))
      [lit "/ban"; lit "7d"; lit "spam"] = Ok (Some 8) /\
    ensure_can_moderate_target members_only (DATA (with_DATA sample_data INIT)) 7
      (user_id actor) 8 = true.
Proof.
  split; [vm_compute; reflexivity|]. split; [vm_compute; reflexivity|].
  apply (moderation_commands_guarded "ban" cmd_ban members_only (fun _ => true) (100 # 1)
           ban_command (Some (Some 8)) [lit "/ban"; lit "7d"; lit "spam"]
           (with_DATA sample_data INIT)
           [Ban 7 8 (Some 604900); Reply 7 "banned"; ActionLog 7 "BAN"]
           ltac:(cbn; tauto) ltac:(vm_compute; reflexivity) (Ban 7 8 (Some 604900)) 7 8).
  - now left.
  - reflexivity.
Defined.

(** X20. [cmd_mute] restricts a user only for a duration given in the
    command, in the word after the command for a reply and after the
    target otherwise, that parses to 30 seconds or more; the restriction
    ends that many seconds after the clock reading. *)
Theorem cmd_mute_until (tg : Platform) (accepts : call -> bool) (now : Q) (message : Message)
    (reply_to : option (option Z)) (parts : list pystr) (st : State) (calls : list call)
    (chat t until : Z) :
  cmd_mute tg accepts now message reply_to parts st = Ok calls ->
  In (Restrict chat t until) calls ->
  exists (p : pystr) (dur : Z),
    nth_error parts (match reply_to with Some _ => 1 | None => 2 end)%nat = Some p /\
    parse_duration_to_seconds p = Ok (Some dur) /\ 30 <= dur /\
    until = int_of_float now + dur.
Proof.
  intros H Hin. unfold cmd_mute in H.
  destruct (is_group (chat_type message)); [|injection H as <-; destruct Hin].
  destruct (from_user message) as [actor|]; [|injection H as <-; destruct Hin].
  cbv zeta in H.
  assert (Hreply : forall what, calls = [Reply (chat_id message) what] -> False).
  { intros what ->. destruct Hin as [[=] | []]. }
  destruct (negb (can_use _ _)); [injection H as <-; exfalso; eauto|].
  destruct (resolve_target_user_id _ _ _ _) as [[target|]|]; try discriminate H;
    [|injection H as <-; exfalso; eauto].
  destruct (target =? 0); [injection H as <-; exfalso; eauto|].
  destruct (negb (ensure_can_moderate_target _ _ _ _ _)); [injection H as <-; exfalso; eauto|].
  destruct (nth_error parts _) as [p|] eqn:Hp; [|injection H as <-; exfalso; eauto].
  destruct (parse_duration_to_seconds p) as [[dur|]|] eqn:Hd; try discriminate H;
    [|injection H as <-; exfalso; eauto].
  destruct (Z.eqb_spec dur 0) as [?|H0]; [injection H as <-; exfalso; eauto|].
  destruct (Z.ltb_spec dur 30) as [?|H30]; [injection H as <-; exfalso; eauto|].
  cbn [orb] in H. exists p, dur. split; [reflexivity|]. split; [exact Hd|].
  split; [exact H30|].
  destruct (accepts _); injection H as <-; cbn [In] in Hin;
    repeat (destruct Hin as [Hk | Hin]; [try discriminate Hk|]); try contradiction;
    now injection Hk.
Qed.

Lemma cmd_mute_until_witness :
  exists (p : pystr) (dur : Z),
    nth_error [lit "/mute"; lit "10m"] 1%nat = Some p /\
    parse_duration_to_seconds p = Ok (Some dur) /\ 30 <= dur /\
    700 = int_of_float (100 # 1) + dur.
Proof.
  apply (cmd_mute_until members_only (fun _ => true) (100 # 1) ban_command (Some (Some 8))
           [lit "/mute"; lit "10m"] (with_DATA sample_data INIT)
           [Restrict 7 8 700; Reply 7 "muted"; ActionLog 7 "MUTE"] 7 8 700).
  - vm_compute. reflexivity.
  - now left.
Defined.

(** X21. [cmd_ban] bans until the clock reading plus the duration given in
    the command when that word parses to a number of seconds other than 0,
    and without end, with an end date of 0, when the word is missing or
    is no duration. *)
Theorem cmd_ban_until (tg : Platform) (accepts : call -> bool) (now : Q) (message : Message)
    (reply_to : option (option Z)) (parts : list pystr) (st : State) (calls : list call)
    (chat t : Z) (until : option Z) :
  cmd_ban tg accepts now message reply_to parts st = Ok calls ->
  In (Ban chat t until) calls ->
  match nth_error parts (match reply_to with Some _ => 1 | None => 2 end)%nat with
  | Some p =>
      match parse_duration_to_seconds p with
      | Ok (Some dur) => until = Some (if dur =? 0 then 0 else int_of_float now + dur)
      | Ok None => until = Some 0
      | Raise _ => False
      end
  | None => until = Some 0
  end.
Proof.
  intros H Hin. unfold cmd_ban in H.
  destruct (is_group (chat_type message)); [|injection H as <-; destruct Hin].
  destruct (from_user message) as [actor|]; [|injection H as <-; destruct Hin].
  cbv zeta in H.
  assert (Hreply : forall what, calls = [Reply (chat_id message) what] -> False).
  { intros what ->. destruct Hin as [[=] | []]. }
  destruct (negb (can_use _ _)); [injection H as <-; exfalso; eauto|].
  destruct (resolve_target_user_id _ _ _ _) as [[target|]|]; try discriminate H;
    [|injection H as <-; exfalso; eauto].
  destruct (target =? 0); [injection H as <-; exfalso; eauto|].
  destruct (negb (ensure_can_moderate_target _ _ _ _ _)); [injection H as <-; exfalso; eauto|].
  assert (Hban : forall u0 calls0,
            Ok (if accepts (Ban (chat_id message) target (Some u0))
                then [Ban (chat_id message) target (Some u0);
                      Reply (chat_id message) "banned"; ActionLog (chat_id message) "BAN"]
                else [Ban (chat_id message) target (Some u0);
                      Reply (chat_id message) "failed"]) = Ok calls0 ->
            In (Ban chat t until) calls0 -> until = Some u0).
  { intros u0 calls0 E Hin0. destruct (accepts _); injection E as <-; cbn [In] in Hin0;
      repeat (destruct Hin0 as [Hk | Hin0]; [try discriminate Hk|]); try contradiction;
      now injection Hk. }
  destruct (nth_error parts _) as [p|].
  - destruct (parse_duration_to_seconds p) as [[dur|]|]; try discriminate H.
    + apply (Hban _ calls); [|exact Hin]. rewrite <- H. destruct (accepts _); reflexivity.
    + apply (Hban _ calls); [|exact Hin]. rewrite <- H. destruct (accepts _); reflexivity.
  - apply (Hban _ calls); [|exact Hin]. rewrite <- H. destruct (accepts _); reflexivity.
Qed.

Lemma cmd_ban_until_witness :
  match nth_error [lit "/ban"; lit "spam"] 1%nat with
  | Some p =>
      match parse_duration_to_seconds p with
      | Ok (Some dur) => Some 0 = Some (if dur =? 0 then 0 else int_of_float (100 # 1) + dur)
      | Ok None => Some 0 = Some 0
      | Raise _ => False
      end
  | None => Some 0 = Some 0
  end.
Proof.
  apply (cmd_ban_until members_only (fun _ => true) (100 # 1) ban_command (Some (Some 8))
           [lit "/ban"; lit "spam"] (with_DATA sample_data INIT)
           [Ban 7 8 (Some 0); Reply 7 "banned"; ActionLog 7 "BAN"] 7 8 (Some 0)).
  - vm_compute. reflexivity.
  - now left.
Defined.
(** ** Normalizing twice, and the shape of the fingerprint *)

Section Idempotence.

Lemma lower_char_idem (c : ascii) : lower_char (lower_char c) = lower_char c.
Proof. destruct c as [[] [] [] [] [] [] [] []]; reflexivity. Qed.

Lemma lower_idem (s : pystr) : lower (lower s) = lower s.
Proof.
  unfold lower. rewrite List.map_map. apply List.map_ext. intros c. apply lower_char_idem.
Qed.

Lemma lower_char_space (c : ascii) :
  Ascii.eqb (lower_char c) space = Ascii.eqb c space.
Proof. destruct c as [[] [] [] [] [] [] [] []]; reflexivity. Qed.

Lemma lower_squeeze (s : pystr) : lower (squeeze s) = squeeze (lower s).
Proof.
  induction s as [|c [|d r] IH]; [reflexivity | reflexivity |].
  change (lower (c :: d :: r)) with (lower_char c :: lower_char d :: lower r).
  rewrite !squeeze_cons2, !lower_char_space.
  change (lower_char d :: lower r) with (lower (d :: r)).
  destruct (Ascii.eqb c space && Ascii.eqb d space); [exact IH|].
  change (lower (c :: squeeze (d :: r))) with (lower_char c :: lower (squeeze (d :: r))).
  now rewrite IH.
Qed.

Lemma squeeze_idem (s : pystr) : squeeze (squeeze s) = squeeze s.
Proof. apply squeeze_fixed, squeeze_no_2sp. Qed.

(** A text that neither starts nor ends with whitespace. *)
#[local] Abbreviation trimmed s :=
  ((forall c, hd_error s = Some c -> isspace c = false) /\
   (forall c, hd_error (rev s) = Some c -> isspace c = false)).

Lemma lstrip_hd (s : pystr) (c : ascii) :
  hd_error (lstrip s) = Some c -> isspace c = false.
Proof.
  induction s as [|d r IH]; simpl; [discriminate|].
  destruct (isspace d) eqn:E; [exact IH|]. simpl. intros [= <-]. exact E.
Qed.

Lemma lstrip_fixed (s : pystr) :
  (forall c, hd_error s = Some c -> isspace c = false) -> lstrip s = s.
Proof. destruct s as [|c r]; [reflexivity|]. simpl. intros H. now rewrite (H c eq_refl). Qed.

Lemma strip_fixed (s : pystr) : trimmed s -> strip s = s.
Proof.
  intros [H1 H2]. unfold strip, rstrip. rewrite (lstrip_fixed s H1), (lstrip_fixed _ H2).
  apply rev_involutive.
Qed.

Lemma hd_rev_snoc (s : pystr) (c : ascii) : hd_error (rev (s ++ [c])) = Some c.
Proof. rewrite rev_app_distr. reflexivity. Qed.

Lemma lstrip_last (s : pystr) (c : ascii) :
  isspace c = false -> exists s', lstrip (s ++ [c]) = s' ++ [c].
Proof.
  intros Hc. induction s as [|d r IH]; simpl.
  - rewrite Hc. now exists [].
  - destruct (isspace d); [exact IH|]. now exists (d :: r).
Qed.

Lemma strip_trimmed (s : pystr) : trimmed (strip s).
Proof.
  unfold strip, rstrip. split.
  - intros c. destruct (lstrip s) as [|d r] eqn:E; [discriminate|].
    assert (Hd : isspace d = false) by (apply (lstrip_hd s); now rewrite E).
    change (rev (d :: r)) with (rev r ++ [d]).
    destruct (lstrip_last (rev r) d Hd) as [s' ->].
    rewrite rev_app_distr. simpl. intros [= <-]. exact Hd.
  - intros c. rewrite rev_involutive. apply lstrip_hd.
Qed.

Lemma lower_trimmed (s : pystr) : trimmed s -> trimmed (lower s).
Proof.
  intros [H1 H2]. split.
  - destruct s as [|d r]; [discriminate|]. simpl. intros c [= <-].
    rewrite isspace_lower_char. now apply H1.
  - rewrite <- lower_rev. destruct (rev s) as [|d r]; [discriminate|]. simpl.
    intros c [= <-]. rewrite isspace_lower_char. now apply H2.
Qed.

Lemma squeeze_snoc2 (s : pystr) (c d : ascii) :
  exists s', squeeze (s ++ [c; d]) = s' ++ [d].
Proof.
  induction s as [|a [|b r] IH].
  - simpl. destruct (Ascii.eqb c space && Ascii.eqb d space); [now exists []|now exists [c]].
  - destruct IH as [s' E]. simpl in E |- *.
    destruct (Ascii.eqb a space && Ascii.eqb c space); [exact (ex_intro _ s' E)|].
    exists (a :: s'). now rewrite E.
  - destruct IH as [s' E]. change ((a :: b :: r) ++ [c; d]) with (a :: (b :: r ++ [c; d])).
    rewrite squeeze_cons2. change (b :: r ++ [c; d]) with ((b :: r) ++ [c; d]). rewrite E.
    destruct (Ascii.eqb a space && Ascii.eqb b space); [now exists s'|now exists (a :: s')].
Qed.

Lemma hd_rev_squeeze (s : pystr) : hd_error (rev (squeeze s)) = hd_error (rev s).
Proof.
  destruct (rev s) as [|d r] eqn:E.
  - apply (f_equal (@rev ascii)) in E. rewrite rev_involutive in E. now subst.
  - apply (f_equal (@rev ascii)) in E. rewrite rev_involutive in E. subst s. simpl.
    destruct r as [|c r].
    + reflexivity.
    + simpl. rewrite <- app_assoc. simpl.
      destruct (squeeze_snoc2 (rev r) c d) as [s' ->]. apply hd_rev_snoc.
Qed.

Lemma squeeze_trimmed (s : pystr) : trimmed s -> trimmed (squeeze s).
Proof.
  intros [H1 H2]. split; intros c; [rewrite hd_squeeze|rewrite hd_rev_squeeze]; auto.
Qed.

Lemma norm_text_idem (s : pystr) : norm_text (norm_text s) = norm_text s.
Proof.
  rewrite !norm_text_squeeze.
  assert (Ht : trimmed (squeeze (lower (strip s))))
    by apply squeeze_trimmed, lower_trimmed, strip_trimmed.
  rewrite (strip_fixed _ Ht), lower_squeeze, lower_idem. apply squeeze_idem.
Qed.

End Idempotence.

(** X22. [norm_text] is idempotent, so the fingerprint [moderate_all] takes
    of the text it has already normalized is the fingerprint of the text
    itself. *)
Theorem norm_text_idempotent (s : pystr) :
  norm_text (norm_text s) = norm_text s /\ text_hash (norm_text s) = text_hash s.
Proof.
  split; [apply norm_text_idem|]. unfold text_hash. cbv zeta. now rewrite norm_text_idem.
Qed.

Section Fingerprint.

Import SHA256.

Lemma round_length (st : list Z) (kw : Z * Z) : List.length (round st kw) = List.length st.
Proof.
  unfold round. destruct st as [|a [|b [|c [|d [|e [|f [|g [|h [|i r]]]]]]]]]; reflexivity.
Qed.

Lemma rounds_length (kws : list (Z * Z)) (st : list Z) :
  List.length (fold_left round kws st) = List.length st.
Proof.
  revert st. induction kws as [|kw r IH]; intros st; [reflexivity|].
  simpl. now rewrite IH, round_length.
Qed.

Lemma compress_length (h block : list Z) : List.length (compress h block) = List.length h.
Proof.
  unfold compress. cbv zeta. rewrite length_map, length_combine, rounds_length. lia.
Qed.

Lemma blocks_length (fuel : nat) (h ws : list Z) :
  List.length (blocks fuel h ws) = List.length h.
Proof.
  revert h ws. induction fuel as [|fuel IH]; intros h ws; [reflexivity|].
  destruct ws as [|w r]; [reflexivity|].
  change (blocks (S fuel) h (w :: r))
    with (blocks fuel (compress h (firstn 16 (w :: r))) (skipn 16 (w :: r))).
  now rewrite IH, compress_length.
Qed.

Lemma digest_length (msg : list Z) : List.length (digest msg) = 8%nat.
Proof. unfold digest. cbv zeta. now rewrite blocks_length. Qed.

(** A lowercase hexadecimal digit. *)
#[local] Abbreviation hex c := (orb (is_digit c) (in_range 97 102 c) = true).

Lemma hex_digit_hex (d : Z) : 0 <= d < 16 -> hex (hex_digit d).
Proof.
  intros H.
  assert (E : d = 0 \/ d = 1 \/ d = 2 \/ d = 3 \/ d = 4 \/ d = 5 \/ d = 6 \/ d = 7 \/
              d = 8 \/ d = 9 \/ d = 10 \/ d = 11 \/ d = 12 \/ d = 13 \/ d = 14 \/ d = 15)
    by lia.
  decompose [or] E; subst d; reflexivity.
Qed.

Lemma hex_word_hex (w : Z) : List.Forall (fun c => hex c) (hex_word w).
Proof.
  unfold hex_word. apply List.Forall_forall. intros c Hc.
  apply in_map_iff in Hc as (i & <- & _). apply hex_digit_hex, Z.mod_pos_bound. lia.
Qed.

Lemma hex_word_length (w : Z) : List.length (hex_word w) = 8%nat.
Proof. reflexivity. Qed.

Lemma hexdigest_shape (msg : list Z) :
  List.length (hexdigest msg) = 64%nat /\ List.Forall (fun c => hex c) (hexdigest msg).
Proof.
  unfold hexdigest. pose proof (digest_length msg) as H.
  destruct (digest msg) as [|a [|b [|c [|d [|e [|f [|g [|h [|i r]]]]]]]]]; try discriminate.
  split; [reflexivity|]. cbn [List.map List.concat].
  repeat (apply List.Forall_app; split; [apply hex_word_hex|]). constructor.
Qed.

End Fingerprint.

(** X23. The fingerprint [text_hash] returns is always 16 lowercase
    hexadecimal digits; in particular it is never the empty fingerprint a
    sender without an earlier text is compared with. *)
Theorem text_hash_shape (s : pystr) :
  List.length (text_hash s) = 16%nat /\
  List.Forall (fun c => is_digit c || in_range 97 102 c = true) (text_hash s) /\
  text_hash s <> [].
Proof.
  unfold text_hash. cbv zeta.
  destruct (hexdigest_shape (utf8_encode (norm_text s))) as [Hlen Hall].
  assert (L : List.length (firstn 16 (SHA256.hexdigest (utf8_encode (norm_text s)))) = 16%nat)
    by (rewrite length_firstn, Hlen; reflexivity).
  split; [exact L|]. split.
  - apply List.Forall_forall. intros c Hc. apply firstn_incl in Hc.
    rewrite List.Forall_forall in Hall. auto.
  - intros E. rewrite E in L. discriminate.
Qed.

(** ** Ranks and commands *)

Lemma rank_get_unknown (s : string) : (forall r : Role, s <> role_name r) -> rank_get s = -1.
Proof.
  intros H. unfold rank_get.
  destruct (List.find (fun kv => String.eqb (fst kv) s) ROLE_RANK) as [kv|] eqn:E;
    [|reflexivity].
  apply find_some in E as [Hin Hkv]. apply String.eqb_eq in Hkv. exfalso.
  vm_compute in Hin.
  decompose [or] Hin; try contradiction; subst kv; cbn in Hkv;
    [apply (H ROLE_SEEKER) | apply (H ROLE_MOD) | apply (H ROLE_ADMIN) | apply (H ROLE_HEAD)
    | apply (H ROLE_CREATOR)]; now rewrite <- Hkv.
Qed.

Lemma role_at_least_facts (required : Role) :
  role_at_least None required = false /\
  (forall s : string, (forall r : Role, s <> role_name r) ->
                      role_at_least (Some s) required = false) /\
  (forall r r' : Role,
     role_at_least (Some (role_name r)) required = true ->
     rank_get (role_name r) <= rank_get (role_name r') ->
     role_at_least (Some (role_name r')) required = true).
Proof.
  split; [reflexivity|]. split.
  - intros s H. unfold role_at_least. rewrite (rank_get_unknown s H).
    destruct required; reflexivity.
  - intros r r'. destruct required, r, r'; vm_compute; intros; congruence.
Qed.

(** X24. Permission to use a command goes by rank: a user without a role,
    or with a stored role that is none of the five role names, may use no
    command, and a role that may use a command may use it at every rank
    that is not lower. *)
Theorem can_use_by_rank (cmd : string) :
  can_use None cmd = false /\
  (forall s : string, (forall r : Role, s <> role_name r) -> can_use (Some s) cmd = false) /\
  (forall r r' : Role,
     can_use (Some (role_name r)) cmd = true ->
     rank_get (role_name r) <= rank_get (role_name r') ->
     can_use (Some (role_name r')) cmd = true).
Proof.
  unfold can_use.
  repeat match goal with
         | |- context [if ?b then _ else _] =>
             match b with
             | context [cmd] => destruct b; [apply role_at_least_facts|]
             end
         end.
  split; [reflexivity|]. split; [reflexivity|]. intros ? ? [=].
Qed.

(** ** The windows under a schedule of tasks *)

(** X25. With the handlers as tasks, from the initial state: when the clock
    does not go back and the tasks resume in the order in which they
    started, every message, sticker and animation window holds its
    readings in ascending order, none later than the clock. This is the
    order under which the trimming loop drops every entry older than the
    window. *)
Theorem windows_stay_in_order (tg : Platform) (events : list event) (now : Q) :
  Sorted Qle (readings events ++ [now]) ->
  in_turn events = true ->
  windows_in_order (snd (serve tg events [] INIT)) now.
Proof.
  intros Hs Hturn. apply serve_keeps_order; [|exact Hturn].
  intros cat key. destruct cat; exact Hs.
Qed.

Lemma windows_stay_in_order_witness :
  msg_times (snd (serve members_only turn_schedule [] INIT)) !! (7, 9) =
  Some [100 # 1; 203 # 2; 103 # 1] /\
  windows_in_order (snd (serve members_only turn_schedule [] INIT)) (105 # 1).
Proof.
  split; [vm_compute; reflexivity|].
  apply (windows_stay_in_order members_only turn_schedule (105 # 1)); [|reflexivity].
  cbn [readings turn_schedule flat_map app].
  repeat (constructor; [|first [constructor; vm_compute; discriminate | constructor]]).
  constructor.
Defined.

(** The order in which the tasks resume matters: on a clock that does not
    go back, a task that resumes before one that started earlier leaves
    its later reading in front. *)
Example windows_out_of_turn :
  Sorted Qle (readings swapped_schedule) /\
  in_turn swapped_schedule = false /\
  msg_times (snd (serve members_only swapped_schedule [] INIT)) !! (7, 9) =
    Some [1001 # 10; 100 # 1] /\
  ~ windows_in_order (snd (serve members_only swapped_schedule [] INIT)) (101 # 1).
Proof.
  assert (E : msg_times (snd (serve members_only swapped_schedule [] INIT)) !! (7, 9) =
              Some [1001 # 10; 100 # 1]) by (vm_compute; reflexivity).
  split; [|split; [reflexivity|split; [exact E|]]].
  - cbn [readings swapped_schedule flat_map app].
    repeat (constructor; [|first [constructor; vm_compute; discriminate | constructor]]).
    constructor.
  - intros H. specialize (H CatMessage (7, 9)). cbn [times_of] in H. rewrite E in H.
    cbn in H. apply Sorted_inv in H as [_ Hhd]. inversion Hhd as [|? ? Hle].
    vm_compute in Hle. apply Hle. reflexivity.
Qed.

(** ** What one message can change, and what it can trigger *)

Section Handler.

Variable tg : Platform.

(** What a run of the checks did: nothing, or one call of [apply_action]
    with one of the reason tags. *)
#[local] Abbreviation one_action now c u mid s o :=
  ((o_verdict o = None /\ o_effects o = [] /\
    (o_exn o = None \/ o_exn o = Some TypeError /\ numeric_limits s = false)) \/
   (exists reason : string,
      In reason REASONS /\ o_verdict o = Some reason /\
      (o_effects o, o_exn o) = apply_action now c u mid s reason)).

Ltac frame_goal :=
  unfold touches_only;
  cbn [o_state returns raises acts with_msg_times with_last_hash with_sticker_times
       with_gif_times with_album_seen DATA disk activity_save_pending msg_times last_hash
       sticker_times gif_times album_seen];
  repeat apply conj; try reflexivity;
  intros k Hk; repeat apply conj; try reflexivity;
  rewrite lookup_insert_ne by congruence; reflexivity.

Ltac action_goal :=
  cbn [o_verdict o_effects o_exn returns raises acts];
  first
    [ left; split; [reflexivity|split; [reflexivity|left; reflexivity]]
    | right; eexists; split; [|split; [reflexivity|symmetry; apply surjective_pairing]];
      cbn; tauto ].

Lemma not_numeric (s : ChatSettings) (v : pyval) :
  In v [flood_limit s; flood_window_sec s; repeat_limit s; sticker_limit s; gif_limit s;
        media_window_sec s] ->
  as_int v = None -> numeric_limits s = false.
Proof.
  intros Hin Hv. unfold numeric_limits. apply not_true_is_false. intros H.
  rewrite forallb_forall in H. specialize (H v Hin). apply bool_decide_eq_true in H.
  contradiction.
Qed.

Lemma rate_check_raise (now : Q) (window limit : pyval) (dq : list Q) (e : exn) :
  snd (rate_check now window limit dq) = Raise e ->
  e = TypeError /\ (as_int window = None \/ as_int limit = None).
Proof.
  unfold rate_check. cbv zeta. destruct (as_int window); [|intros [= <-]; auto].
  destruct (as_int limit); [discriminate|intros [= <-]; auto].
Qed.

Lemma repeat_check_cases (now : Q) (c u mid : Z) (s : ChatSettings) (tnorm : pystr)
    (st : State) :
  touches_only (c, u) st (o_state (repeat_check now c u mid s tnorm st)) /\
  one_action now c u mid s (repeat_check now c u mid s tnorm st).
Proof.
  unfold repeat_check. destruct tnorm as [|a r]; [split; [frame_goal|action_goal]|].
  destruct (default ([], 0) (last_hash st !! (c, u))) as [last_h count].
  destruct (as_int (repeat_limit s)) as [l|] eqn:El.
  2:{ split; [frame_goal|]. left. split; [reflexivity|]. split; [reflexivity|].
      right. split; [reflexivity|]. apply (not_numeric s (repeat_limit s)); [cbn; tauto|exact El]. }
  destruct (_ >=? l); split; first [frame_goal | action_goal].
Qed.

Lemma touches_only_trans (key : Z * Z) (st1 st2 st3 : State) :
  touches_only key st1 st2 -> touches_only key st2 st3 -> touches_only key st1 st3.
Proof.
  intros (A1 & A2 & A3 & A4) (B1 & B2 & B3 & B4).
  split; [congruence|]. split; [congruence|]. split; [congruence|].
  intros k Hk. destruct (A4 k Hk) as (a1 & a2 & a3 & a4 & a5).
  destruct (B4 k Hk) as (b1 & b2 & b3 & b4 & b5).
  repeat apply conj; congruence.
Qed.

Lemma text_check_cases (now : Q) (c u mid : Z) (s : ChatSettings) (message : Message)
    (st : State) :
  touches_only (c, u) st (o_state (text_check now c u mid s message st)) /\
  one_action now c u mid s (text_check now c u mid s message st).
Proof.
  unfold text_check. cbv zeta.
  set (r := rate_check now (flood_window_sec s) (flood_limit s)
              (default [] (msg_times st !! (c, u)))).
  set (st' := with_msg_times (<[(c, u) := fst r]> (msg_times st)) st).
  assert (Hst : touches_only (c, u) st st') by (subst st'; frame_goal).
  destruct (snd r) as [[|]|] eqn:Er.
  - split; [exact Hst|action_goal].
  - destruct (truthy (block_links s) && _ && _); [split; [exact Hst|action_goal]|].
    destruct (repeat_check_cases now c u mid s (norm_text (message_text message)) st')
      as [H1 H2].
    split; [|exact H2]. exact (touches_only_trans _ _ _ _ Hst H1).
  - split; [exact Hst|]. left. split; [reflexivity|]. split; [reflexivity|].
    right. apply rate_check_raise in Er as [-> [E|E]]; (split; [reflexivity|]).
    + apply (not_numeric s (flood_window_sec s)); [cbn; tauto|exact E].
    + apply (not_numeric s (flood_limit s)); [cbn; tauto|exact E].
Qed.

Lemma media_check_cases (now : Q) (c u mid : Z) (s : ChatSettings) (mode limit : pyval)
    (ban_reason limit_reason : string) (times : gmap (Z * Z) (list Q))
    (store : gmap (Z * Z) (list Q) -> State -> State) (at_ : stage) (st : State) :
  In ban_reason REASONS -> In limit_reason REASONS ->
  (as_int limit = None -> numeric_limits s = false) ->
  (forall v, touches_only (c, u) st (store (<[(c, u) := v]> times) st)) ->
  touches_only (c, u) st
    (o_state (media_check now c u mid s mode limit ban_reason limit_reason times store at_ st)) /\
  one_action now c u mid s
    (media_check now c u mid s mode limit ban_reason limit_reason times store at_ st).
Proof.
  intros Hb Hl Hlim Hstore. unfold media_check.
  assert (Hrefl : touches_only (c, u) st st) by frame_goal.
  destruct (eq_str mode "ban").
  { split; [exact Hrefl|]. right. exists ban_reason. split; [exact Hb|].
    split; [reflexivity|symmetry; apply surjective_pairing]. }
  destruct (eq_str mode "limit"); [|split; [exact Hrefl|action_goal]].
  cbv zeta. destruct (snd (rate_check _ _ _ _)) as [[|]|] eqn:Er;
    (split; [apply Hstore|]).
  - right. exists limit_reason. split; [exact Hl|].
    split; [reflexivity|symmetry; apply surjective_pairing].
  - action_goal.
  - left. split; [reflexivity|]. split; [reflexivity|]. right.
    apply rate_check_raise in Er as [-> [E|E]]; (split; [reflexivity|]).
    + apply (not_numeric s (media_window_sec s)); [cbn; tauto|exact E].
    + exact (Hlim E).
Qed.

Lemma album_check_cases (now : Q) (c u mid : Z) (s : ChatSettings) (message : Message)
    (st : State) :
  touches_only (c, u) st (o_state (album_check now c u mid s message st)) /\
  one_action now c u mid s (album_check now c u mid s message st).
Proof.
  unfold album_check. cbv zeta. destruct (od_mem _ _); [split; [frame_goal|action_goal]|].
  destruct (negb _ && _ && _); split; first [frame_goal | action_goal].
Qed.

Lemma moderate_checks_cases (now : Q) (c u : Z) (s : ChatSettings) (message : Message)
    (st : State) :
  touches_only (c, u) st (o_state (moderate_checks now c u s message st)) /\
  one_action now c u (message_id message) s (moderate_checks now c u s message st).
Proof.
  unfold moderate_checks. cbv zeta.
  destruct (truthy_str (media_group_id message)); [apply album_check_cases|].
  destruct (sticker message).
  { apply media_check_cases; [cbn; tauto | cbn; tauto | | intros v; frame_goal].
    apply (not_numeric s (sticker_limit s)). cbn; tauto. }
  destruct (animation message).
  { apply media_check_cases; [cbn; tauto | cbn; tauto | | intros v; frame_goal].
    apply (not_numeric s (gif_limit s)). cbn; tauto. }
  apply text_check_cases.
Qed.

End Handler.

Lemma od_get_od_set_ne {K V : Type} `{EqDecision K} (k k' : K) (v : V) (d : odict K V) :
  k' <> k -> od_get k' (od_set k v d) = od_get k' d.
Proof.
  intros Hne. unfold od_get. f_equal.
  induction d as [|[k0 v0] r IH]; simpl.
  - rewrite bool_decide_eq_false_2 by congruence. reflexivity.
  - case_bool_decide as Hk; simpl.
    + subst k0. rewrite !bool_decide_eq_false_2 by congruence. reflexivity.
    + destruct (bool_decide (k0 = k')); [reflexivity|exact IH].
Qed.

(** The outcome of [moderate_all] is that of the checks on the state with
    the sender recorded, or that state itself, or the state as it was. *)
Lemma moderate_all_cases (tg : Platform) (now : Q) (message : Message) (st : State) :
  (moderate_all tg now message st = returns st AtChatType \/
   moderate_all tg now message st = returns st AtSender) \/
  exists u : User,
    from_user message = Some u /\
    let st1 := upsert_activity_local (chat_id message) (user_id u) (int_of_float now)
                 (user_username u) st in
    (exists at_, moderate_all tg now message st = returns st1 at_) \/
    moderate_all tg now message st =
    moderate_checks now (chat_id message) (user_id u)
      (get_settings_local (DATA st) (chat_id message)) message st1.
Proof.
  unfold moderate_all. destruct (negb (is_group (chat_type message))); [auto|].
  destruct (from_user message) as [u|]; [|auto].
  destruct (is_bot u); [auto|]. right. exists u. split; [reflexivity|]. cbv zeta.
  destruct (negb (truthy _)); [left; eauto|].
  destruct (is_whitelisted _ _ _); [left; eauto|].
  destruct (truthy_str _ && role_at_least _ ROLE_MOD); [left; eauto|].
  destruct (match tg (chat_id message) (user_id u) with Some _ => _ | None => _ end);
    [left; eauto|].
  right. reflexivity.
Qed.

(** X26. Handling a message leaves the settings, roles, warnings, whitelist
    and the file as they are, and among the activity records, windows,
    fingerprints and albums it touches only those of the sender in the chat
    of the message: those of every other user and chat are as before. *)
Theorem moderate_all_frame (tg : Platform) (now : Q) (message : Message) (st : State) :
  d_settings (DATA (o_state (moderate_all tg now message st))) = d_settings (DATA st) /\
  d_roles (DATA (o_state (moderate_all tg now message st))) = d_roles (DATA st) /\
  d_warns (DATA (o_state (moderate_all tg now message st))) = d_warns (DATA st) /\
  d_whitelist (DATA (o_state (moderate_all tg now message st))) = d_whitelist (DATA st) /\
  disk (o_state (moderate_all tg now message st)) = disk st /\
  (forall c : Z,
     c <> chat_id message ->
     d_activity (DATA (o_state (moderate_all tg now message st))) !! c =
     d_activity (DATA st) !! c) /\
  (forall u' : Z,
     (forall u, from_user message = Some u -> u' <> user_id u) ->
     od_get u' (default [] (d_activity (DATA (o_state (moderate_all tg now message st)))
                              !! chat_id message)) =
     od_get u' (default [] (d_activity (DATA st) !! chat_id message))) /\
  (forall k : Z * Z,
     (forall u, from_user message = Some u -> k <> (chat_id message, user_id u)) ->
     msg_times (o_state (moderate_all tg now message st)) !! k = msg_times st !! k /\
     last_hash (o_state (moderate_all tg now message st)) !! k = last_hash st !! k /\
     sticker_times (o_state (moderate_all tg now message st)) !! k = sticker_times st !! k /\
     gif_times (o_state (moderate_all tg now message st)) !! k = gif_times st !! k /\
     album_seen (o_state (moderate_all tg now message st)) !! k = album_seen st !! k).
Proof.
  assert (Hsame : forall st', st' = st ->
            d_settings (DATA st') = d_settings (DATA st) /\
            d_roles (DATA st') = d_roles (DATA st) /\
            d_warns (DATA st') = d_warns (DATA st) /\
            d_whitelist (DATA st') = d_whitelist (DATA st) /\
            disk st' = disk st /\
            (forall c : Z, c <> chat_id message ->
                           d_activity (DATA st') !! c = d_activity (DATA st) !! c) /\
            (forall u' : Z,
               (forall u, from_user message = Some u -> u' <> user_id u) ->
               od_get u' (default [] (d_activity (DATA st') !! chat_id message)) =
               od_get u' (default [] (d_activity (DATA st) !! chat_id message))) /\
            (forall k : Z * Z,
               (forall u, from_user message = Some u -> k <> (chat_id message, user_id u)) ->
               msg_times st' !! k = msg_times st !! k /\
               last_hash st' !! k = last_hash st !! k /\
               sticker_times st' !! k = sticker_times st !! k /\
               gif_times st' !! k = gif_times st !! k /\
               album_seen st' !! k = album_seen st !! k)).
  { intros st' ->. repeat apply conj; try reflexivity; intros; repeat apply conj; reflexivity. }
  destruct (moderate_all_cases tg now message st) as [[E | E] | (u & Hu & H)];
    [rewrite E; apply Hsame; reflexivity | rewrite E; apply Hsame; reflexivity |].
  clear Hsame. cbv zeta in H.
  set (st1 := upsert_activity_local (chat_id message) (user_id u) (int_of_float now)
                (user_username u) st) in *.
  assert (Ht : touches_only (chat_id message, user_id u) st1
                 (o_state (moderate_all tg now message st))).
  { destruct H as [[at_ E] | E]; rewrite E.
    - cbn [o_state returns]. split; [reflexivity|]. split; [reflexivity|].
      split; [reflexivity|]. intros k Hk. repeat apply conj; reflexivity.
    - apply moderate_checks_cases. }
  destruct Ht as (HD & Hdisk & _ & Hmaps). rewrite HD, Hdisk.
  repeat apply conj; try reflexivity.
  - intros c Hc. subst st1. cbn. apply lookup_insert_ne. congruence.
  - intros u' Hu'. specialize (Hu' u Hu). subst st1. cbn. rewrite lookup_insert_eq.
    cbn [default]. apply od_get_od_set_ne. exact Hu'.
  - intros k Hk. specialize (Hk u Hu). destruct (Hmaps k Hk) as (a1 & a2 & a3 & a4 & a5).
    rewrite a1, a2, a3, a4, a5. repeat apply conj; reflexivity.
Qed.

Lemma apply_action_shape (now : Q) (c u mid : Z) (s : ChatSettings) (reason : string) :
  hd_error (fst (apply_action now c u mid s reason)) = Some (DeleteMessage c mid) /\
  forall e : effect,
    In e (fst (apply_action now c u mid s reason)) ->
    e = DeleteMessage c mid \/ e = AutomodLog c u reason (str (action s)) \/
    exists secs : Z,
      eq_str (action s) "mute" = true /\ int (mute_seconds s) = Ok secs /\
      e = RestrictMember c u (int_of_float now + secs).
Proof.
  unfold apply_action. cbv zeta.
  destruct (eq_str (action s) "mute"); [destruct (int (mute_seconds s)) as [secs|]|];
    (split; [reflexivity|]); cbn; intros x Hx;
    repeat (destruct Hx as [<- | Hx]; [eauto 6|]); destruct Hx.
Qed.

(** X27. Handling a message triggers at most one action: either nothing
    is sent to the platform, or the handler calls [apply_action] once, for
    the sender and the message at hand, with the settings of the chat and
    one of the eight reason tags. What is then sent starts with the
    deletion of that message, and holds besides at most the audit entry and
    a restriction of the sender until [mute_seconds] after the clock
    reading, the latter only when the action is [mute]. *)
Theorem moderate_all_one_action (tg : Platform) (now : Q) (message : Message) (st : State) :
  (o_verdict (moderate_all tg now message st) = None /\
   o_effects (moderate_all tg now message st) = []) \/
  exists (u : User) (reason : string),
    from_user message = Some u /\ In reason REASONS /\
    o_verdict (moderate_all tg now message st) = Some reason /\
    (o_effects (moderate_all tg now message st), o_exn (moderate_all tg now message st)) =
    apply_action now (chat_id message) (user_id u) (message_id message)
      (get_settings_local (DATA st) (chat_id message)) reason /\
    hd_error (o_effects (moderate_all tg now message st)) =
    Some (DeleteMessage (chat_id message) (message_id message)) /\
    forall e : effect,
      In e (o_effects (moderate_all tg now message st)) ->
      e = DeleteMessage (chat_id message) (message_id message) \/
      e = AutomodLog (chat_id message) (user_id u) reason
            (str (action (get_settings_local (DATA st) (chat_id message)))) \/
      exists secs : Z,
        eq_str (action (get_settings_local (DATA st) (chat_id message))) "mute" = true /\
        int (mute_seconds (get_settings_local (DATA st) (chat_id message))) = Ok secs /\
        e = RestrictMember (chat_id message) (user_id u) (int_of_float now + secs).
Proof.
  destruct (moderate_all_cases tg now message st) as [[E | E] | (u & Hu & H)];
    [rewrite E; left; split; reflexivity | rewrite E; left; split; reflexivity |].
  cbv zeta in H. destruct H as [[at_ E] | E]; [rewrite E; left; split; reflexivity|].
  rewrite E.
  destruct (moderate_checks_cases now (chat_id message) (user_id u)
              (get_settings_local (DATA st) (chat_id message)) message
              (upsert_activity_local (chat_id message) (user_id u) (int_of_float now)
                 (user_username u) st)) as [_ [(Hv & He & _) | (reason & Hr & Hv & Ha)]].
  - left. split; assumption.
  - right. exists u, reason. split; [exact Hu|]. split; [exact Hr|]. split; [exact Hv|].
    split; [exact Ha|].
    pose proof (apply_action_shape now (chat_id message) (user_id u) (message_id message)
                  (get_settings_local (DATA st) (chat_id message)) reason) as [Hhd Hall].
    rewrite <- Ha in Hhd, Hall. cbn [fst] in Hhd, Hall. split; [exact Hhd|exact Hall].
Qed.

Lemma in_bounds_numeric (s : ChatSettings) :
  in_bounds s = true ->
  numeric_limits s = true /\ exists secs, int (mute_seconds s) = Ok secs.
Proof.
  intros H. rewrite in_bounds_fields in H.
  pose proof (H "mute_seconds"%string (mute_seconds s) eq_refl) as H1.
  pose proof (H "flood_limit"%string (flood_limit s) eq_refl) as H2.
  pose proof (H "flood_window_sec"%string (flood_window_sec s) eq_refl) as H3.
  pose proof (H "repeat_limit"%string (repeat_limit s) eq_refl) as H4.
  pose proof (H "sticker_limit"%string (sticker_limit s) eq_refl) as H5.
  pose proof (H "gif_limit"%string (gif_limit s) eq_refl) as H6.
  pose proof (H "media_window_sec"%string (media_window_sec s) eq_refl) as H7.
  change (int_in 30 86400 (mute_seconds s) = true) in H1.
  change (int_in 2 50 (flood_limit s) = true) in H2.
  change (int_in 3 120 (flood_window_sec s) = true) in H3.
  change (int_in 2 10 (repeat_limit s) = true) in H4.
  change (int_in 1 30 (sticker_limit s) = true) in H5.
  change (int_in 1 30 (gif_limit s) = true) in H6.
  change (int_in 3 120 (media_window_sec s) = true) in H7.
  unfold numeric_limits.
  destruct (mute_seconds s); try discriminate H1.
  destruct (flood_limit s); try discriminate H2.
  destruct (flood_window_sec s); try discriminate H3.
  destruct (repeat_limit s); try discriminate H4.
  destruct (sticker_limit s); try discriminate H5.
  destruct (gif_limit s); try discriminate H6.
  destruct (media_window_sec s); try discriminate H7.
  split; [reflexivity|]. eexists. reflexivity.
Qed.

(** X28. The statements of [moderate_all] themselves, as opposed to the
    calls of the platform they await: in a chat whose settings are within
    their bounds they raise no exception, whatever the message and the
    state of the windows, and in any chat the only exceptions they raise
    are the [TypeError] of a limit or window that is not a number and what
    [int(mute_seconds)] raises inside [apply_action]. The premise is on the
    platform: its calls raise nothing but [TelegramBadRequest], which the
    program catches. Any other exception of a call is not caught, leaves
    the handler, and is not covered here. *)
Theorem moderate_all_exceptions (tg : Platform) (now : Q) (message : Message) (st : State) :
  (in_bounds (get_settings_local (DATA st) (chat_id message)) = true ->
   o_exn (moderate_all tg now message st) = None) /\
  (forall e : exn,
     o_exn (moderate_all tg now message st) = Some e ->
     e = TypeError /\
     numeric_limits (get_settings_local (DATA st) (chat_id message)) = false \/
     int (mute_seconds (get_settings_local (DATA st) (chat_id message))) = Raise e).
Proof.
  assert (Hgen : forall e : exn,
            o_exn (moderate_all tg now message st) = Some e ->
            e = TypeError /\
            numeric_limits (get_settings_local (DATA st) (chat_id message)) = false \/
            int (mute_seconds (get_settings_local (DATA st) (chat_id message))) = Raise e).
  { intros e.
    destruct (moderate_all_cases tg now message st) as [[E | E] | (u & Hu & H)];
      [rewrite E; discriminate | rewrite E; discriminate |].
    cbv zeta in H. destruct H as [[at_ E] | E]; [rewrite E; discriminate|].
    rewrite E.
    destruct (moderate_checks_cases now (chat_id message) (user_id u)
                (get_settings_local (DATA st) (chat_id message)) message
                (upsert_activity_local (chat_id message) (user_id u) (int_of_float now)
                   (user_username u) st))
      as [_ [(_ & _ & [Hn | [Ht Hnum]]) | (reason & _ & _ & Ha)]].
    - rewrite Hn. discriminate.
    - rewrite Ht. intros [= <-]. left. split; [reflexivity|exact Hnum].
    - intros He. right. apply (f_equal snd) in Ha. cbn [snd] in Ha. rewrite He in Ha.
      unfold apply_action in Ha. cbv zeta in Ha.
      destruct (eq_str (action _) "mute"); [|discriminate Ha].
      destruct (int (mute_seconds _)) as [secs|e']; [discriminate Ha|].
      cbn [snd] in Ha. congruence. }
  split; [|exact Hgen].
  intros Hb. apply in_bounds_numeric in Hb as [Hnum [secs Hsecs]].
  destruct (o_exn (moderate_all tg now message st)) as [e|] eqn:E; [|reflexivity].
  destruct (Hgen e eq_refl) as [[_ H] | H]; congruence.
Qed.
(** ** Durations *)

Section Durations.

Lemma digits_ok (l : list ascii) :
  forall (acc : Z) (b : bool),
  List.Forall (fun c => is_digit c = true) l -> 0 <= acc -> l <> [] \/ b = true ->
  exists n, digits acc b l = Some n /\ 0 <= n.
Proof.
  induction l as [|c r IH]; intros acc b Hall Hacc Hne.
  - destruct Hne as [Hne | ->]; [contradiction|]. exists acc. auto.
  - inversion Hall as [|? ? Hc Hr]; subst. cbn [digits]. rewrite Hc.
    apply IH; [exact Hr| |now right].
    unfold is_digit, in_range in Hc. apply andb_true_iff in Hc as [H1 _].
    apply N.leb_le in H1. lia.
Qed.

Lemma int_of_pystr_digits (l : list ascii) :
  List.Forall (fun c => is_digit c = true) l -> l <> [] ->
  exists n, int_of_pystr l = Ok n /\ 0 <= n.
Proof.
  intros Hall Hne. unfold int_of_pystr, int_of_str.
  unfold lit. rewrite list_ascii_of_string_of_list_ascii, skip_int_space_id.
  2:{ eapply List.Forall_impl; [|exact Hall]. apply is_digit_not_space. }
  destruct l as [|c r]; [contradiction|].
  inversion Hall as [|? ? Hc Hr]; subst.
  destruct (Ascii.eqb c "-") eqn:E1; [apply Ascii.eqb_eq in E1; subst; discriminate|].
  destruct (Ascii.eqb c "+") eqn:E2; [apply Ascii.eqb_eq in E2; subst; discriminate|].
  destruct (digits_ok (c :: r) 0 false Hall ltac:(lia) ltac:(now left)) as (n & Hn & H0).
  rewrite Hn. eauto.
Qed.

Lemma span_digits_spec (s : pystr) :
  List.Forall (fun c => is_digit c = true) (fst (span_digits s)) /\
  s = fst (span_digits s) ++ snd (span_digits s).
Proof.
  induction s as [|c r [IH1 IH2]]; [split; [constructor|reflexivity]|].
  cbn [span_digits]. destruct (is_digit c) eqn:Hc; [|split; [constructor|reflexivity]].
  destruct (span_digits r) as [num rest]. cbn [fst snd] in *.
  split; [now constructor|]. now rewrite IH2 at 1.
Qed.

Lemma match_unit_num (s : pystr) (num : pystr) (u : ascii) (rest : pystr) :
  match_unit s = Some (num, u, rest) ->
  List.Forall (fun c => is_digit c = true) num /\ num <> [].
Proof.
  unfold match_unit. pose proof (span_digits_spec s) as [H _].
  destruct (span_digits s) as [n r1]. cbn [fst] in H.
  destruct n as [|c n]; [discriminate|].
  destruct (lstrip r1) as [|x r2]; [discriminate|].
  destruct (is_unit x); [|discriminate]. intros [= <- <- <-]. split; [exact H|discriminate].
Qed.

Lemma findall_units_nums (s : pystr) :
  forall skip : nat,
  List.Forall (fun nu => List.Forall (fun c => is_digit c = true) (fst nu) /\ fst nu <> [])
    (findall_units skip s).
Proof.
  induction s as [|c r IH]; intros skip; [constructor|].
  cbn [findall_units]. destruct skip as [|k]; [|apply IH].
  destruct (match_unit (c :: r)) as [[[num u] rest]|] eqn:E; [|apply IH].
  constructor; [|apply IH]. cbn [fst]. exact (match_unit_num _ _ _ _ E).
Qed.

Lemma unit_seconds_nonneg (u : ascii) : 0 <= unit_seconds u.
Proof.
  unfold unit_seconds.
  repeat match goal with |- context [if ?b then _ else _] => destruct b end; lia.
Qed.

Lemma sum_units_nonneg (found : list (pystr * ascii)) :
  forall total : Z,
  0 <= total ->
  List.Forall (fun nu => List.Forall (fun c => is_digit c = true) (fst nu) /\ fst nu <> [])
    found ->
  exists t, sum_units total found = Ok t /\ 0 <= t.
Proof.
  induction found as [|[num u] r IH]; intros total Ht Hall; [exists total; auto|].
  inversion Hall as [|? ? [H1 H2] Hr]; subst. cbn [fst] in *. cbn [sum_units].
  destruct (int_of_pystr_digits num H1 H2) as (n & -> & Hn).
  apply IH; [|exact Hr]. pose proof (unit_seconds_nonneg u). nia.
Qed.

Lemma digits_chars (l : list ascii) :
  forall (acc : Z) (b : bool) (n : Z),
  digits acc b l = Some n ->
  List.Forall (fun c => is_digit c = true \/ c = "_"%char) l.
Proof.
  induction l as [|c r IH]; intros acc b n H; [constructor|].
  cbn [digits] in H. destruct (is_digit c) eqn:Hc.
  - constructor; [now left|]. eapply IH, H.
  - destruct (Ascii.eqb c "_" && b) eqn:Hu; [|discriminate].
    apply andb_true_iff in Hu as [Hu _]. apply Ascii.eqb_eq in Hu.
    constructor; [now right|]. eapply IH, H.
Qed.

Lemma isdigit_char_not_space (c : ascii) : isdigit_char c = true -> int_space c = false.
Proof.
  unfold isdigit_char, is_digit, int_space, in_range.
  rewrite !orb_true_iff, !orb_false_iff, andb_true_iff, andb_false_iff, !N.leb_le,
    !N.leb_gt, !N.eqb_eq, !N.eqb_neq. lia.
Qed.

Lemma int_of_pystr_isdigit (l : list ascii) :
  forallb isdigit_char l = true -> l <> [] ->
  (exists n, int_of_pystr l = Ok n /\ 0 <= n) \/
  (int_of_pystr l = Raise ValueError /\ exists c, In c l /\ is_digit c = false).
Proof.
  intros Hall Hne.
  destruct (forallb is_digit l) eqn:Hd.
  - left. apply int_of_pystr_digits; [|exact Hne].
    apply List.Forall_forall. rewrite forallb_forall in Hd. exact Hd.
  - right.
    assert (Hc : exists c, In c l /\ is_digit c = false).
    { clear Hall Hne. induction l as [|c r IH]; [discriminate|]. cbn in Hd.
      destruct (is_digit c) eqn:E; [|exists c; split; [now left|exact E]].
      destruct (IH Hd) as (x & Hx & Ex). exists x. split; [now right|exact Ex]. }
    split; [|exact Hc]. destruct Hc as (x & Hx & Ex).
    unfold int_of_pystr, int_of_str, lit.
    rewrite list_ascii_of_string_of_list_ascii, skip_int_space_id.
    2:{ apply List.Forall_forall. intros c Hc. apply isdigit_char_not_space.
        rewrite forallb_forall in Hall. auto. }
    destruct l as [|c r]; [contradiction|].
    assert (Hc0 : isdigit_char c = true) by (rewrite forallb_forall in Hall; apply Hall; now left).
    destruct (Ascii.eqb c "-") eqn:E1; [apply Ascii.eqb_eq in E1; subst; discriminate|].
    destruct (Ascii.eqb c "+") eqn:E2; [apply Ascii.eqb_eq in E2; subst; discriminate|].
    destruct (digits 0 false (c :: r)) as [n|] eqn:En; [|reflexivity].
    exfalso. apply digits_chars in En. rewrite List.Forall_forall in En.
    destruct (En x Hx) as [H | ->]; [congruence|].
    rewrite forallb_forall in Hall. specialize (Hall _ Hx). discriminate.
Qed.

End Durations.

(** X29. [parse_duration_to_seconds] never returns a negative number, and
    the only exception it raises is the [ValueError] of [int] on a text
    that [str.isdigit] accepts although one of its characters is no
    decimal digit (a superscript digit). *)
Theorem parse_duration_to_seconds_range (s : pystr) :
  match parse_duration_to_seconds s with
  | Ok (Some n) => 0 <= n
  | Ok None => True
  | Raise e =>
      e = ValueError /\ isdigit (lower (strip s)) = true /\
      exists c, In c (lower (strip s)) /\ is_digit c = false
  end.
Proof.
  unfold parse_duration_to_seconds. cbv zeta.
  destruct (lower (strip s)) as [|c r] eqn:E; [exact I|].
  destruct (isdigit (c :: r)) eqn:Hd.
  - destruct (int_of_pystr_isdigit (c :: r) Hd ltac:(discriminate))
      as [(n & -> & Hn) | (-> & Hc)]; [exact Hn|]. auto.
  - pose proof (findall_units_nums (c :: r) 0) as Hall.
    destruct (findall_units 0 (c :: r)) as [|f fs]; [exact I|].
    destruct (sum_units_nonneg (f :: fs) 0 ltac:(lia) Hall) as (t & -> & Ht). exact Ht.
Qed.

Section Written.

Lemma str_of_Z_digits (n : Z) :
  0 <= n ->
  List.Forall (fun c => is_digit c = true) (lit (str_of_Z n)) /\ lit (str_of_Z n) <> [].
Proof.
  intros Hn. unfold str_of_Z. destruct n as [|p|p]; [| |lia].
  - split; [repeat constructor|discriminate].
  - cbn [Z.to_int NilZero.string_of_int].
    pose proof (DecimalPos.Unsigned.to_uint_nonnil p) as Hnn.
    assert (E : NilZero.string_of_uint (Pos.to_uint p) =
                NilEmpty.string_of_uint (Pos.to_uint p))
      by (destruct (Pos.to_uint p); [contradiction|reflexivity..]).
    rewrite E. split; [apply uint_chars|].
    destruct (Pos.to_uint p); [contradiction|discriminate..].
Qed.

Lemma int_of_pystr_str (n : Z) : int_of_pystr (lit (str_of_Z n)) = Ok n.
Proof.
  unfold int_of_pystr, lit. now rewrite string_of_list_ascii_of_string, int_of_str_str_of_Z.
Qed.

Lemma is_unit_facts (u : ascii) :
  is_unit u = true ->
  is_digit u = false /\ isspace u = false /\ isdigit_char u = false /\ lower_char u = u.
Proof.
  unfold is_unit. cbn [existsb]. rewrite !orb_true_iff.
  intros [H | [H | [H | [H | H]]]]; try discriminate;
    apply Ascii.eqb_eq in H; subst u; repeat split; reflexivity.
Qed.

Lemma is_digit_facts (c : ascii) :
  is_digit c = true -> isspace c = false /\ lower_char c = c.
Proof.
  intros H. destruct c as [[] [] [] [] [] [] [] []]; try discriminate H; split; reflexivity.
Qed.

Lemma span_digits_app (num rest : pystr) (u : ascii) :
  List.Forall (fun c => is_digit c = true) num -> is_digit u = false ->
  span_digits (num ++ u :: rest) = (num, u :: rest).
Proof.
  intros Hall Hu. induction Hall as [|c r Hc _ IH]; cbn [app span_digits].
  - now rewrite Hu.
  - now rewrite Hc, IH.
Qed.

Lemma findall_skip (pre rest : pystr) :
  findall_units (List.length pre) (pre ++ rest) = findall_units 0 rest.
Proof. induction pre as [|c r IH]; [reflexivity|]. exact IH. Qed.

Lemma findall_written (items : list (Z * ascii)) :
  (forall n u, In (n, u) items -> 0 <= n /\ is_unit u = true) ->
  findall_units 0 (written items) =
  List.map (fun it => (lit (str_of_Z (fst it)), snd it)) items.
Proof.
  induction items as [|[n u] r IH]; intros Hall; [reflexivity|].
  destruct (Hall n u (or_introl eq_refl)) as [Hn Hu].
  destruct (str_of_Z_digits n Hn) as [Hd Hne].
  destruct (is_unit_facts u Hu) as (Hu1 & Hu2 & _ & _).
  change (written ((n, u) :: r)) with ((lit (str_of_Z n) ++ [u]) ++ written r).
  rewrite <- app_assoc. cbn [app].
  assert (Hm : match_unit (lit (str_of_Z n) ++ u :: written r) =
               Some (lit (str_of_Z n), u, written r)).
  { unfold match_unit. rewrite (span_digits_app _ _ _ Hd Hu1).
    destruct (lit (str_of_Z n)) as [|c0 r0]; [contradiction|].
    cbn [lstrip]. now rewrite Hu2, Hu. }
  destruct (lit (str_of_Z n)) as [|c0 r0] eqn:El; [contradiction|].
  cbn [app findall_units List.map fst snd]. cbn [app] in Hm. rewrite Hm.
  f_equal; [now rewrite El|].
  rewrite length_app. cbn [List.length].
  replace (List.length r0 + S (List.length (written r)) - List.length (written r))%nat
    with (List.length (r0 ++ [u])) by (rewrite length_app; cbn; lia).
  change (r0 ++ u :: written r) with (r0 ++ [u] ++ written r).
  rewrite app_assoc, findall_skip. apply IH. intros n' u' Hin. apply Hall. now right.
Qed.

Lemma sum_written (items : list (Z * ascii)) (total : Z) :
  sum_units total (List.map (fun it => (lit (str_of_Z (fst it)), snd it)) items) =
  Ok (total + seconds_of items).
Proof.
  revert total. induction items as [|[n u] r IH]; intros total.
  - cbn. f_equal. lia.
  - cbn [List.map sum_units fst snd]. rewrite int_of_pystr_str, IH. f_equal.
    cbn [seconds_of fold_right fst snd]. fold (seconds_of r). lia.
Qed.

Lemma written_chars (items : list (Z * ascii)) :
  (forall n u, In (n, u) items -> 0 <= n /\ is_unit u = true) ->
  List.Forall (fun c => is_digit c = true \/ is_unit c = true) (written items).
Proof.
  induction items as [|[n u] r IH]; intros Hall; [constructor|].
  destruct (Hall n u (or_introl eq_refl)) as [Hn Hu].
  change (written ((n, u) :: r)) with ((lit (str_of_Z n) ++ [u]) ++ written r).
  apply List.Forall_app. split; [apply List.Forall_app; split|].
  - eapply List.Forall_impl; [|apply (str_of_Z_digits n Hn)]. intros; now left.
  - constructor; [now right|constructor].
  - apply IH. intros n' u' Hin. apply Hall. now right.
Qed.

Lemma written_ends (items : list (Z * ascii)) :
  items <> [] ->
  (forall n u, In (n, u) items -> 0 <= n /\ is_unit u = true) ->
  (exists c, hd_error (written items) = Some c /\ is_digit c = true) /\
  (exists u, hd_error (rev (written items)) = Some u /\ is_unit u = true).
Proof.
  intros Hne Hall. split.
  - destruct items as [|[n u] r]; [contradiction|].
    destruct (Hall n u (or_introl eq_refl)) as [Hn Hu].
    destruct (str_of_Z_digits n Hn) as [Hd Hnn].
    change (written ((n, u) :: r)) with ((lit (str_of_Z n) ++ [u]) ++ written r).
    destruct (lit (str_of_Z n)) as [|c0 r0]; [contradiction|].
    exists c0. split; [reflexivity|]. now inversion Hd.
  - induction items as [|[n u] r IH]; [contradiction|].
    destruct (Hall n u (or_introl eq_refl)) as [Hn Hu].
    change (written ((n, u) :: r)) with ((lit (str_of_Z n) ++ [u]) ++ written r).
    destruct r as [|it r'].
    + exists u. split; [|exact Hu]. change (written []) with (@nil ascii).
      rewrite app_nil_r, rev_app_distr. reflexivity.
    + destruct IH as (x & Hx & Hux); [discriminate|intros; apply Hall; now right|].
      exists x. split; [|exact Hux]. rewrite rev_app_distr.
      destruct (rev (written (it :: r'))) as [|y ys]; [discriminate|]. exact Hx.
Qed.

End Written.

(** X30. A duration written as one or more numbers of 0 or more, each
    followed by one of the unit letters [s], [m], [h], [d], parses to the
    sum of the numbers times 1, 60, 3600 and 86400 seconds; a number of 0
    or more on its own parses to that many seconds. *)
Theorem parse_duration_to_seconds_written (items : list (Z * ascii)) (n : Z) :
  (items <> [] ->
   (forall k u, In (k, u) items -> 0 <= k /\ is_unit u = true) ->
   parse_duration_to_seconds (written items) = Ok (Some (seconds_of items))) /\
  (0 <= n -> parse_duration_to_seconds (lit (str_of_Z n)) = Ok (Some n)).
Proof.
  split.
  - intros Hne Hall. unfold parse_duration_to_seconds. cbv zeta.
    destruct (written_ends items Hne Hall) as [(c & Hc & Hcd) (u & Hu & Huu)].
    pose proof (written_chars items Hall) as Hchars.
    assert (Hstrip : strip (written items) = written items).
    { apply strip_fixed. split; intros x Hx.
      - rewrite Hc in Hx. injection Hx as <-. apply (is_digit_facts c Hcd).
      - rewrite Hu in Hx. injection Hx as <-. apply (is_unit_facts u Huu). }
    assert (Hlower : lower (written items) = written items).
    { clear -Hchars. induction Hchars as [|x r Hx _ IH]; [reflexivity|].
      cbn [lower List.map]. fold (lower r). rewrite IH. f_equal.
      destruct Hx as [Hx | Hx]; [apply (is_digit_facts x Hx)|apply (is_unit_facts x Hx)]. }
    rewrite Hstrip, Hlower.
    destruct (written items) as [|c0 r0] eqn:Ew; [discriminate|].
    assert (Hnd : isdigit (c0 :: r0) = false).
    { apply not_true_is_false. intros Hd. change (forallb isdigit_char (c0 :: r0) = true) in Hd.
      rewrite forallb_forall in Hd.
      assert (Hin : In u (c0 :: r0)).
      { apply in_rev. destruct (rev (c0 :: r0)) as [|y ys]; [discriminate|].
        injection Hu as ->. now left. }
      specialize (Hd u Hin). destruct (is_unit_facts u Huu) as (_ & _ & H & _). congruence. }
    rewrite Hnd, <- Ew, (findall_written items Hall).
    pose proof (sum_written items 0) as Hs.
    destruct items as [|it r]; [contradiction|].
    cbn [List.map] in Hs |- *. rewrite Hs. reflexivity.
  - intros Hn. unfold parse_duration_to_seconds. cbv zeta.
    destruct (str_of_Z_digits n Hn) as [Hd Hne].
    assert (Hfix : lower (strip (lit (str_of_Z n))) = lit (str_of_Z n)).
    { assert (Hs : strip (lit (str_of_Z n)) = lit (str_of_Z n)).
      { apply strip_fixed. split; intros x Hx.
        - destruct (lit (str_of_Z n)) as [|c r]; [discriminate|]. injection Hx as <-.
          inversion Hd; subst. now apply is_digit_facts.
        - apply List.Forall_rev in Hd. destruct (rev (lit (str_of_Z n))) as [|c r];
            [discriminate|]. injection Hx as <-. inversion Hd; subst. now apply is_digit_facts. }
      rewrite Hs. clear Hs Hne. induction Hd as [|x r Hx _ IH]; [reflexivity|].
      cbn [lower List.map]. fold (lower r). rewrite IH. f_equal. now apply is_digit_facts. }
    rewrite Hfix. destruct (lit (str_of_Z n)) as [|c r] eqn:El; [contradiction|].
    assert (Hid : isdigit (c :: r) = true).
    { change (forallb isdigit_char (c :: r) = true). apply forallb_forall. intros x Hx.
      rewrite List.Forall_forall in Hd. unfold isdigit_char. now rewrite (Hd x Hx). }
    rewrite Hid, <- El, int_of_pystr_str. reflexivity.
Qed.

Lemma parse_duration_to_seconds_written_witness :
  written [(1, "h"%char); (30, "m"%char)] = lit "1h30m" /\
  parse_duration_to_seconds (written [(1, "h"%char); (30, "m"%char)]) =
  Ok (Some (seconds_of [(1, "h"%char); (30, "m"%char)])) /\
  seconds_of [(1, "h"%char); (30, "m"%char)] = 5400.
Proof.
  split; [vm_compute; reflexivity|]. split; [|reflexivity].
  apply (proj1 (parse_duration_to_seconds_written [(1, "h"%char); (30, "m"%char)] 0)).
  - discriminate.
  - intros k u [[= <- <-] | [[= <- <-] | []]]; split; (lia || reflexivity).
Defined.
